(** * Camera-Calibration: correspondence accumulation and calibration solve

    A shallow embedding of the calibration program's point bookkeeping
    ([calcChessboardCorners], [calcArucoCorners], [getIntPoints],
    [getSharedPoints], [chessboardDetect], [arucoDetect]), of its error
    metric ([computeReprojectionErrors]), of the two solve wrappers
    ([runIntrinsicCalibration], [runStereoCalibration]) and of what drives
    them: the validation of the settings ([Settings::interprate]), the
    detection pass of [calibrateWithSettings] over the images and
    [runCalibrationAndSave].

    Coordinates are IEEE-754 numbers: a C++ [float] is a binary32 value and a
    [double] a binary64 value, both represented by the Standard Library's
    [spec_float] with the operations of [SpecFloat] at the matching precision.
    The OpenCV and ArUco routines the program calls (pattern detection, the
    numeric solvers, projection and norm) are parameters of the model. *)

From Stdlib Require Import ZArith String Bool Lia.
From Stdlib Require Import Floats.SpecFloat.
From stdpp Require Import base list.

(** ** IEEE-754 arithmetic at the two precisions the program uses *)

Module F32.
Definition prec : Z := 24.
Definition emax : Z := 128.
Definition add := SFadd prec emax.
Definition mul := SFmul prec emax.
Definition div := SFdiv prec emax.
Definition opp := SFopp.
Definition eqb := SFeqb.
(** Conversion of a C++ [int] to [float] (round to nearest even). *)
Definition of_int (z : Z) : spec_float := binary_normalize prec emax z 0 false.
Definition zero : spec_float := S754_zero false.
End F32.

Module F64.
Definition prec : Z := 53.
Definition emax : Z := 1024.
Definition add := SFadd prec emax.
Definition mul := SFmul prec emax.
Definition div := SFdiv prec emax.
Definition sqrt := SFsqrt prec emax.
Definition leb := SFleb.
Definition eqb := SFeqb.
Definition of_int (z : Z) : spec_float := binary_normalize prec emax z 0 false.
Definition zero : spec_float := S754_zero false.
Definition one : spec_float := of_int 1.
End F64.

(** The cast [(float)x] of a [double]: the value is rounded to binary32. *)
Definition double_to_float (x : spec_float) : spec_float :=
  match x with
  | S754_finite s m e => binary_round F32.prec F32.emax s m e
  | _ => x
  end.

(** A value that is not NaN and whose sign bit is clear, or a zero of either
    sign: exactly the values [v] for which the C++ test [0 <= v] holds. *)
Definition nonneg (x : spec_float) : Prop :=
  match x with
  | S754_nan => False
  | S754_zero _ => True
  | S754_infinity s | S754_finite s _ _ => s = false
  end.

Definition is_nan (x : spec_float) : bool :=
  match x with S754_nan => true | _ => false end.

Definition is_zero (x : spec_float) : bool :=
  match x with S754_zero _ => true | _ => false end.

(** ** Points *)

Record Point2f := mkPoint2f { p2x : spec_float; p2y : spec_float }.
Record Point3f := mkPoint3f { px : spec_float; py : spec_float; pz : spec_float }.

(** [cv::Point3_::operator==]: coordinate-wise [==] on floats. *)
Definition Point3f_eqb (a b : Point3f) : bool :=
  F32.eqb (px a) (px b) && F32.eqb (py a) (py b) && F32.eqb (pz a) (pz b).

Definition Point3f_of_ints (x y z : Z) : Point3f :=
  mkPoint3f (F32.of_int x) (F32.of_int y) (F32.of_int z).

(** ** The Plane Unifier: [getIntPoints] *)

Definition unifyXY (p : Point3f) : Point3f :=
  mkPoint3f (F32.div (F32.add (px p) (F32.of_int 1000)) (F32.of_int 125))
            (F32.div (F32.add (py p) (F32.of_int 1000)) (F32.of_int 125))
            (F32.of_int 0).

Definition unifyYZ (p : Point3f) : Point3f :=
  mkPoint3f (F32.of_int 0)
            (F32.div (F32.add (py p) (F32.of_int 1000)) (F32.of_int 125))
            (F32.div (F32.add (F32.opp (px p)) (F32.of_int 1000)) (F32.of_int 125)).

Definition unifyXZ (p : Point3f) : Point3f :=
  mkPoint3f (F32.div (F32.add (px p) (F32.of_int 1000)) (F32.of_int 125))
            (F32.of_int 0)
            (F32.div (F32.add (F32.opp (py p)) (F32.of_int 1000)) (F32.of_int 125)).

(** [for (auto p : points) intPoints.push_back(f p)]: the loop appends to the
    vector built so far. *)
Fixpoint push_each {A B : Type} (f : A -> B) (points : list A) (acc : list B) : list B :=
  match points with
  | [] => acc
  | p :: rest => push_each f rest (acc ++ [f p])
  end.

(** The [switch] on the plane label; a label matching no [case] leaves
    [intPoints] as it was declared, empty. *)
Definition getIntPoints_plane (plane : string) (points : list Point3f) : list Point3f :=
  let intPoints := [] in
  if String.eqb plane "XY"%string then push_each unifyXY points intPoints
  else if String.eqb plane "YZ"%string then push_each unifyYZ points intPoints
  else if String.eqb plane "XZ"%string then push_each unifyXZ points intPoints
  else intPoints.

(** ** Exceptions and undefined behaviour

    [std::vector::at] throws [std::out_of_range]; [operator[]] past the end is
    undefined behaviour, which the model reports as an outcome of its own
    instead of choosing a value. *)

Inductive exn := out_of_range | undefined_behaviour.

Inductive outcome (A : Type) : Type :=
  | Ok (a : A)
  | Throw (e : exn).
Arguments Ok {A} a.
Arguments Throw {A} e.

Definition obind {A B : Type} (c : outcome A) (k : A -> outcome B) : outcome B :=
  match c with
  | Ok a => k a
  | Throw e => Throw e
  end.

Notation "'do' x <- c ; k" := (obind c (fun x => k))
  (at level 10, x pattern, c at level 100, k at level 200).

(** [v.at(i)] for an unsigned index. *)
Definition vec_at {A : Type} (v : list A) (i : nat) : outcome A :=
  match v !! i with
  | Some x => Ok x
  | None => Throw out_of_range
  end.

(** [v.at(i)] for an [int] index: a negative [int] converts to a huge
    [size_t], which is out of range. *)
Definition vec_at_int {A : Type} (v : list A) (i : Z) : outcome A :=
  if (i <? 0)%Z then Throw out_of_range else vec_at v (Z.to_nat i).

(** [v[i]]. *)
Definition vec_index {A : Type} (v : list A) (i : nat) : outcome A :=
  match v !! i with
  | Some x => Ok x
  | None => Throw undefined_behaviour
  end.

Fixpoint foldM {A S : Type} (f : S -> A -> outcome S) (l : list A) (s : S) : outcome S :=
  match l with
  | [] => Ok s
  | a :: rest => do s' <- f s a; foldM f rest s'
  end.

(** Values of a 32-bit [int]; arithmetic that leaves the range wraps. *)
Definition wrap32 (z : Z) : Z := ((z + 2 ^ 31) mod 2 ^ 32 - 2 ^ 31)%Z.

(** [(int)v.size()]. *)
Definition int_of_size (n : nat) : Z := wrap32 (Z.of_nat n).

(** ** Program data *)

(** A [cv::Mat] of doubles, row by row. *)
Abbreviation Mat := (list (list spec_float)).

Record intrinsicCalibration := mkIntrinsicCalibration {
  cameraMatrix : Mat;
  distCoeffs : Mat;
  rvecs : list Mat;
  tvecs : list Mat;
  imagePoints : list (list Point2f);
  objectPoints : list (list Point3f);
  reprojErrs : list spec_float;
  totalAvgErr : spec_float
}.

Record stereoCalibration := mkStereoCalibration {
  stR : Mat; stT : Mat; stE : Mat; stF : Mat;
  stR1 : Mat; stR2 : Mat; stP1 : Mat; stP2 : Mat; stQ : Mat;
  validRoi : list (Z * Z * Z * Z)
}.

(** An [aruco::Marker]: an identity and the vector of its image corners. *)
Record Marker := mkMarker { marker_id : Z; marker_corners : list Point2f }.

(** An [aruco::Marker3DInfo]: an identity and the vector of its 3D corners. *)
Record Marker3DInfo := mkMarker3DInfo { info_id : Z; info_points : list Point3f }.

(** An [aruco::MarkerMap] is the vector of its entries. *)
Abbreviation MarkerMap := (list Marker3DInfo).

Inductive Pattern := CHESSBOARD | ARUCO_SINGLE | ARUCO_BOX | NOT_EXISTING.
Inductive Mode := INTRINSIC | STEREO | PREVIEW | INVALID.

Definition Pattern_eqb (a b : Pattern) : bool :=
  match a, b with
  | CHESSBOARD, CHESSBOARD | ARUCO_SINGLE, ARUCO_SINGLE
  | ARUCO_BOX, ARUCO_BOX | NOT_EXISTING, NOT_EXISTING => true
  | _, _ => false
  end.

Definition Mode_eqb (a b : Mode) : bool :=
  match a, b with
  | INTRINSIC, INTRINSIC | STEREO, STEREO | PREVIEW, PREVIEW | INVALID, INVALID => true
  | _, _ => false
  end.

Record Settings := mkSettings {
  mode : Mode;
  calibrationPattern : Pattern;
  boardSize_width : Z;
  boardSize_height : Z;
  squareSize : spec_float;
  configList : list MarkerMap;
  planeList : list string;
  nConfigs : Z;
  nImages : Z;
  imageSize : Z * Z;
  useIntrinsicInput : bool;
  intrinsicInput : intrinsicCalibration;
  flag : Z
}.

(** The default-constructed [intrinsicCalibration]: empty matrices and
    vectors, [totalAvgErr = 0]. *)
Definition emptyCalibration : intrinsicCalibration :=
  mkIntrinsicCalibration [] [] [] [] [] [] [] F64.zero.

Definition set_points (c : intrinsicCalibration)
    (ip : list (list Point2f)) (op : list (list Point3f)) : intrinsicCalibration :=
  mkIntrinsicCalibration (cameraMatrix c) (distCoeffs c) (rvecs c) (tvecs c)
                         ip op (reprojErrs c) (totalAvgErr c).

Definition set_intrinsics (c : intrinsicCalibration) (cm dc : Mat) : intrinsicCalibration :=
  mkIntrinsicCalibration cm dc (rvecs c) (tvecs c)
                         (imagePoints c) (objectPoints c) (reprojErrs c) (totalAvgErr c).

Definition set_solution (c : intrinsicCalibration)
    (cm dc : Mat) (rv tv : list Mat) : intrinsicCalibration :=
  mkIntrinsicCalibration cm dc rv tv
                         (imagePoints c) (objectPoints c) (reprojErrs c) (totalAvgErr c).

Definition set_errors (c : intrinsicCalibration)
    (errs : list spec_float) (avg : spec_float) : intrinsicCalibration :=
  mkIntrinsicCalibration (cameraMatrix c) (distCoeffs c) (rvecs c) (tvecs c)
                         (imagePoints c) (objectPoints c) errs avg.

(** The Point Correspondence Set invariant, for a whole collection: as many
    image sets as object sets, and set by set as many 2D as 3D points. *)
Definition sets_aligned (ip : list (list Point2f)) (op : list (list Point3f)) : Prop :=
  Forall2 (fun i o => length i = length o) ip op.

Definition well_formed (c : intrinsicCalibration) : Prop :=
  sets_aligned (imagePoints c) (objectPoints c).

(** ** Reference points of the two pattern kinds *)

(** [calcChessboardCorners]: rows outermost, [Point3f(j*squareSize,
    i*squareSize, 0)] with the [int] index converted to [float]. *)
Definition chessboardCorner (sq : spec_float) (i j : Z) : Point3f :=
  mkPoint3f (F32.mul (F32.of_int j) sq) (F32.mul (F32.of_int i) sq) (F32.of_int 0).

Definition calcChessboardCorners (s : Settings) (objectPointsBuf : list Point3f)
    : list Point3f :=
  fold_left
    (fun buf i => push_each (chessboardCorner (squareSize s) i)
                            (seqZ 0 (boardSize_width s)) buf)
    (seqZ 0 (boardSize_height s)) objectPointsBuf.

(** The search for a detected identity in a marker map: the index of the
    first entry with that identity, [None] for the source's [-1]. *)
Fixpoint findMarker (map : MarkerMap) (id : Z) (j : nat) : option nat :=
  match map with
  | [] => None
  | info :: rest => if (info_id info =? id)%Z then Some j else findMarker rest id (S j)
  end.

(** The four [push_back] pairs for one marker found in the map. *)
Definition pushCorners (m : Marker) (info : Marker3DInfo)
    (bufs : list Point2f * list Point3f) : outcome (list Point2f * list Point3f) :=
  foldM (fun '(ib, ob) j =>
           do c <- vec_index (marker_corners m) j;
           do o <- vec_index (info_points info) j;
           Ok (ib ++ [c], ob ++ [o]))
        [0; 1; 2; 3]%nat bufs.

(** [calcArucoCorners]: both buffers are cleared, then filled marker by
    marker; a detected marker that is not in the map contributes nothing. *)
Definition calcArucoCorners (markers_detected : list Marker) (map : MarkerMap)
    : outcome (list Point2f * list Point3f) :=
  foldM (fun bufs m =>
           match findMarker map (marker_id m) 0 with
           | Some markerIndex =>
               do info <- vec_index map markerIndex;
               pushCorners m info bufs
           | None => Ok bufs
           end)
        markers_detected ([], []).

(** [getIntPoints]: the plane label is [s.planeList[index]]. *)
Definition getIntPoints (s : Settings) (points : list Point3f) (index : nat)
    : outcome (list Point3f) :=
  do plane <- vec_index (planeList s) index;
  Ok (getIntPoints_plane plane points).

(** The corner [drawArucoMarkers] selects for a plane label. *)
Definition drawArucoMarkers_corner (plane : string) : Z :=
  if String.eqb plane "XY"%string then 0
  else if String.eqb plane "YZ"%string then 2
  else if String.eqb plane "XZ"%string then 3
  else 3.

(** ** The Stereo Point Matcher: [getSharedPoints] *)

(** [for (int i = 0; i < n; i++) body]: the counter takes the values
    [0 .. n-1], none when [n <= 0]. *)
Definition for_int {S : Type} (n : Z) (body : S -> nat -> outcome S) (s : S) : outcome S :=
  foldM body (seq 0 (Z.to_nat n)) s.

(** The inner scan [for (shared = 0; shared < (int)oPoints2->size(); shared++)
    if (p == oPoints2->at(shared)) break;] with [steps] iterations left; the
    result is the value of [shared] when the loop is left. *)
Fixpoint scanShared (p : Point3f) (oPoints2 : list Point3f) (steps shared : nat)
    : outcome nat :=
  match steps with
  | O => Ok shared
  | S steps' =>
      do q <- vec_at oPoints2 shared;
      if Point3f_eqb p q then Ok shared
      else scanShared p oPoints2 steps' (S shared)
  end.

Record sharedBufs := mkSharedBufs {
  sharedObjectPoints : list Point3f;
  sharedImagePoints : list Point2f;
  sharedImagePoints2 : list Point2f
}.

(** One iteration of the loop over [j]. *)
Definition sharedBody (oPoints oPoints2 : list Point3f) (iPoints iPoints2 : list Point2f)
    (bufs : sharedBufs) (j : nat) : outcome sharedBufs :=
  do p <- vec_at oPoints j;
  do shared <- scanShared p oPoints2 (Z.to_nat (int_of_size (length oPoints2))) 0;
  if (Z.of_nat shared =? int_of_size (length oPoints2))%Z then Ok bufs
  else
    do a <- vec_at iPoints j;
    do b <- vec_at iPoints2 shared;
    Ok (mkSharedBufs (sharedObjectPoints bufs ++ [p])
                     (sharedImagePoints bufs ++ [a])
                     (sharedImagePoints2 bufs ++ [b])).

(** The four assignments that end an iteration of the loop over the images:
    both calibrations receive the same object points. *)
Definition sharedUpdate (inCal inCal2 : intrinsicCalibration) (i : nat) (bufs : sharedBufs)
    : intrinsicCalibration * intrinsicCalibration :=
  (set_points inCal (<[i := sharedImagePoints bufs]> (imagePoints inCal))
                    (<[i := sharedObjectPoints bufs]> (objectPoints inCal)),
   set_points inCal2 (<[i := sharedImagePoints2 bufs]> (imagePoints inCal2))
                     (<[i := sharedObjectPoints bufs]> (objectPoints inCal2))).

(** One iteration of the loop over the images: the four vectors of image [i]
    are read, scanned, and overwritten in place. *)
Definition sharedStep (st : intrinsicCalibration * intrinsicCalibration) (i : nat)
    : outcome (intrinsicCalibration * intrinsicCalibration) :=
  let '(inCal, inCal2) := st in
  do oPoints <- vec_at (objectPoints inCal) i;
  do oPoints2 <- vec_at (objectPoints inCal2) i;
  do iPoints <- vec_at (imagePoints inCal) i;
  do iPoints2 <- vec_at (imagePoints inCal2) i;
  do bufs <- for_int (int_of_size (length oPoints))
                     (sharedBody oPoints oPoints2 iPoints iPoints2)
                     (mkSharedBufs [] [] []);
  Ok (sharedUpdate inCal inCal2 i bufs).

Definition getSharedPoints (inCal inCal2 : intrinsicCalibration)
    : outcome (intrinsicCalibration * intrinsicCalibration) :=
  for_int (int_of_size (length (objectPoints inCal))) sharedStep (inCal, inCal2).

(** Vector sizes that the [(int)] casts of the loops leave unchanged. *)
Definition fits_int (n : nat) : Prop := (Z.of_nat n < 2 ^ 31)%Z.

Definition collection_fits (c : intrinsicCalibration) : Prop :=
  fits_int (length (objectPoints c)) /\
  Forall (fun set => fits_int (length set)) (objectPoints c).

(** *** What the scan computes, by structural recursion (used in proofs) *)

(** Index of the first element of [l] that [p] equals. *)
Fixpoint firstShared (p : Point3f) (l : list Point3f) : option nat :=
  match l with
  | [] => None
  | q :: rest => if Point3f_eqb p q then Some O else S <$> firstShared p rest
  end.

(** The pairs [(j, shared)] at which the loop over [j] pushes, in order;
    [j] counts from [j0]. *)
Fixpoint sharedPairs (oPoints oPoints2 : list Point3f) (j0 : nat) : list (nat * nat) :=
  match oPoints with
  | [] => []
  | p :: rest =>
      match firstShared p oPoints2 with
      | Some shared => (j0, shared) :: sharedPairs rest oPoints2 (S j0)
      | None => sharedPairs rest oPoints2 (S j0)
      end
  end.

(** Presence of a 3D point in a set, under [operator==]. *)
Definition present (p : Point3f) (set : list Point3f) : bool :=
  existsb (Point3f_eqb p) set.

(** No coordinate of the point is NaN. *)
Definition no_nan (p : Point3f) : Prop :=
  is_nan (px p) = false /\ is_nan (py p) = false /\ is_nan (pz p) = false.

(** No two positions of the set hold equal points. *)
Definition distinct_points (set : list Point3f) : Prop :=
  forall j k p q, set !! j = Some p -> set !! k = Some q ->
                  Point3f_eqb p q = true -> j = k.

#[global] Instance Point2f_inhabited : Inhabited Point2f :=
  populate (mkPoint2f F32.zero F32.zero).
#[global] Instance Point3f_inhabited : Inhabited Point3f :=
  populate (mkPoint3f F32.zero F32.zero F32.zero).

(** The three vectors the loop over [j] builds from the sets of one image,
    read off the pairs at which it pushes. *)
Definition extendShared (oPoints : list Point3f) (iPoints iPoints2 : list Point2f)
    (bufs : sharedBufs) (pairs : list (nat * nat)) : sharedBufs :=
  mkSharedBufs
    (sharedObjectPoints bufs ++ ((fun js => oPoints !!! js.1) <$> pairs))
    (sharedImagePoints bufs ++ ((fun js => iPoints !!! js.1) <$> pairs))
    (sharedImagePoints2 bufs ++ ((fun js => iPoints2 !!! js.2) <$> pairs)).

Definition sharedAt (oPoints oPoints2 : list Point3f) (iPoints iPoints2 : list Point2f)
    : sharedBufs :=
  extendShared oPoints iPoints iPoints2 (mkSharedBufs [] [] [])
               (sharedPairs oPoints oPoints2 0).

(** The sets of one image pair are aligned and of sizes an [int] holds. *)
Definition row_ok (oa ob : list Point3f) (ia ib : list Point2f) : Prop :=
  length ia = length oa /\ length ib = length ob /\
  fits_int (length oa) /\ fits_int (length ob).

(** The lengths of the four collections. *)
Definition sizes (st : intrinsicCalibration * intrinsicCalibration) :=
  (length (objectPoints st.1), length (objectPoints st.2),
   length (imagePoints st.1), length (imagePoints st.2)).

(** Everything but the point collections is the same in [c] and [c']. *)
Definition same_intrinsics (c c' : intrinsicCalibration) : Prop :=
  c' = set_points c (imagePoints c') (objectPoints c').

(** The four sets of image [x] in a pair of calibrations. *)
Definition rows (st : intrinsicCalibration * intrinsicCalibration) (x : nat) :=
  (objectPoints st.1 !! x, objectPoints st.2 !! x,
   imagePoints st.1 !! x, imagePoints st.2 !! x).

(** ** Detection: [chessboardDetect], [arucoDetect] and the driver's loop *)

(** What the external detectors report for one image: whether
    [findChessboardCorners] found the board and the corners it returned (as
    refined by [cornerSubPix]), and the markers [MarkerDetector::detect]
    returns once set up for the [j]-th marker map. *)
Record detection := mkDetection {
  found : bool;
  corners : list Point2f;
  detectedMarkers : nat -> list Marker
}.

Definition chessboardDetect (s : Settings) (d : detection) (inCal : intrinsicCalibration)
    : intrinsicCalibration :=
  if found d then
    let imagePointsBuf := corners d in
    let objectPointsBuf := calcChessboardCorners s [] in
    set_points inCal (imagePoints inCal ++ [imagePointsBuf])
                     (objectPoints inCal ++ [objectPointsBuf])
  else inCal.

(** The body of [arucoDetect]'s loop over the marker maps, for map [j]; [vi]
    is the position of the image's sets, which the two pointers taken before
    the loop refer to. *)
Definition arucoConfig (s : Settings) (d : detection) (vi : nat)
    (inCal : intrinsicCalibration) (j : nat) : outcome intrinsicCalibration :=
  do MarkerMapConfig <- vec_index (configList s) j;
  do bufs <- calcArucoCorners (detectedMarkers d j) MarkerMapConfig;
  do objectPointsBuf <- getIntPoints s (snd bufs) j;
  let imagePointsBuf := fst bufs in
  if (0 <? length objectPointsBuf)%nat && negb (Mode_eqb (mode s) PREVIEW) then
    Ok (set_points inCal
          (alter (push_each id imagePointsBuf) vi (imagePoints inCal))
          (alter (push_each id objectPointsBuf) vi (objectPoints inCal)))
  else Ok inCal.

Definition arucoDetect (s : Settings) (d : detection) (inCal : intrinsicCalibration)
    (vectorIndex : Z) : outcome intrinsicCalibration :=
  do _ <- (if Mode_eqb (mode s) PREVIEW then Ok tt
           else do _ <- vec_at_int (imagePoints inCal) vectorIndex;
                do _ <- vec_at_int (objectPoints inCal) vectorIndex;
                Ok tt);
  for_int (nConfigs s) (arucoConfig s d (Z.to_nat vectorIndex)) inCal.

(** The state of [calibrateWithSettings]'s loop over the images:
    [currentInCal] points to [inCal] or to [inCal2]. *)
Record driverState := mkDriverState {
  dInCal : intrinsicCalibration;
  dInCal2 : intrinsicCalibration;
  currentIsSecond : bool;
  vectorIndex : Z
}.

(** The collections are sized beforehand for the ArUco patterns only. *)
Definition driverInit (s : Settings) : driverState :=
  let size := if Mode_eqb (mode s) STEREO then (nImages s ÷ 2)%Z else nImages s in
  let sized :=
    if Pattern_eqb (calibrationPattern s) CHESSBOARD then emptyCalibration
    else set_points emptyCalibration (replicate (Z.to_nat size) [])
                                     (replicate (Z.to_nat size) []) in
  mkDriverState sized sized false (-1).

(** One pass of the loop for an image that could be read. *)
Definition driverStep (s : Settings) (st : driverState) (i : nat) (d : detection)
    : outcome driverState :=
  let st1 :=
    if Nat.even i then mkDriverState (dInCal st) (dInCal2 st) false (vectorIndex st + 1)%Z
    else if Mode_eqb (mode s) STEREO
         then mkDriverState (dInCal st) (dInCal2 st) true (vectorIndex st)
         else mkDriverState (dInCal st) (dInCal2 st) (currentIsSecond st)
                            (vectorIndex st + 1)%Z in
  let current := if currentIsSecond st1 then dInCal2 st1 else dInCal st1 in
  do current' <-
     (if Pattern_eqb (calibrationPattern s) CHESSBOARD
      then Ok (chessboardDetect s d current)
      else arucoDetect s d current (vectorIndex st1));
  Ok (if currentIsSecond st1
      then mkDriverState (dInCal st1) current' true (vectorIndex st1)
      else mkDriverState current' (dInCal2 st1) false (vectorIndex st1)).

Fixpoint detectLoop (s : Settings) (images : list detection) (i : nat) (st : driverState)
    : outcome driverState :=
  match images with
  | [] => Ok st
  | d :: rest => do st' <- driverStep s st i d; detectLoop s rest (S i) st'
  end.

Definition detectAll (s : Settings) (images : list detection) : outcome driverState :=
  detectLoop s images 0 (driverInit s).

(** ** The error metric: [computeReprojectionErrors] *)

Section Solvers.

(** [norm(Mat(imagePoints), Mat(imagePoints2), CV_L2)] where [imagePoints2]
    is what [projectPoints] computes from the object points, the image's
    pose and the camera model: OpenCV code, a parameter here. *)
Variable reprojNorm :
  list Point3f -> Mat -> Mat -> Mat -> Mat -> list Point2f -> spec_float.

Record errState := mkErrState {
  errs : list spec_float;
  totalErr : spec_float;
  totalPoints : Z
}.

(** The residual norm [err] of image [i]. *)
Definition imageErr (inCal : intrinsicCalibration) (i : nat) : outcome spec_float :=
  do op <- vec_index (objectPoints inCal) i;
  do rv <- vec_index (rvecs inCal) i;
  do tv <- vec_index (tvecs inCal) i;
  do ip <- vec_index (imagePoints inCal) i;
  Ok (reprojNorm op rv tv (cameraMatrix inCal) (distCoeffs inCal) ip).

Definition errBody (inCal : intrinsicCalibration) (st : errState) (i : nat)
    : outcome errState :=
  do err <- imageErr inCal i;
  do op <- vec_index (objectPoints inCal) i;
  let n := int_of_size (length op) in
  Ok (mkErrState
        (<[i := double_to_float
                  (F64.sqrt (F64.div (F64.mul err err) (F64.of_int n)))]> (errs st))
        (F64.add (totalErr st) (F64.mul err err))
        (wrap32 (totalPoints st + n))).

(** The result is the calibration with its [reprojErrs] filled in, and the
    returned average. *)
Definition computeReprojectionErrors (inCal : intrinsicCalibration)
    : outcome (intrinsicCalibration * spec_float) :=
  let resized := resize (length (objectPoints inCal)) F32.zero (reprojErrs inCal) in
  do st <- for_int (int_of_size (length (objectPoints inCal))) (errBody inCal)
                   (mkErrState resized F64.zero 0);
  Ok (set_errors inCal (errs st) (totalAvgErr inCal),
      F64.sqrt (F64.div (totalErr st) (F64.of_int (totalPoints st)))).

(** ** The solve wrappers *)

(** Flag bits of OpenCV's calibration interface. *)
Definition CV_CALIB_USE_INTRINSIC_GUESS : Z := 1.
Definition CV_CALIB_FIX_INTRINSIC : Z := 256.
Definition CALIB_ZERO_DISPARITY : Z := 1024.

(** The arguments of one [calibrateCamera] call; the camera matrix and the
    distortion coefficients are read as the seed and overwritten. *)
Record calibrateArgs := mkCalibrateArgs {
  ca_objectPoints : list (list Point3f);
  ca_imagePoints : list (list Point2f);
  ca_imageSize : Z * Z;
  ca_cameraMatrix : Mat;
  ca_distCoeffs : Mat;
  ca_flags : Z
}.

(** The arguments of the [stereoCalibrate] call; the termination criterion
    is the iteration bound and the decimal exponent of the tolerance. *)
Record stereoArgs := mkStereoArgs {
  sa_objectPoints : list (list Point3f);
  sa_imagePoints1 : list (list Point2f);
  sa_imagePoints2 : list (list Point2f);
  sa_cameraMatrix1 : Mat;
  sa_distCoeffs1 : Mat;
  sa_cameraMatrix2 : Mat;
  sa_distCoeffs2 : Mat;
  sa_imageSize : Z * Z;
  sa_maxIter : Z;
  sa_epsExp10 : Z;
  sa_flags : Z
}.

Record rectifyArgs := mkRectifyArgs {
  ra_cameraMatrix1 : Mat;
  ra_distCoeffs1 : Mat;
  ra_cameraMatrix2 : Mat;
  ra_distCoeffs2 : Mat;
  ra_imageSize : Z * Z;
  ra_R : Mat;
  ra_T : Mat;
  ra_flags : Z;
  ra_alpha : Z
}.

(** The external solvers: [calibrateCamera] returns the camera matrix, the
    distortion coefficients and the per-image poses; [stereoCalibrate]
    returns R, T, E, F and the RMS error; [stereoRectify] returns R1, R2,
    P1, P2, Q and the two valid regions; [checkRange] tells whether every
    element of a matrix is finite and in range. *)
Variable calibrateCamera : calibrateArgs -> Mat * Mat * list Mat * list Mat.
Variable stereoCalibrate : stereoArgs -> Mat * Mat * Mat * Mat * spec_float.
Variable stereoRectify :
  rectifyArgs -> Mat * Mat * Mat * Mat * Mat * list (Z * Z * Z * Z).
Variable checkRange : Mat -> bool.

(** [Mat::eye(3, 3, CV_64F)] and [Mat::zeros(8, 1, CV_64F)]. *)
Definition eye3 : Mat :=
  [[F64.one; F64.zero; F64.zero];
   [F64.zero; F64.one; F64.zero];
   [F64.zero; F64.zero; F64.one]].
Definition zeros8x1 : Mat := replicate 8 [F64.zero].

(** The [calibrateCamera] call [runIntrinsicCalibration] makes. *)
Definition intrinsicCall (s : Settings) (inCal : intrinsicCalibration) : calibrateArgs :=
  if useIntrinsicInput s then
    let inCal1 := set_intrinsics inCal (cameraMatrix (intrinsicInput s))
                                       (distCoeffs (intrinsicInput s)) in
    mkCalibrateArgs (objectPoints inCal1) (imagePoints inCal1) (imageSize s)
                    (cameraMatrix inCal1) (distCoeffs inCal1)
                    (Z.lor (flag s) CV_CALIB_USE_INTRINSIC_GUESS)
  else
    let inCal1 := set_intrinsics inCal eye3 zeros8x1 in
    mkCalibrateArgs (objectPoints inCal1) (imagePoints inCal1) (imageSize s)
                    (cameraMatrix inCal1) (distCoeffs inCal1)
                    (flag s).

(** [runIntrinsicCalibration]: the success flag, the calibration after the
    solve, and the solver call that was made. *)
Definition runIntrinsicCalibration (s : Settings) (inCal : intrinsicCalibration)
    : outcome (bool * intrinsicCalibration * calibrateArgs) :=
  let call := intrinsicCall s inCal in
  let '(cm, dc, rv, tv) := calibrateCamera call in
  let inCal1 := set_solution inCal cm dc rv tv in
  let ok := checkRange (cameraMatrix inCal1) && checkRange (distCoeffs inCal1) in
  do r <- computeReprojectionErrors inCal1;
  Ok (ok, set_errors (fst r) (reprojErrs (fst r)) (snd r), call).

(** [runStereoCalibration] up to the rectification parameters (showing and
    saving the rectified images is not modelled): the two calibrations as
    the function leaves them, the stereo parameters, and the
    [stereoCalibrate] call that was made. With [CV_CALIB_FIX_INTRINSIC]
    the solver leaves the four intrinsic matrices as they are. *)
Definition runStereoCalibration (s : Settings) (inCal inCal2 : intrinsicCalibration)
    : outcome (intrinsicCalibration * intrinsicCalibration *
               stereoCalibration * stereoArgs) :=
  let inCalA :=
    if useIntrinsicInput s
    then set_intrinsics inCal (cameraMatrix (intrinsicInput s))
                              (distCoeffs (intrinsicInput s))
    else inCal in
  let inCalB :=
    if useIntrinsicInput s
    then set_intrinsics inCal2 (cameraMatrix (intrinsicInput s))
                               (distCoeffs (intrinsicInput s))
    else inCal2 in
  do shared <-
     (if negb (Pattern_eqb (calibrationPattern s) CHESSBOARD)
      then getSharedPoints inCalA inCalB
      else Ok (inCalA, inCalB));
  let '(inCalA', inCalB') := shared in
  let call :=
    mkStereoArgs (objectPoints inCalA') (imagePoints inCalA') (imagePoints inCalB')
                 (cameraMatrix inCalA') (distCoeffs inCalA')
                 (cameraMatrix inCalB') (distCoeffs inCalB')
                 (imageSize s) 1000 (-10) CV_CALIB_FIX_INTRINSIC in
  let '(R, T, E, F, err) := stereoCalibrate call in
  let '(R1, R2, P1, P2, Q, rois) :=
    stereoRectify
      (mkRectifyArgs (cameraMatrix inCalA') (distCoeffs inCalA')
                     (cameraMatrix inCalB') (distCoeffs inCalB')
                     (imageSize s) R T CALIB_ZERO_DISPARITY 1) in
  Ok (inCalA', inCalB', mkStereoCalibration R T E F R1 R2 P1 P2 Q rois, call).

End Solvers.

(** ** Conditions and auxiliary notions of the statements *)

(** The hypotheses under which no [at] of [getSharedPoints] throws: the two
    collections hold as many images, each satisfies the invariant of its
    sets, and their sizes are within [int]. *)
Definition matchable (A B : intrinsicCalibration) : Prop :=
  length (objectPoints A) = length (objectPoints B) /\
  well_formed A /\ well_formed B /\ collection_fits A /\ collection_fits B.

(** Markers and map entries that hold (at least) their four corners. *)
Definition four_corners (m : Marker) : Prop := (4 <= length (marker_corners m))%nat.
Definition four_points (info : Marker3DInfo) : Prop := (4 <= length (info_points info))%nat.

(** No detected marker belongs to the map. *)
Definition no_known_marker (markers : list Marker) (map : MarkerMap) : Prop :=
  Forall (fun m => findMarker map (marker_id m) 0 = None) markers.

(** What [arucoDetect] relies on without checking: outside preview mode the
    image's sets exist at [vectorIndex]; there is a marker map and a plane
    label for each of the [nConfigs] passes; markers and map entries hold
    their four corners. *)
Definition aruco_ready (s : Settings) (d : detection) (inCal : intrinsicCalibration)
    (vi : Z) : Prop :=
  (mode s <> PREVIEW ->
   (0 <= vi < Z.of_nat (length (imagePoints inCal)))%Z /\
   (vi < Z.of_nat (length (objectPoints inCal)))%Z) /\
  (Z.to_nat (nConfigs s) <= length (configList s))%nat /\
  (Z.to_nat (nConfigs s) <= length (planeList s))%nat /\
  Forall (Forall four_points) (configList s) /\
  forall j, Forall four_corners (detectedMarkers d j).

(** The contract of [findChessboardCorners]: a board that is found comes
    with all its inner corners. *)
Definition chessboard_contract (s : Settings) (d : detection) : Prop :=
  found d = true ->
  length (corners d) =
  (Z.to_nat (boardSize_height s) * Z.to_nat (boardSize_width s))%nat.

(** What [arucoDetect]'s loop maintains, relative to the calibration it
    started from: the sets stay aligned, only the point collections change,
    and in them only the sets at [vi]. *)
Definition aruco_inv (inCal : intrinsicCalibration) (vi : nat) (c : intrinsicCalibration)
    : Prop :=
  well_formed c /\ same_intrinsics inCal c /\
  length (imagePoints c) = length (imagePoints inCal) /\
  forall x, x <> vi ->
    imagePoints c !! x = imagePoints inCal !! x /\
    objectPoints c !! x = objectPoints inCal !! x.

(** A value other than NaN with the sign bit [sx]. *)
Definition signed (sx : bool) (x : spec_float) : Prop :=
  match x with
  | S754_nan => False
  | S754_zero s | S754_infinity s | S754_finite s _ _ => s = sx
  end.

(** What the error loop computes, by structural recursion. *)

Section ErrorSpec.
Variable reprojNorm :
  list Point3f -> Mat -> Mat -> Mat -> Mat -> list Point2f -> spec_float.
Variable inCal : intrinsicCalibration.

(** The residual norm [err] of image [i], whose object points are [op]. *)
Definition residual (i : nat) (op : list Point3f) : spec_float :=
  reprojNorm op (rvecs inCal !!! i) (tvecs inCal !!! i)
             (cameraMatrix inCal) (distCoeffs inCal) (imagePoints inCal !!! i).

(** [sqrt(err*err/n)], stored as a [float]. *)
Definition perImage (err : spec_float) (n : nat) : spec_float :=
  double_to_float
    (F64.sqrt (F64.div (F64.mul err err) (F64.of_int (Z.of_nat n)))).

Fixpoint perImageFrom (i : nat) (sets : list (list Point3f)) : list spec_float :=
  match sets with
  | [] => []
  | op :: rest => perImage (residual i op) (length op) :: perImageFrom (S i) rest
  end.

(** The running sum of the squared norms, from [acc]. *)
Fixpoint sumSquaresFrom (i : nat) (sets : list (list Point3f)) (acc : spec_float)
    : spec_float :=
  match sets with
  | [] => acc
  | op :: rest =>
      sumSquaresFrom (S i) rest
        (F64.add acc (F64.mul (residual i op) (residual i op)))
  end.

End ErrorSpec.

(** The number of points of all images. *)
Definition totalCount (sets : list (list Point3f)) : nat :=
  sum_list (length <$> sets).

(** What [computeReprojectionErrors] relies on without checking: a pose and
    an image set for every object set, and counts an [int] holds. *)
Definition reproj_ready (inCal : intrinsicCalibration) : Prop :=
  (length (objectPoints inCal) <= length (rvecs inCal))%nat /\
  (length (objectPoints inCal) <= length (tvecs inCal))%nat /\
  (length (objectPoints inCal) <= length (imagePoints inCal))%nat /\
  fits_int (length (objectPoints inCal)) /\
  fits_int (totalCount (objectPoints inCal)).

(** The three labels the [switch] of [getIntPoints] knows. *)
Definition known_plane (plane : string) : Prop :=
  plane = "XY"%string \/ plane = "YZ"%string \/ plane = "XZ"%string.

(** [(v + 1000) / 125] in [float] arithmetic. *)
Definition shifted (v : spec_float) : spec_float :=
  F32.div (F32.add v (F32.of_int 1000)) (F32.of_int 125).

(** The positions the driver assigns to the images. *)

Definition stereo (s : Settings) : bool := Mode_eqb (mode s) STEREO.

(** The number of sets the driver allocates per camera. *)
Definition driverSize (s : Settings) : nat :=
  Z.to_nat (if stereo s then (nImages s ÷ 2)%Z else nImages s).

(** Image [i] goes to the second camera in a stereo run when [i] is odd, and
    to position [i/2] in a stereo run, [i] otherwise. *)
Definition slotCamera (s : Settings) (i : nat) : bool := stereo s && Nat.odd i.
Definition slotIndex (s : Settings) (i : nat) : nat :=
  if stereo s then (i / 2)%nat else i.

Definition camera (st : driverState) (second : bool) : intrinsicCalibration :=
  if second then dInCal2 st else dInCal st.

(** No marker detected in the image belongs to the map it was detected for. *)
Definition aruco_miss (s : Settings) (d : detection) : Prop :=
  forall j map, configList s !! j = Some map ->
                no_known_marker (detectedMarkers d j) map.

(** Both sets at position [k] are empty. *)
Definition slot_empty (c : intrinsicCalibration) (k : nat) : Prop :=
  imagePoints c !! k = Some [] /\ objectPoints c !! k = Some [].

(** The value of [vectorIndex] when image [i] is about to be processed. *)
Definition indexBefore (s : Settings) (i : nat) : Z :=
  if stereo s then ((Z.of_nat i - 1) / 2)%Z else (Z.of_nat i - 1)%Z.

(** What the detection pass of an ArUco run maintains, [i] images of
    [images] having been processed. *)
Definition driver_inv (s : Settings) (images : list detection) (i : nat)
    (st : driverState) : Prop :=
  vectorIndex st = indexBefore s i /\
  (stereo s = false -> currentIsSecond st = false) /\
  (forall b, length (imagePoints (camera st b)) = driverSize s /\
             well_formed (camera st b)) /\
  (forall i', (i <= i')%nat -> (slotIndex s i' < driverSize s)%nat ->
              slot_empty (camera st (slotCamera s i')) (slotIndex s i')) /\
  (forall i' d, (i' < i)%nat -> images !! i' = Some d -> aruco_miss s d ->
                slot_empty (camera st (slotCamera s i')) (slotIndex s i')).

(** The state after the detection of an image that went to camera [b] at
    position [k] and left that camera's calibration as [c]. *)
Definition driverAfter (st : driverState) (b : bool) (k : nat) (c : intrinsicCalibration)
    : driverState :=
  if b then mkDriverState (dInCal st) c true (Z.of_nat k)
  else mkDriverState c (dInCal2 st) false (Z.of_nat k).

(** ** Concrete inputs for the examples *)

Definition P3 (x y z : Z) : Point3f := Point3f_of_ints x y z.
Definition P2 (x y : Z) : Point2f := mkPoint2f (F32.of_int x) (F32.of_int y).

Definition calibrationOf (ip : list (list Point2f)) (op : list (list Point3f))
    : intrinsicCalibration :=
  set_points emptyCalibration ip op.

(** One image pair: camera A sees the points of markers 1, 2, 3 and camera B
    those of markers 2, 3, 4, at the same unified positions. *)
Definition exA : intrinsicCalibration :=
  calibrationOf [[P2 10 10; P2 20 20; P2 30 30]] [[P3 1 0 0; P3 2 0 0; P3 3 0 0]].
Definition exB : intrinsicCalibration :=
  calibrationOf [[P2 21 21; P2 31 31; P2 41 41]] [[P3 2 0 0; P3 3 0 0; P3 4 0 0]].

(** A set that holds the same object point twice, with two image points. *)
Definition exDup : intrinsicCalibration :=
  calibrationOf [[P2 1 1; P2 2 2]] [[P3 1 0 0; P3 1 0 0]].
(** A set that holds that object point once. *)
Definition exOnce : intrinsicCalibration :=
  calibrationOf [[P2 7 7]] [[P3 1 0 0]].
(** A set whose only object point has a NaN coordinate. *)
Definition exNaN : intrinsicCalibration :=
  calibrationOf [[P2 1 1]] [[mkPoint3f S754_nan F32.zero F32.zero]].

(** An ArUco box rig with one marker per plane. *)
Definition exMap (id : Z) : MarkerMap :=
  [mkMarker3DInfo id [P3 0 0 0; P3 125 0 0; P3 125 125 0; P3 0 125 0]].
Definition exMarker (id : Z) : Marker :=
  mkMarker id [P2 100 100; P2 200 100; P2 200 200; P2 100 200].

Definition exSettings (m : Mode) (p : Pattern) (planes : list string) (n : Z)
    (prior : bool) : Settings :=
  mkSettings m p 2 2 (F32.of_int 1)
             [exMap 0; exMap 1; exMap 2] planes 3 n (640, 480)%Z
             prior (set_intrinsics emptyCalibration [[F64.of_int 500]] [[F64.of_int 0]]) 0.

Definition exBox : Settings :=
  exSettings INTRINSIC ARUCO_BOX ["XY"; "YZ"; "XZ"]%string 1 true.
Definition exBadPlane : Settings :=
  exSettings INTRINSIC ARUCO_BOX ["AB"; "YZ"; "XZ"]%string 1 true.
Definition exChess : Settings :=
  exSettings INTRINSIC CHESSBOARD [] 1 false.
Definition exChessStereo : Settings :=
  exSettings STEREO CHESSBOARD [] 4 false.

(** An image with the chessboard found and marker [j] seen for map [j]; an
    image with nothing found. *)
Definition exHit : detection :=
  mkDetection true [P2 1 1; P2 2 1; P2 1 2; P2 2 2] (fun j => [exMarker (Z.of_nat j)]).
Definition exMiss : detection := mkDetection false [] (fun _ => []).

(** A calibration sized for one image, as the driver prepares it. *)
Definition exSized : intrinsicCalibration := calibrationOf [[]] [[]].

(** Stand-ins for the external routines. *)
Definition exNorm (op : list Point3f) (_ _ _ _ : Mat) (_ : list Point2f) : spec_float :=
  F64.of_int (Z.of_nat (length op) - 1).
Definition exCalibrateCamera (a : calibrateArgs) : Mat * Mat * list Mat * list Mat :=
  (ca_cameraMatrix a, ca_distCoeffs a,
   replicate (length (ca_objectPoints a)) [], replicate (length (ca_objectPoints a)) []).
Definition exStereoCalibrate (a : stereoArgs) : Mat * Mat * Mat * Mat * spec_float :=
  ([], [], [], [], F64.zero).
Definition exStereoRectify (a : rectifyArgs)
    : Mat * Mat * Mat * Mat * Mat * list (Z * Z * Z * Z) :=
  ([], [], [], [], [], []).
Definition exCheckRange (m : Mat) : bool := true.

(** Two images, of one and of four points, with their poses. *)
Definition exSolved : intrinsicCalibration :=
  set_solution
    (calibrationOf [[P2 1 1]; [P2 1 1; P2 2 1; P2 1 2; P2 2 2]]
                   [[P3 0 0 0]; [P3 0 0 0; P3 1 0 0; P3 0 1 0; P3 1 1 0]])
    [] [] [[]; []] [[]; []].
(** One image without any point, with its pose. *)
Definition exNoPoints : intrinsicCalibration :=
  set_solution (calibrationOf [[]] [[]]) [] [] [[]] [[]].

(** The hypotheses under which [getSharedPoints] reaches the end of the first
    camera's collection: the second camera holds at least as many sets. *)
Definition matchable_prefix (A B : intrinsicCalibration) : Prop :=
  (length (objectPoints A) <= length (objectPoints B))%nat /\
  well_formed A /\ well_formed B /\ collection_fits A /\ collection_fits B.

(** Camera B after a third image that camera A does not have. *)
Definition exB2 : intrinsicCalibration :=
  calibrationOf [[P2 21 21; P2 31 31; P2 41 41]; [P2 5 5]]
                [[P3 2 0 0; P3 3 0 0; P3 4 0 0]; [P3 9 9 9]].

(** The first entry of a marker map that carries the identity [id]. *)
Definition mapEntry (map : MarkerMap) (id : Z) : option Marker3DInfo :=
  head (filter (fun info => info_id info = id) map).

(** The detected markers that belong to the map, in detection order, each
    with its map entry. *)
Definition knownMarkers (markers : list Marker) (map : MarkerMap)
    : list (Marker * Marker3DInfo) :=
  omap (fun m => info ← mapEntry map (marker_id m); Some (m, info)) markers.

(** A map in which two entries carry the identity 7. *)
Definition exMapTwice : MarkerMap :=
  [mkMarker3DInfo 5 [P3 0 0 0; P3 1 0 0; P3 1 1 0; P3 0 1 0];
   mkMarker3DInfo 7 [P3 2 0 0; P3 3 0 0; P3 3 1 0; P3 2 1 0];
   mkMarker3DInfo 7 [P3 4 0 0; P3 5 0 0; P3 5 1 0; P3 4 1 0]].

(** The calibration with [ai] and [ao] appended to the two sets at position
    [vi]; nothing changes when there is no such position. *)
Definition appendAt (c : intrinsicCalibration) (vi : nat)
    (ai : list Point2f) (ao : list Point3f) : intrinsicCalibration :=
  set_points c (alter (fun set => set ++ ai) vi (imagePoints c))
               (alter (fun set => set ++ ao) vi (objectPoints c)).

(** The position exists in both collections of the calibration. *)
Definition index_in_range (inCal : intrinsicCalibration) (vi : Z) : Prop :=
  (0 <= vi < Z.of_nat (length (imagePoints inCal)))%Z /\
  (vi < Z.of_nat (length (objectPoints inCal)))%Z.

(** A calibration sized for two images, the first of which holds a point. *)
Definition exSized2 : intrinsicCalibration :=
  calibrationOf [[P2 1 1]; []] [[P3 1 1 0]; []].

(** The images the driver hands to camera [b], in order; the images of the
    list are numbered from [i]. *)
Fixpoint imagesOf (s : Settings) (b : bool) (images : list detection) (i : nat)
    : list detection :=
  match images with
  | [] => []
  | d :: rest =>
      if Bool.eqb (slotCamera s i) b then d :: imagesOf s b rest (S i)
      else imagesOf s b rest (S i)
  end.

(** The images in which the chessboard was found. *)
Definition foundImages (images : list detection) : list detection :=
  filter (fun d => found d = true) images.

(** What the loop over the images maintains about its two variables. *)
Definition driver_pos (s : Settings) (i : nat) (st : driverState) : Prop :=
  vectorIndex st = indexBefore s i /\
  (stereo s = false -> currentIsSecond st = false).

(** What the detection pass of a chessboard run maintains, [i] images having
    been processed. *)
Definition chess_inv (s : Settings) (images : list detection) (i : nat)
    (st : driverState) : Prop :=
  driver_pos s i st /\
  forall b,
    imagePoints (camera st b) =
      corners <$> foundImages (imagesOf s b (take i images) 0) /\
    objectPoints (camera st b) =
      (fun _ => calcChessboardCorners s []) <$> foundImages (imagesOf s b (take i images) 0).

(** The sets at the position of image [i'] hold what [arucoDetect] yields
    for the image [d] alone, on a calibration sized for one image. *)
Definition holds_detection (s : Settings) (st : driverState) (i' : nat) (d : detection)
    : Prop :=
  exists ai ao,
    arucoDetect s d (calibrationOf [[]] [[]]) 0 = Ok (calibrationOf [ai] [ao]) /\
    imagePoints (camera st (slotCamera s i')) !! slotIndex s i' = Some ai /\
    objectPoints (camera st (slotCamera s i')) !! slotIndex s i' = Some ao.

(** What the detection pass of an ArUco run maintains outside preview mode. *)
Definition aruco_sets_inv (s : Settings) (images : list detection) (i : nat)
    (st : driverState) : Prop :=
  driver_pos s i st /\
  (forall b, length (imagePoints (camera st b)) = driverSize s /\
             length (objectPoints (camera st b)) = driverSize s) /\
  (forall i', (i <= i')%nat -> (slotIndex s i' < driverSize s)%nat ->
              slot_empty (camera st (slotCamera s i')) (slotIndex s i')) /\
  (forall i' d, (i' < i)%nat -> images !! i' = Some d -> holds_detection s st i' d).

(** An image with the chessboard found, with other corners than [exHit]. *)
Definition exHit2 : detection :=
  mkDetection true [P2 5 5; P2 6 5; P2 5 6; P2 6 6] (fun j => [exMarker (Z.of_nat j)]).

(** ** Reading the settings: [Settings::interprate]

    The members of [Settings] that the detection and the solvers do not
    read: the texts [read] takes from the settings file, the image list, and
    the validity flag. *)
Record SettingsInput := mkSettingsInput {
  modeInput : string;
  patternInput : string;
  cameraIDInput : string;
  imageListFilename : string;
  configListFilename : string;
  intrinsicInputFilename : string;
  fixDistCoeffs : string;
  aspectRatio : spec_float;
  assumeZeroTangentDist : bool;
  fixPrincipalPoint : bool;
  imageList : list string;
  goodInput : bool
}.

(** What is outside the program: the content of the three files, by file
    name ([None] when [FileStorage] cannot open the file or, for the image
    list, when its first node is no sequence; the config list comes as its
    [Marker_Size], its marker maps and its plane labels), and whether the
    capture, closed before, is open once [capture.open] has been called for
    a camera id. *)
Record fileIO := mkFileIO {
  imageListFile : string -> option (list string);
  configListFile : string -> option (spec_float * list MarkerMap * list string);
  intrinsicInputFile : string -> option (Mat * Mat);
  captureOpens : string -> bool
}.

(** Flag bits of OpenCV's calibration interface that [interprate] sets. *)
Definition CV_CALIB_FIX_ASPECT_RATIO : Z := 2.
Definition CV_CALIB_FIX_PRINCIPAL_POINT : Z := 4.
Definition CV_CALIB_ZERO_TANGENT_DIST : Z := 8.
Definition CV_CALIB_FIX_K1 : Z := 32.
Definition CV_CALIB_FIX_K2 : Z := 64.
Definition CV_CALIB_FIX_K3 : Z := 128.
Definition CV_CALIB_FIX_K4 : Z := 2048.
Definition CV_CALIB_FIX_K5 : Z := 4096.

(** The value of a [char] (signed, as on the usual targets). *)
Definition char_value (c : Ascii.ascii) : Z :=
  let n := Z.of_nat (Ascii.nat_of_ascii c) in
  if (n <? 128)%Z then n else (n - 256)%Z.

(** [str[i]] of a [std::string]: the character at [i], the terminating null
    character at [i = size()], undefined behaviour beyond. *)
Definition string_index (str : string) (i : nat) : outcome Ascii.ascii :=
  match String.get i str with
  | Some c => Ok c
  | None => if (i =? String.length str)%nat then Ok Ascii.zero
            else Throw undefined_behaviour
  end.

(** The promotion of a [float] to [double], which is exact. *)
Definition float_to_double (x : spec_float) : spec_float :=
  match x with
  | S754_finite s m e =>
      binary_normalize F64.prec F64.emax (if s then Z.neg m else Z.pos m) e s
  | _ => x
  end.

(** The [double] literal [10e-6]. *)
Definition ten_e_minus_6 : spec_float := S754_finite false 5902958103587057 (-69).

(** A [float] used as a condition: true unless it compares equal to zero. *)
Definition float_true (x : spec_float) : bool := negb (is_zero x).

(** One pass of the loop over the five digits of [fixDistCoeffs]. *)
Definition fixBody (str : string) (flag : Z) (i : nat) : outcome Z :=
  do c <- string_index str i;
  let digit := (char_value c - char_value (Ascii.ascii_of_nat 48))%Z in
  let shift := if (3 <=? i)%nat then (Z.of_nat i + 3)%Z else Z.of_nat i in
  Ok (if (digit =? 0)%Z then flag else Z.lor flag (Z.shiftl CV_CALIB_FIX_K1 shift)).

(** The last part of [interprate]: the calibration flag. *)
Definition interprate_flag (r : SettingsInput) : outcome Z :=
  do flag <- foldM (fixBody (fixDistCoeffs r)) [0; 1; 2; 3; 4]%nat 0%Z;
  let flag := if fixPrincipalPoint r then Z.lor flag CV_CALIB_FIX_PRINCIPAL_POINT else flag in
  let flag := if assumeZeroTangentDist r then Z.lor flag CV_CALIB_ZERO_TANGENT_DIST else flag in
  let flag := if float_true (aspectRatio r) then Z.lor flag CV_CALIB_FIX_ASPECT_RATIO else flag in
  Ok flag.

(** [readImageList]: the list is cleared first. *)
Definition readImageList (io : fileIO) (filename : string) : list string * bool :=
  match imageListFile io filename with
  | Some l => (l, true)
  | None => ([], false)
  end.

(** [interprate]; [s] and [r] are the object as [read] has filled it in, the
    members [read] does not assign being as they were. *)
Definition interprate (io : fileIO) (s : Settings) (r : SettingsInput)
    : outcome (Settings * SettingsInput) :=
  let goodInput := true in
  let mode := INVALID in
  let mode := if String.eqb (modeInput r) "INTRINSIC" then INTRINSIC else mode in
  let mode := if String.eqb (modeInput r) "STEREO" then STEREO else mode in
  let mode := if String.eqb (modeInput r) "PREVIEW" then PREVIEW else mode in
  let goodInput := if Mode_eqb mode INVALID then false else goodInput in
  let calibrationPattern := NOT_EXISTING in
  let calibrationPattern :=
    if String.eqb (patternInput r) "CHESSBOARD" then CHESSBOARD else calibrationPattern in
  let calibrationPattern :=
    if String.eqb (patternInput r) "ARUCO_SINGLE" then ARUCO_SINGLE else calibrationPattern in
  let calibrationPattern :=
    if String.eqb (patternInput r) "ARUCO_BOX" then ARUCO_BOX else calibrationPattern in
  let goodInput := if Pattern_eqb calibrationPattern NOT_EXISTING then false else goodInput in
  let goodInput :=
    if (boardSize_width s <=? 0)%Z || (boardSize_height s <=? 0)%Z then false
    else goodInput in
  let goodInput :=
    if F64.leb (float_to_double (squareSize s)) ten_e_minus_6 then false else goodInput in
  let '(imageList, nImages, goodInput) :=
    if Mode_eqb mode PREVIEW then
      let c := match String.get 0 (cameraIDInput r) with
               | Some c => c | None => Ascii.zero end in
      let opened :=
        if (char_value (Ascii.ascii_of_nat 48) <=? char_value c)%Z
           && (char_value c <=? char_value (Ascii.ascii_of_nat 57))%Z
        then captureOpens io (cameraIDInput r) else false in
      (imageList r, nImages s, if opened then goodInput else false)
    else
      let '(imageList, ok) := readImageList io (imageListFilename r) in
      if ok then
        let nImages := int_of_size (length imageList) in
        (imageList, nImages,
         if Mode_eqb mode STEREO && negb (Z.rem nImages 2 =? 0)%Z then false
         else goodInput)
      else (imageList, nImages s, false) in
  let '(squareSize, configList, planeList, nConfigs, goodInput) :=
    if negb (Pattern_eqb calibrationPattern CHESSBOARD) then
      match configListFile io (configListFilename r) with
      | Some (markerSize, configs, planes) =>
          let nConfigs := int_of_size (length configs) in
          (markerSize, configs, planeList s ++ planes, nConfigs,
           if Pattern_eqb calibrationPattern ARUCO_SINGLE && negb (nConfigs =? 1)%Z
           then false
           else if Pattern_eqb calibrationPattern ARUCO_BOX && negb (nConfigs =? 3)%Z
           then false
           else goodInput)
      | None => (squareSize s, [], planeList s, nConfigs s, false)
      end
    else (squareSize s, configList s, planeList s, nConfigs s, goodInput) in
  let '(useIntrinsicInput, intrinsicInput, goodInput) :=
    match intrinsicInputFile io (intrinsicInputFilename r) with
    | Some (cm, dc) => (true, set_intrinsics (intrinsicInput s) cm dc, goodInput)
    | None =>
        (false, intrinsicInput s,
         if Pattern_eqb calibrationPattern ARUCO_BOX then false else goodInput)
    end in
  do flag <- interprate_flag r;
  Ok (mkSettings mode calibrationPattern (boardSize_width s) (boardSize_height s)
                 squareSize configList planeList nConfigs nImages (imageSize s)
                 useIntrinsicInput intrinsicInput flag,
      mkSettingsInput (modeInput r) (patternInput r) (cameraIDInput r)
                      (imageListFilename r) (configListFilename r)
                      (intrinsicInputFilename r) (fixDistCoeffs r) (aspectRatio r)
                      (assumeZeroTangentDist r) (fixPrincipalPoint r)
                      imageList goodInput).

(** Whether the digit at position [i] of the text asks to fix a coefficient:
    any character but ['0'] does, also the terminating null character. *)
Definition fixes (str : string) (i : nat) : bool :=
  match String.get i str with
  | Some c => negb (Ascii.eqb c (Ascii.ascii_of_nat 48))
  | None => true
  end.

(** A settings file for the box rig, and the files it names. *)
Definition exInput : SettingsInput :=
  mkSettingsInput "STEREO" "ARUCO_BOX" "0" "images.xml" "configs.yml" "intrinsics.yml"
                  "00111" (S754_zero false) true false [] false.
Definition exIO : fileIO :=
  mkFileIO (fun _ => Some ["l0.png"; "r0.png"; "l1.png"; "r1.png"]%string)
           (fun _ => Some (F32.of_int 50, [exMap 0; exMap 1; exMap 2],
                           ["XY"; "YZ"; "XZ"]%string))
           (fun _ => Some ([[F64.of_int 500]], [[F64.of_int 0]]))
           (fun _ => false).
(** The object before [interprate]: the board and square sizes are read
    from the settings file, the rest is as constructed. *)
Definition exFresh : Settings :=
  mkSettings INVALID NOT_EXISTING 9 6 (F32.of_int 25) [] [] 0 0 (0, 0)%Z
             false emptyCalibration 0.

(** Identity of two floating-point values (bit for bit, unlike [==]). *)
Definition same_float (x y : spec_float) : bool :=
  match x, y with
  | S754_zero s, S754_zero s' | S754_infinity s, S754_infinity s' => Bool.eqb s s'
  | S754_nan, S754_nan => true
  | S754_finite s m e, S754_finite s' m' e' =>
      Bool.eqb s s' && (m =? m')%positive && (e =? e')%Z
  | _, _ => false
  end.

(** The coordinate of the marker-map frame that lies [m] steps of 125 from
    the corner at -1000, and its mirror image. *)
Definition latticeCoord (m : Z) : spec_float := F32.of_int (125 * m - 1000).
Definition mirrorCoord (m : Z) : spec_float := F32.of_int (1000 - 125 * m).

(** Both ways to unify a lattice coordinate give the integer [m], exactly. *)
Definition lattice_exact (m : Z) : bool :=
  same_float (shifted (latticeCoord m)) (F32.of_int m)
  && same_float (shifted (F32.opp (mirrorCoord m))) (F32.of_int m).

(** ** Running and saving: [runCalibrationAndSave] *)

(** The calls of the functions that show and write results. *)
Inductive saveEvent :=
  | UndistortImages (inCal : intrinsicCalibration)
  | SaveIntrinsics (inCal : intrinsicCalibration)
  | SaveExtrinsics (sterCal : stereoCalibration).

(** What a run leaves: the two calibrations, the [calibrateCamera] and
    [stereoCalibrate] calls that were made, and the calls that show and
    write results, each in order. *)
Record runTrace := mkRunTrace {
  runInCal : intrinsicCalibration;
  runInCal2 : intrinsicCalibration;
  calibrateCalls : list calibrateArgs;
  stereoCalls : list stereoArgs;
  saveEvents : list saveEvent
}.

Section Running.
Variable reprojNorm :
  list Point3f -> Mat -> Mat -> Mat -> Mat -> list Point2f -> spec_float.
Variable calibrateCamera : calibrateArgs -> Mat * Mat * list Mat * list Mat.
Variable stereoCalibrate : stereoArgs -> Mat * Mat * Mat * Mat * spec_float.
Variable stereoRectify :
  rectifyArgs -> Mat * Mat * Mat * Mat * Mat * list (Z * Z * Z * Z).
Variable checkRange : Mat -> bool.

Definition runCalibrationAndSave (s : Settings) (inCal inCal2 : intrinsicCalibration)
    : outcome runTrace :=
  if Mode_eqb (mode s) STEREO then
    do r <- (if negb (useIntrinsicInput s) then
               do resL <- runIntrinsicCalibration reprojNorm calibrateCamera checkRange
                                                  s inCal;
               do resR <- runIntrinsicCalibration reprojNorm calibrateCamera checkRange
                                                   s inCal2;
               Ok (snd (fst resL), snd (fst resR), [snd resL; snd resR])
             else Ok (inCal, inCal2, []));
    do st <- runStereoCalibration stereoCalibrate stereoRectify s (fst (fst r)) (snd (fst r));
    Ok (mkRunTrace (fst (fst (fst st))) (snd (fst (fst st))) (snd r) [snd st]
                   [SaveExtrinsics (snd (fst st))])
  else
    do res <- runIntrinsicCalibration reprojNorm calibrateCamera checkRange s inCal;
    let ok := fst (fst res) in
    let inCal' := snd (fst res) in
    Ok (mkRunTrace inCal' inCal2 [snd res] []
                   (if ok then [UndistortImages inCal'; SaveIntrinsics inCal'] else [])).

End Running.

(** The solver's contract: a pose for every image it was given. *)
Definition poses_for_all (calibrateCamera : calibrateArgs -> Mat * Mat * list Mat * list Mat)
    : Prop :=
  forall a, length (calibrateCamera a).1.2 = length (ca_objectPoints a) /\
            length (calibrateCamera a).2 = length (ca_objectPoints a).

(** A collection that [computeReprojectionErrors] can go through once the
    poses are there. *)
Definition countable (inCal : intrinsicCalibration) : Prop :=
  well_formed inCal /\ fits_int (length (objectPoints inCal)) /\
  fits_int (totalCount (objectPoints inCal)).

(** A range check that fails. *)
Definition exCheckFails (m : Mat) : bool := false.

(** The test [(int)inCal.imagePoints.size() > 0] the driver makes when the
    images have run out: whether [runCalibrationAndSave] is called. *)
Definition runsCalibration (st : driverState) : bool :=
  (0 <? int_of_size (length (imagePoints (dInCal st))))%Z.

(** The correspondences the marker map [j] yields for an image: the corners
    of the detected markers that belong to the map, and their map points
    unified for the plane of the map. *)
Definition configPoints (s : Settings) (d : detection) (j : nat)
    : list Point2f * list Point3f :=
  match configList s !! j, planeList s !! j with
  | Some map, Some plane =>
      let known := knownMarkers (detectedMarkers d j) map in
      (known ≫= (fun mi => take 4 (marker_corners mi.1)),
       getIntPoints_plane plane (known ≫= (fun mi => take 4 (info_points mi.2))))
  | _, _ => ([], [])
  end.

(** The map [getIntPoints] applies to each point, for the three labels its
    [switch] knows. *)
Definition unifyPoint (plane : string) : option (Point3f -> Point3f) :=
  if String.eqb plane "XY"%string then Some unifyXY
  else if String.eqb plane "YZ"%string then Some unifyYZ
  else if String.eqb plane "XZ"%string then Some unifyXZ
  else None.

(** The correspondences of one detected marker with its map entry: corner
    [k] of the marker with point [k] of the entry as [u] unifies it, for the
    four corners. *)
Definition markerPairs (u : Point3f -> Point3f) (mi : Marker * Marker3DInfo)
    : list (Point2f * Point3f) :=
  zip (take 4 (marker_corners mi.1)) (u <$> take 4 (info_points mi.2)).

(** The correspondences the marker map [j] yields for an image, marker after
    marker in detection order; none when the plane label is not a known
    one. *)
Definition configPairs (s : Settings) (d : detection) (j : nat)
    : list (Point2f * Point3f) :=
  match configList s !! j, planeList s !! j with
  | Some map, Some plane =>
      match unifyPoint plane with
      | Some u => knownMarkers (detectedMarkers d j) map ≫= markerPairs u
      | None => []
      end
  | _, _ => []
  end.

(** * Properties *)

(** ** Equality of floats and of points *)

Lemma SFcompare_finite_Eq sx mx ex sy my ey :
  SFcompare (S754_finite sx mx ex) (S754_finite sy my ey) = Some Eq <->
  sx = sy /\ mx = my /\ ex = ey.
Proof.
  simpl. fold (Pos.compare mx my). split.
  - intros H.
    destruct sx, sy; try discriminate;
      destruct (Z.compare_spec ex ey); try discriminate;
      destruct (Pos.compare_spec mx my); try discriminate; auto.
  - intros (-> & -> & ->).
    rewrite Z.compare_refl, Pos.compare_refl. destruct sy; reflexivity.
Qed.

Lemma SFeqb_true (x y : spec_float) :
  SFeqb x y = true <->
  (is_zero x = true /\ is_zero y = true) \/ (x = y /\ is_nan x = false).
Proof.
  unfold SFeqb.
  destruct x as [sx| sx | |sx mx ex], y as [sy|sy| |sy my ey].
  16: {
    split.
    - intros H. right. split; [|reflexivity].
      destruct (SFcompare _ _) as [[]|] eqn:E; try discriminate.
      apply SFcompare_finite_Eq in E as (-> & -> & ->). reflexivity.
    - intros [[? ?]|[Heq _]]; [discriminate|]. injection Heq as -> -> ->.
      rewrite (proj2 (SFcompare_finite_Eq sy my ey sy my ey)); auto. }
  all: try (destruct sx); try (destruct sy); simpl;
    first [ split; [discriminate | intros [[? ?]|[? ?]]; congruence]
          | split; [intros _; auto | reflexivity] ].
Qed.

Lemma SFeqb_sym (x y : spec_float) : SFeqb x y = SFeqb y x.
Proof.
  apply eq_true_iff_eq. rewrite !SFeqb_true. split.
  - intros [[? ?]|[<- ?]]; auto.
  - intros [[? ?]|[<- ?]]; auto.
Qed.

Lemma SFeqb_trans (x y z : spec_float) :
  SFeqb x y = true -> SFeqb y z = true -> SFeqb x z = true.
Proof.
  rewrite !SFeqb_true.
  intros [[Hx Hy]|[<- Hx]] [[Hy' Hz]|[<- Hy']]; auto.
Qed.

Lemma SFeqb_refl (x : spec_float) : is_nan x = false -> SFeqb x x = true.
Proof. intros H. apply SFeqb_true. auto. Qed.

Lemma SFeqb_not_nan (x y : spec_float) : SFeqb x y = true -> is_nan x = false.
Proof. rewrite SFeqb_true. intros [[H _]|[_ H]]; [destruct x; done | done]. Qed.

Lemma Point3f_eqb_sym (p q : Point3f) : Point3f_eqb p q = Point3f_eqb q p.
Proof.
  unfold Point3f_eqb, F32.eqb.
  by rewrite (SFeqb_sym (px p)), (SFeqb_sym (py p)), (SFeqb_sym (pz p)).
Qed.

Lemma Point3f_eqb_trans (p q r : Point3f) :
  Point3f_eqb p q = true -> Point3f_eqb q r = true -> Point3f_eqb p r = true.
Proof.
  unfold Point3f_eqb, F32.eqb. rewrite !andb_true_iff.
  intros [[? ?] ?] [[? ?] ?]. repeat split; eapply SFeqb_trans; eauto.
Qed.

Lemma Point3f_eqb_refl (p : Point3f) : no_nan p -> Point3f_eqb p p = true.
Proof.
  intros (? & ? & ?). unfold Point3f_eqb, F32.eqb.
  rewrite !SFeqb_refl; auto.
Qed.

Lemma Point3f_eqb_no_nan (p q : Point3f) : Point3f_eqb p q = true -> no_nan p.
Proof.
  unfold Point3f_eqb, F32.eqb. rewrite !andb_true_iff.
  intros [[? ?] ?]. repeat split; eapply SFeqb_not_nan; eauto.
Qed.
(** ** Sizes and the scan *)

Lemma wrap32_small (z : Z) : (0 <= z < 2 ^ 31)%Z -> wrap32 z = z.
Proof. intros H. unfold wrap32. rewrite Z.mod_small; lia. Qed.

Lemma int_of_size_fits (n : nat) : fits_int n -> int_of_size n = Z.of_nat n.
Proof. intros H. apply wrap32_small. unfold fits_int in H. lia. Qed.

Lemma firstShared_Some (p : Point3f) (l : list Point3f) (k : nat) :
  firstShared p l = Some k ->
  exists q, l !! k = Some q /\ Point3f_eqb p q = true /\
            forall k' q', (k' < k)%nat -> l !! k' = Some q' -> Point3f_eqb p q' = false.
Proof.
  revert k. induction l as [|q l IH]; intros k; simpl; [discriminate|].
  destruct (Point3f_eqb p q) eqn:E.
  - intros [= <-]. exists q. repeat split; auto. intros k' q' Hk. lia.
  - destruct (firstShared p l) as [k0|]; [|discriminate].
    intros [= <-]. destruct (IH k0 eq_refl) as (q0 & Hq0 & Heq & Hmin).
    exists q0. repeat split; auto.
    intros [|k'] q' Hk; simpl.
    + by intros [= <-].
    + apply Hmin. lia.
Qed.

Lemma firstShared_None (p : Point3f) (l : list Point3f) :
  firstShared p l = None <-> present p l = false.
Proof.
  unfold present. induction l as [|q l IH]; simpl; [done|].
  destruct (Point3f_eqb p q); simpl; [done|].
  rewrite <- IH. destruct (firstShared p l); done.
Qed.

Lemma firstShared_present (p : Point3f) (l : list Point3f) :
  is_Some (firstShared p l) <-> present p l = true.
Proof.
  rewrite <- not_eq_None_Some, firstShared_None. destruct (present p l); naive_solver.
Qed.

Lemma present_true (p : Point3f) (l : list Point3f) :
  present p l = true <-> exists q, q ∈ l /\ Point3f_eqb p q = true.
Proof.
  unfold present. rewrite existsb_exists. setoid_rewrite list_elem_of_In. done.
Qed.

Lemma scanShared_spec (p : Point3f) (suf pre : list Point3f) :
  scanShared p (pre ++ suf) (length suf) (length pre) =
  Ok (match firstShared p suf with
      | Some k => length pre + k
      | None => length (pre ++ suf)
      end)%nat.
Proof.
  revert pre. induction suf as [|q suf IH]; intros pre; simpl.
  - by rewrite app_nil_r.
  - unfold vec_at. rewrite list_lookup_middle by done. simpl.
    destruct (Point3f_eqb p q); [f_equal; lia|].
    replace (pre ++ q :: suf) with ((pre ++ [q]) ++ suf) by by rewrite <- app_assoc.
    replace (S (length pre)) with (length (pre ++ [q])) by (rewrite length_app; simpl; lia).
    rewrite IH. destruct (firstShared p suf); simpl; f_equal.
    rewrite length_app. simpl. lia.
Qed.

Lemma scanShared_all (p : Point3f) (l : list Point3f) :
  scanShared p l (length l) 0 =
  Ok (match firstShared p l with Some k => k | None => length l end).
Proof. apply (scanShared_spec p l []). Qed.
(** ** The loop over the points of one image *)

Lemma firstShared_lt (p : Point3f) (l : list Point3f) (k : nat) :
  firstShared p l = Some k -> (k < length l)%nat.
Proof.
  intros H. destruct (firstShared_Some _ _ _ H) as (q & Hq & _).
  by eapply lookup_lt_Some.
Qed.

Lemma sharedBody_spec (oPoints oPoints2 : list Point3f) (iPoints iPoints2 : list Point2f)
    (bufs : sharedBufs) (j : nat) (p : Point3f) :
  row_ok oPoints oPoints2 iPoints iPoints2 ->
  oPoints !! j = Some p ->
  sharedBody oPoints oPoints2 iPoints iPoints2 bufs j =
  Ok (match firstShared p oPoints2 with
      | Some shared =>
          mkSharedBufs (sharedObjectPoints bufs ++ [p])
                       (sharedImagePoints bufs ++ [iPoints !!! j])
                       (sharedImagePoints2 bufs ++ [iPoints2 !!! shared])
      | None => bufs
      end).
Proof.
  intros (Hia & Hib & Hfa & Hfb) Hp. unfold sharedBody, vec_at at 1. rewrite Hp. simpl.
  rewrite (int_of_size_fits _ Hfb), Nat2Z.id, scanShared_all. simpl.
  destruct (firstShared p oPoints2) as [shared|] eqn:E.
  - apply firstShared_lt in E.
    destruct (Z.eqb_spec (Z.of_nat shared) (Z.of_nat (length oPoints2))) as [Heq|_]; [lia|].
    unfold vec_at.
    rewrite (list_lookup_lookup_total_lt iPoints j)
      by (rewrite Hia; by eapply lookup_lt_Some).
    simpl.
    rewrite (list_lookup_lookup_total_lt iPoints2 shared) by (rewrite Hib; done).
    done.
  - by rewrite Z.eqb_refl.
Qed.

Lemma extendShared_cons (oPoints : list Point3f) (iPoints iPoints2 : list Point2f)
    (bufs : sharedBufs) (js : nat * nat) (pairs : list (nat * nat)) :
  extendShared oPoints iPoints iPoints2 bufs (js :: pairs) =
  extendShared oPoints iPoints iPoints2
    (mkSharedBufs (sharedObjectPoints bufs ++ [oPoints !!! js.1])
                  (sharedImagePoints bufs ++ [iPoints !!! js.1])
                  (sharedImagePoints2 bufs ++ [iPoints2 !!! js.2])) pairs.
Proof. unfold extendShared. simpl. by rewrite <- !app_assoc. Qed.

Lemma extendShared_nil (oPoints : list Point3f) (iPoints iPoints2 : list Point2f)
    (bufs : sharedBufs) :
  extendShared oPoints iPoints iPoints2 bufs [] = bufs.
Proof. unfold extendShared. simpl. rewrite !app_nil_r. by destruct bufs. Qed.

Lemma sharedLoop_spec (oPoints2 : list Point3f) (iPoints iPoints2 : list Point2f)
    (suf pre : list Point3f) (bufs : sharedBufs) :
  row_ok (pre ++ suf) oPoints2 iPoints iPoints2 ->
  foldM (sharedBody (pre ++ suf) oPoints2 iPoints iPoints2)
        (seq (length pre) (length suf)) bufs =
  Ok (extendShared (pre ++ suf) iPoints iPoints2 bufs
                   (sharedPairs suf oPoints2 (length pre))).
Proof.
  revert pre bufs. induction suf as [|p suf IH]; intros pre bufs Hok; simpl.
  - by rewrite extendShared_nil.
  - rewrite (sharedBody_spec _ _ _ _ _ _ p Hok) by by apply list_lookup_middle.
    simpl.
    assert (Hre : pre ++ p :: suf = (pre ++ [p]) ++ suf) by by rewrite <- app_assoc.
    assert (Hlen : S (length pre) = length (pre ++ [p]))
      by (rewrite length_app; simpl; lia).
    rewrite Hre in Hok |- *. rewrite Hlen.
    rewrite IH by done.
    destruct (firstShared p oPoints2) as [shared|]; [|done].
    rewrite extendShared_cons. simpl. rewrite <- Hre.
    by rewrite (list_lookup_total_correct (pre ++ p :: suf) (length pre) p)
      by by apply list_lookup_middle.
Qed.

Lemma sharedLoop_all (oPoints oPoints2 : list Point3f) (iPoints iPoints2 : list Point2f) :
  row_ok oPoints oPoints2 iPoints iPoints2 ->
  for_int (int_of_size (length oPoints))
          (sharedBody oPoints oPoints2 iPoints iPoints2) (mkSharedBufs [] [] []) =
  Ok (sharedAt oPoints oPoints2 iPoints iPoints2).
Proof.
  intros Hok. unfold for_int, sharedAt.
  destruct Hok as (Hia & Hib & Hfa & Hfb).
  rewrite (int_of_size_fits _ Hfa), Nat2Z.id.
  apply (sharedLoop_spec oPoints2 iPoints iPoints2 oPoints []). by repeat split.
Qed.

(** ** The loop over the images *)

Lemma sharedStep_spec (st : intrinsicCalibration * intrinsicCalibration) (i : nat)
    (oa ob : list Point3f) (ia ib : list Point2f) :
  rows st i = (Some oa, Some ob, Some ia, Some ib) ->
  row_ok oa ob ia ib ->
  sharedStep st i = Ok (sharedUpdate st.1 st.2 i (sharedAt oa ob ia ib)).
Proof.
  destruct st as [inCal inCal2]. unfold rows. simpl. intros [= Hoa Hob Hia Hib] Hok.
  unfold sharedStep, vec_at. rewrite Hoa, Hob, Hia, Hib. simpl.
  by rewrite sharedLoop_all.
Qed.

Lemma rows_sharedUpdate_ne (st : intrinsicCalibration * intrinsicCalibration) (i x : nat)
    (bufs : sharedBufs) :
  i <> x -> rows (sharedUpdate st.1 st.2 i bufs) x = rows st x.
Proof.
  intros Hne. unfold rows, sharedUpdate. simpl.
  by rewrite !list_lookup_insert_ne.
Qed.

Lemma rows_sharedUpdate_eq (st : intrinsicCalibration * intrinsicCalibration) (i : nat)
    (bufs : sharedBufs) (oa ob : list Point3f) (ia ib : list Point2f) :
  rows st i = (Some oa, Some ob, Some ia, Some ib) ->
  rows (sharedUpdate st.1 st.2 i bufs) i =
  (Some (sharedObjectPoints bufs), Some (sharedObjectPoints bufs),
   Some (sharedImagePoints bufs), Some (sharedImagePoints2 bufs)).
Proof.
  unfold rows, sharedUpdate. simpl. intros [= Hoa Hob Hia Hib].
  rewrite !list_lookup_insert_eq; eauto using lookup_lt_Some.
Qed.

Lemma same_intrinsics_refl (c : intrinsicCalibration) : same_intrinsics c c.
Proof. by destruct c. Qed.

Lemma same_intrinsics_trans (c1 c2 c3 : intrinsicCalibration) :
  same_intrinsics c1 c2 -> same_intrinsics c2 c3 -> same_intrinsics c1 c3.
Proof. unfold same_intrinsics. intros -> ->. done. Qed.

Lemma same_intrinsics_set_points (c : intrinsicCalibration) ip op :
  same_intrinsics c (set_points c ip op).
Proof. done. Qed.

Lemma sizes_sharedUpdate (st : intrinsicCalibration * intrinsicCalibration) (i : nat)
    (bufs : sharedBufs) :
  sizes (sharedUpdate st.1 st.2 i bufs) = sizes st.
Proof. unfold sizes, sharedUpdate. simpl. by rewrite !length_insert. Qed.

Lemma sharedOuter_spec (k i : nat) (st : intrinsicCalibration * intrinsicCalibration) :
  (forall x, (i <= x < i + k)%nat ->
     exists oa ob ia ib, rows st x = (Some oa, Some ob, Some ia, Some ib) /\
                         row_ok oa ob ia ib) ->
  exists st',
    foldM sharedStep (seq i k) st = Ok st' /\
    same_intrinsics st.1 st'.1 /\ same_intrinsics st.2 st'.2 /\
    sizes st' = sizes st /\
    (forall x, ~ (i <= x < i + k)%nat -> rows st' x = rows st x) /\
    (forall x oa ob ia ib, (i <= x < i + k)%nat ->
       rows st x = (Some oa, Some ob, Some ia, Some ib) ->
       rows st' x =
       (Some (sharedObjectPoints (sharedAt oa ob ia ib)),
        Some (sharedObjectPoints (sharedAt oa ob ia ib)),
        Some (sharedImagePoints (sharedAt oa ob ia ib)),
        Some (sharedImagePoints2 (sharedAt oa ob ia ib)))).
Proof.
  revert i st. induction k as [|k IH]; intros i st Hrows.
  - exists st. simpl. repeat split; auto using same_intrinsics_refl. intros; lia.
  - destruct (Hrows i) as (oa & ob & ia & ib & Hi & Hok); [lia|].
    simpl. rewrite (sharedStep_spec _ _ _ _ _ _ Hi Hok). simpl.
    set (st1 := sharedUpdate st.1 st.2 i (sharedAt oa ob ia ib)).
    destruct (IH (S i) st1) as (st' & Hrun & Hs1 & Hs2 & Hsz & Hout & Hin).
    { intros x Hx. unfold st1. rewrite rows_sharedUpdate_ne by lia. apply Hrows. lia. }
    exists st'. split; [done|]. split; [|split; [|split; [|split]]].
    + eapply same_intrinsics_trans; [|exact Hs1]. apply same_intrinsics_set_points.
    + eapply same_intrinsics_trans; [|exact Hs2]. apply same_intrinsics_set_points.
    + rewrite Hsz. apply sizes_sharedUpdate.
    + intros x Hx. rewrite Hout by lia. apply rows_sharedUpdate_ne. lia.
    + intros x oa' ob' ia' ib' Hx Hrow.
      destruct (decide (x = i)) as [->|Hne].
      * rewrite Hout by lia. rewrite Hi in Hrow. injection Hrow as <- <- <- <-.
        unfold st1. by erewrite rows_sharedUpdate_eq.
      * apply Hin; [lia|]. unfold st1. rewrite rows_sharedUpdate_ne by done. done.
Qed.
(** ** What the matched pairs are *)

Lemma sharedPairs_elem (suf oPoints2 : list Point3f) (j0 j s : nat) :
  (j, s) ∈ sharedPairs suf oPoints2 j0 <->
  exists p, (j0 <= j)%nat /\ suf !! (j - j0)%nat = Some p /\
            firstShared p oPoints2 = Some s.
Proof.
  revert j0. induction suf as [|p suf IH]; intros j0; simpl.
  - split; [by intros ?%elem_of_nil | by intros (? & _ & ? & _)].
  - assert (Hrest : (j, s) ∈ sharedPairs suf oPoints2 (S j0) <->
              exists q, (j0 < j)%nat /\ (p :: suf) !! (j - j0)%nat = Some q /\
                        firstShared q oPoints2 = Some s).
    { rewrite IH. split; intros (q & Hj & Hq & Hs); exists q; (split; [lia|]);
        split; auto.
      - replace (j - j0)%nat with (S (j - S j0)) by lia. done.
      - replace (j - j0)%nat with (S (j - S j0)) in Hq by lia. done. }
    destruct (firstShared p oPoints2) as [s0|] eqn:E.
    + rewrite elem_of_cons, Hrest. split.
      * intros [[= -> ->]|(q & Hj & Hq & Hs)].
        -- exists p. rewrite Nat.sub_diag. auto.
        -- exists q. split; [lia|]. auto.
      * intros (q & Hj & Hq & Hs).
        destruct (decide (j = j0)) as [->|Hne].
        -- left. rewrite Nat.sub_diag in Hq. simpl in Hq. injection Hq as <-. congruence.
        -- right. exists q. split; [lia|]. auto.
    + rewrite Hrest. split.
      * intros (q & Hj & Hq & Hs). exists q. split; [lia|]. auto.
      * intros (q & Hj & Hq & Hs). exists q. split; [|auto].
        destruct (decide (j = j0)) as [->|Hne]; [|lia].
        rewrite Nat.sub_diag in Hq. simpl in Hq. injection Hq as <-. congruence.
Qed.

Lemma sharedPairs_objects (oPoints2 suf pre : list Point3f) :
  (fun js : nat * nat => (pre ++ suf) !!! js.1) <$> sharedPairs suf oPoints2 (length pre) =
  filter (fun p => present p oPoints2 = true) suf.
Proof.
  revert pre. induction suf as [|p suf IH]; intros pre; simpl; [done|].
  assert (Hre : pre ++ p :: suf = (pre ++ [p]) ++ suf) by by rewrite <- app_assoc.
  assert (Hlen : S (length pre) = length (pre ++ [p]))
    by (rewrite length_app; simpl; lia).
  rewrite filter_cons.
  destruct (firstShared p oPoints2) as [s|] eqn:E.
  - rewrite decide_True by (apply firstShared_present; eauto).
    simpl. rewrite (list_lookup_total_correct (pre ++ p :: suf) (length pre) p)
      by by apply list_lookup_middle.
    f_equal. rewrite Hre, Hlen. apply IH.
  - rewrite decide_False
      by (apply firstShared_None in E; rewrite E; done).
    rewrite Hre, Hlen. apply IH.
Qed.

Lemma sharedAt_objects (oa ob : list Point3f) (ia ib : list Point2f) :
  sharedObjectPoints (sharedAt oa ob ia ib) =
  filter (fun p => present p ob = true) oa.
Proof. apply (sharedPairs_objects ob oa []). Qed.

Lemma sharedAt_lengths (oa ob : list Point3f) (ia ib : list Point2f) :
  length (sharedImagePoints (sharedAt oa ob ia ib)) =
    length (sharedObjectPoints (sharedAt oa ob ia ib)) /\
  length (sharedImagePoints2 (sharedAt oa ob ia ib)) =
    length (sharedObjectPoints (sharedAt oa ob ia ib)).
Proof. unfold sharedAt, extendShared. simpl. by rewrite !length_fmap. Qed.

(** Position [k] of the three output vectors comes from one position [j] of
    the first camera's set and from the first position [s] of the second
    camera's set that holds an equal object point. *)
Lemma sharedAt_lookup (oa ob : list Point3f) (ia ib : list Point2f) (k : nat) (p : Point3f) :
  row_ok oa ob ia ib ->
  sharedObjectPoints (sharedAt oa ob ia ib) !! k = Some p ->
  exists j s q,
    sharedPairs oa ob 0 !! k = Some (j, s) /\
    oa !! j = Some p /\
    sharedImagePoints (sharedAt oa ob ia ib) !! k = ia !! j /\
    firstShared p ob = Some s /\
    ob !! s = Some q /\ Point3f_eqb p q = true /\
    sharedImagePoints2 (sharedAt oa ob ia ib) !! k = ib !! s.
Proof.
  intros (Hia & Hib & _ & _). unfold sharedAt, extendShared. simpl.
  rewrite !list_lookup_fmap.
  destruct (sharedPairs oa ob 0 !! k) as [[j s]|] eqn:E; [|discriminate].
  simpl. intros [= <-].
  assert (Hin : (j, s) ∈ sharedPairs oa ob 0) by (eapply list_elem_of_lookup_2; eauto).
  apply sharedPairs_elem in Hin as (p & _ & Hp & Hs).
  rewrite Nat.sub_0_r in Hp.
  destruct (firstShared_Some _ _ _ Hs) as (q & Hq & Heq & _).
  exists j, s, q.
  rewrite (list_lookup_total_correct _ _ _ Hp).
  repeat split; auto.
  - symmetry. apply list_lookup_lookup_total_lt. rewrite Hia. by eapply lookup_lt_Some.
  - symmetry. apply list_lookup_lookup_total_lt. rewrite Hib. by eapply lookup_lt_Some.
Qed.

(** ** [getSharedPoints] on well-formed collections *)


Lemma matchable_rows (A B : intrinsicCalibration) (x : nat) :
  matchable A B -> (x < length (objectPoints A))%nat ->
  exists oa ob ia ib, rows (A, B) x = (Some oa, Some ob, Some ia, Some ib) /\
                      row_ok oa ob ia ib.
Proof.
  intros (Hlen & HwA & HwB & [_ HfA] & [_ HfB]) Hx. unfold rows. simpl.
  destruct (lookup_lt_is_Some_2 (objectPoints A) x Hx) as [oa Hoa].
  destruct (lookup_lt_is_Some_2 (objectPoints B) x ltac:(lia)) as [ob Hob].
  destruct (Forall2_lookup_r _ _ _ _ _ HwA Hoa) as (ia & Hia & Hla).
  destruct (Forall2_lookup_r _ _ _ _ _ HwB Hob) as (ib & Hib & Hlb).
  exists oa, ob, ia, ib. rewrite Hoa, Hob, Hia, Hib. split; [done|].
  repeat split; auto.
  - eapply (Forall_lookup_1 _ _ _ _ HfA Hoa).
  - eapply (Forall_lookup_1 _ _ _ _ HfB Hob).
Qed.

Lemma matchable_row_ok (A B : intrinsicCalibration) (x : nat) oa ob ia ib :
  matchable A B -> rows (A, B) x = (Some oa, Some ob, Some ia, Some ib) ->
  row_ok oa ob ia ib.
Proof.
  intros Hm Hrow.
  assert (Hx : (x < length (objectPoints A))%nat).
  { unfold rows in Hrow. simpl in Hrow. injection Hrow as Hoa _ _ _.
    by eapply lookup_lt_Some. }
  destruct (matchable_rows A B x Hm Hx) as (oa' & ob' & ia' & ib' & Hrow' & Hok).
  rewrite Hrow in Hrow'. by injection Hrow' as <- <- <- <-.
Qed.

Lemma getSharedPoints_run (A B : intrinsicCalibration) :
  matchable A B ->
  exists st',
    getSharedPoints A B = Ok st' /\
    same_intrinsics A st'.1 /\ same_intrinsics B st'.2 /\
    sizes st' = sizes (A, B) /\
    (forall x oa ob ia ib,
       rows (A, B) x = (Some oa, Some ob, Some ia, Some ib) ->
       rows st' x =
       (Some (sharedObjectPoints (sharedAt oa ob ia ib)),
        Some (sharedObjectPoints (sharedAt oa ob ia ib)),
        Some (sharedImagePoints (sharedAt oa ob ia ib)),
        Some (sharedImagePoints2 (sharedAt oa ob ia ib)))).
Proof.
  intros Hm. unfold getSharedPoints, for_int.
  assert (HfA : fits_int (length (objectPoints A))) by apply Hm.
  rewrite (int_of_size_fits _ HfA), Nat2Z.id.
  destruct (sharedOuter_spec (length (objectPoints A)) 0 (A, B))
    as (st' & Hrun & Hs1 & Hs2 & Hsz & _ & Hin).
  { intros x Hx. apply matchable_rows; [done|lia]. }
  exists st'. repeat split; auto.
  intros x oa ob ia ib Hrow. apply Hin; [|done].
  unfold rows in Hrow. simpl in Hrow. injection Hrow as Hoa _ _ _.
  apply lookup_lt_Some in Hoa. lia.
Qed.

Lemma present_filter (r : Point3f) (oa ob : list Point3f) :
  present r (filter (fun p => present p ob = true) oa) = true <->
  present r oa = true /\ present r ob = true.
Proof.
  rewrite !present_true. split.
  - intros (p & [Hpb Hp]%list_elem_of_filter & Hrp). split; [eauto|].
    apply present_true in Hpb as (q & Hq & Hpq).
    exists q. split; [done|]. by eapply Point3f_eqb_trans.
  - intros [(p & Hp & Hrp) (q & Hq & Hrq)]. exists p. split; [|done].
    apply list_elem_of_filter. split; [|done].
    apply present_true. exists q. split; [done|].
    eapply Point3f_eqb_trans; [|exact Hrq]. by rewrite Point3f_eqb_sym.
Qed.

(** C1. For two collections of equal length (well-formed, of sizes an [int]
    holds) [getSharedPoints] returns normally; both outputs keep one set per
    image; for every image index the two outputs hold the same object points,
    namely those of A's set that are present in B's set under [==], in A's
    order, so a point is present in the output exactly when it is present in
    both input sets; the two image-point vectors have the length of the
    object-point vector; and position by position the object point comes with
    A's image point of that object point and with B's image point of an
    equal object point. *)
Theorem getSharedPoints_shared (A B : intrinsicCalibration) :
  matchable A B ->
  exists A' B',
    getSharedPoints A B = Ok (A', B') /\
    sizes (A', B') = sizes (A, B) /\
    forall i oa ob ia ib,
      rows (A, B) i = (Some oa, Some ob, Some ia, Some ib) ->
      exists so si si2,
        rows (A', B') i = (Some so, Some so, Some si, Some si2) /\
        length si = length so /\ length si2 = length so /\
        so = filter (fun p => present p ob = true) oa /\
        (forall r, present r so = true <-> present r oa = true /\ present r ob = true) /\
        (forall k p, so !! k = Some p ->
           exists j s q, oa !! j = Some p /\ si !! k = ia !! j /\
                         ob !! s = Some q /\ Point3f_eqb p q = true /\
                         si2 !! k = ib !! s).
Proof.
  intros Hm.
  destruct (getSharedPoints_run A B Hm) as ([A' B'] & Hrun & _ & _ & Hsz & Hrows).
  exists A', B'. split; [done|]. split; [done|].
  intros i oa ob ia ib Hrow.
  pose proof (matchable_row_ok _ _ _ _ _ _ _ Hm Hrow) as Hok.
  exists (sharedObjectPoints (sharedAt oa ob ia ib)),
         (sharedImagePoints (sharedAt oa ob ia ib)),
         (sharedImagePoints2 (sharedAt oa ob ia ib)).
  split; [by apply Hrows|].
  destruct (sharedAt_lengths oa ob ia ib) as [Hl1 Hl2].
  split; [done|]. split; [done|]. split; [apply sharedAt_objects|]. split.
  - intros r. rewrite sharedAt_objects. apply present_filter.
  - intros k p Hk.
    destruct (sharedAt_lookup oa ob ia ib k p Hok Hk)
      as (j & s & q & _ & Hj & Hsi & _ & Hq & Heq & Hsi2).
    exists j, s, q. auto.
Qed.

(** ** Matching a collection with itself *)

Lemma firstShared_self (l : list Point3f) (j : nat) (p : Point3f) :
  Forall no_nan l -> distinct_points l -> l !! j = Some p ->
  firstShared p l = Some j.
Proof.
  intros Hnan Hd Hj.
  assert (Hpres : present p l = true).
  { apply present_true. exists p. split; [by eapply list_elem_of_lookup_2|].
    apply Point3f_eqb_refl. eapply Forall_lookup_1; eauto. }
  apply firstShared_present in Hpres as [s Hs].
  destruct (firstShared_Some _ _ _ Hs) as (q & Hq & Heq & _).
  rewrite Hs. f_equal. symmetry. eapply Hd; eauto.
Qed.

Lemma sharedPairs_self (suf pre : list Point3f) :
  Forall no_nan (pre ++ suf) -> distinct_points (pre ++ suf) ->
  sharedPairs suf (pre ++ suf) (length pre) =
  (fun j => (j, j)) <$> seq (length pre) (length suf).
Proof.
  revert pre. induction suf as [|p suf IH]; intros pre Hnan Hd; simpl; [done|].
  rewrite (firstShared_self (pre ++ p :: suf) (length pre) p)
    by (auto using list_lookup_middle).
  f_equal.
  assert (Hre : pre ++ p :: suf = (pre ++ [p]) ++ suf) by by rewrite <- app_assoc.
  assert (Hlen : S (length pre) = length (pre ++ [p]))
    by (rewrite length_app; simpl; lia).
  rewrite Hre in Hnan, Hd |- *. rewrite Hlen. by apply IH.
Qed.

Lemma fmap_lookup_total_seq {X : Type} `{!Inhabited X} (l : list X) :
  (fun j => l !!! j) <$> seq 0 (length l) = l.
Proof.
  apply list_eq. intros i. rewrite list_lookup_fmap.
  destruct (decide (i < length l)%nat) as [Hlt|Hge].
  - rewrite lookup_seq_lt by done. simpl.
    symmetry. by apply list_lookup_lookup_total_lt.
  - rewrite lookup_seq_ge by lia. simpl. symmetry. apply lookup_ge_None. lia.
Qed.

Lemma sharedAt_self (oa : list Point3f) (ia : list Point2f) :
  length ia = length oa -> Forall no_nan oa -> distinct_points oa ->
  sharedAt oa oa ia ia = mkSharedBufs oa ia ia.
Proof.
  intros Hlen Hnan Hd. unfold sharedAt, extendShared. simpl.
  pose proof (sharedPairs_self oa [] Hnan Hd) as Hp. simpl in Hp. rewrite Hp.
  rewrite <- !list_fmap_compose. unfold compose. simpl.
  rewrite fmap_lookup_total_seq. rewrite <- Hlen. by rewrite fmap_lookup_total_seq.
Qed.

Lemma set_points_same (c : intrinsicCalibration) :
  set_points c (imagePoints c) (objectPoints c) = c.
Proof. by destruct c. Qed.

(** C7, as amended. For a well-formed collection C (sizes within [int]) in
    which no object-point coordinate is NaN and no set holds two equal object
    points, [getSharedPoints] applied to two copies of C returns both copies
    unchanged. *)
Theorem getSharedPoints_same (C : intrinsicCalibration) :
  well_formed C -> collection_fits C ->
  Forall (fun set => Forall no_nan set /\ distinct_points set) (objectPoints C) ->
  getSharedPoints C C = Ok (C, C).
Proof.
  intros Hwf Hfit Hsets.
  assert (Hm : matchable C C) by (unfold matchable; auto).
  destruct (getSharedPoints_run C C Hm) as ([A' B'] & Hrun & Hs1 & Hs2 & Hsz & Hrows).
  rewrite Hrun. f_equal.
  unfold sizes in Hsz. simpl in Hsz. injection Hsz as HlA HlB HlA' HlB'.
  assert (Hrow : forall x, rows (A', B') x = rows (C, C) x).
  { intros x. destruct (decide (x < length (objectPoints C))%nat) as [Hlt|Hge].
    - destruct (matchable_rows C C x Hm Hlt) as (oa & ob & ia & ib & Hx & Hok).
      rewrite (Hrows _ _ _ _ _ Hx), Hx.
      unfold rows in Hx. simpl in Hx. injection Hx as Hoa Hob Hia Hib.
      assert (ob = oa) as -> by congruence. assert (ib = ia) as -> by congruence.
      destruct (Forall_lookup_1 _ _ _ _ Hsets Hoa) as [Hnan Hd].
      rewrite sharedAt_self; [done| apply Hok |done|done].
    - unfold rows. simpl.
      pose proof (Forall2_length _ _ _ Hwf) as Hl.
      rewrite !(proj2 (lookup_ge_None _ _)) by lia. done. }
  assert (HoA : objectPoints A' = objectPoints C).
  { apply list_eq. intros x. specialize (Hrow x). unfold rows in Hrow. simpl in Hrow.
    congruence. }
  assert (HoB : objectPoints B' = objectPoints C).
  { apply list_eq. intros x. specialize (Hrow x). unfold rows in Hrow. simpl in Hrow.
    congruence. }
  assert (HiA : imagePoints A' = imagePoints C).
  { apply list_eq. intros x. specialize (Hrow x). unfold rows in Hrow. simpl in Hrow.
    congruence. }
  assert (HiB : imagePoints B' = imagePoints C).
  { apply list_eq. intros x. specialize (Hrow x). unfold rows in Hrow. simpl in Hrow.
    congruence. }
  unfold same_intrinsics in Hs1, Hs2. simpl in Hs1, Hs2.
  rewrite Hs1, Hs2, HoA, HoB, HiA, HiB, set_points_same. done.
Qed.

(** ** Which points of the second set are matched *)

Lemma sharedPairs_NoDup (oPoints2 suf pre : list Point3f) :
  distinct_points (pre ++ suf) ->
  NoDup ((sharedPairs suf oPoints2 (length pre)).*2).
Proof.
  revert pre. induction suf as [|p suf IH]; intros pre Hd; simpl; [constructor|].
  assert (Hre : pre ++ p :: suf = (pre ++ [p]) ++ suf) by by rewrite <- app_assoc.
  assert (Hlen : S (length pre) = length (pre ++ [p]))
    by (rewrite length_app; simpl; lia).
  assert (Hrest : NoDup ((sharedPairs suf oPoints2 (S (length pre))).*2)).
  { rewrite Hlen. apply IH. by rewrite <- Hre. }
  destruct (firstShared p oPoints2) as [s|] eqn:E; [|done].
  simpl. constructor; [|done].
  intros ([j s'] & Hs' & Hin)%list_elem_of_fmap. simpl in Hs'. subst s'.
  apply sharedPairs_elem in Hin as (q & Hj & Hq & Hs).
  destruct (firstShared_Some _ _ _ E) as (r & Hr & Hpr & _).
  destruct (firstShared_Some _ _ _ Hs) as (r' & Hr' & Hqr & _).
  assert (r' = r) as -> by congruence.
  assert (Hpq : Point3f_eqb p q = true).
  { eapply Point3f_eqb_trans; [exact Hpr|]. by rewrite Point3f_eqb_sym. }
  assert (Hpos : length pre = (length pre + S (j - S (length pre)))%nat).
  { eapply Hd; [apply list_lookup_middle; done| |exact Hpq].
    rewrite lookup_app_r by lia.
    replace (length pre + S (j - S (length pre)) - length pre)%nat
      with (S (j - S (length pre))) by lia.
    done. }
  lia.
Qed.

(** The outputs of [getSharedPoints] satisfy the invariant of the Point
    Correspondence Sets. *)
Lemma getSharedPoints_well_formed (A B A' B' : intrinsicCalibration) :
  matchable A B -> getSharedPoints A B = Ok (A', B') ->
  well_formed A' /\ well_formed B'.
Proof.
  intros Hm Hrun.
  destruct (getSharedPoints_run A B Hm) as (st' & Hrun' & _ & _ & Hsz & Hrows).
  rewrite Hrun in Hrun'. injection Hrun' as <-.
  unfold sizes in Hsz. simpl in Hsz. injection Hsz as HlA HlB HlA' HlB'.
  destruct Hm as (Hlen & HwA & HwB & HfA & HfB).
  pose proof (Forall2_length _ _ _ HwA) as HlwA.
  pose proof (Forall2_length _ _ _ HwB) as HlwB.
  assert (Hm : matchable A B) by (unfold matchable; auto).
  assert (Hboth : forall x si so si2 so2,
            imagePoints A' !! x = Some si -> objectPoints A' !! x = Some so ->
            imagePoints B' !! x = Some si2 -> objectPoints B' !! x = Some so2 ->
            length si = length so /\ length si2 = length so2).
  { intros x si so si2 so2 H1 H2 H3 H4.
    assert (Hx : (x < length (objectPoints A))%nat)
      by (rewrite <- HlA; by eapply lookup_lt_Some).
    destruct (matchable_rows A B x Hm Hx) as (oa & ob & ia & ib & Hrow & _).
    specialize (Hrows _ _ _ _ _ Hrow). unfold rows in Hrows. simpl in Hrows.
    injection Hrows as E1 E2 E3 E4.
    rewrite H2 in E1. rewrite H4 in E2. rewrite H1 in E3. rewrite H3 in E4.
    injection E1 as ->. injection E2 as ->. injection E3 as ->. injection E4 as ->.
    rewrite !length_fmap.
    done. }
  split; apply Forall2_same_length_lookup; (split; [lia|]); intros x i o Hi Ho.
  - assert (Hx : (x < length (objectPoints A'))%nat) by by eapply lookup_lt_Some.
    destruct (lookup_lt_is_Some_2 (imagePoints B') x ltac:(lia)) as [si2 H3].
    destruct (lookup_lt_is_Some_2 (objectPoints B') x ltac:(lia)) as [so2 H4].
    by destruct (Hboth x i o si2 so2).
  - assert (Hx : (x < length (objectPoints B'))%nat) by by eapply lookup_lt_Some.
    destruct (lookup_lt_is_Some_2 (imagePoints A') x ltac:(lia)) as [si H1].
    destruct (lookup_lt_is_Some_2 (objectPoints A') x ltac:(lia)) as [so H2].
    by destruct (Hboth x si so i o).
Qed.

(** ** Loops that push, and monadic folds *)

Lemma push_each_app {X Y : Type} (f : X -> Y) (points : list X) (acc : list Y) :
  push_each f points acc = acc ++ (f <$> points).
Proof.
  revert acc. induction points as [|p points IH]; intros acc; simpl.
  - by rewrite app_nil_r.
  - rewrite IH. by rewrite <- app_assoc.
Qed.

Lemma foldM_invariant {X S : Type} (P : S -> Prop) (f : S -> X -> outcome S)
    (l : list X) (s s' : S) :
  (forall s a s', P s -> a ∈ l -> f s a = Ok s' -> P s') ->
  P s -> foldM f l s = Ok s' -> P s'.
Proof.
  revert s. induction l as [|a l IH]; intros s Hstep Hs; simpl.
  - by intros [= <-].
  - destruct (f s a) as [s1|e] eqn:E; [|discriminate]. simpl.
    apply IH.
    + intros s0 a0 s0' H0 Hin. apply Hstep; [done|by right].
    + eapply Hstep; [exact Hs|by left|exact E].
Qed.

Lemma foldM_total {X S : Type} (P : S -> Prop) (f : S -> X -> outcome S)
    (l : list X) (s : S) :
  (forall s a, P s -> a ∈ l -> exists s', f s a = Ok s' /\ P s') ->
  P s -> exists s', foldM f l s = Ok s' /\ P s'.
Proof.
  revert s. induction l as [|a l IH]; intros s Hstep Hs; simpl.
  - eauto.
  - destruct (Hstep s a Hs) as (s1 & E & Hs1); [by left|]. rewrite E. simpl.
    apply IH; [|done]. intros s0 a0 H0 Hin. apply Hstep; [done|by right].
Qed.

(** ** The reference points of the patterns *)

Lemma getIntPoints_plane_length (plane : string) (points : list Point3f) :
  getIntPoints_plane plane points = [] \/
  length (getIntPoints_plane plane points) = length points.
Proof.
  unfold getIntPoints_plane.
  repeat (destruct (String.eqb plane _);
          [right; rewrite push_each_app; simpl; by rewrite length_fmap|]).
  by left.
Qed.

Lemma calcChessboardCorners_length (s : Settings) (buf : list Point3f) :
  length (calcChessboardCorners s buf) =
  (length buf + Z.to_nat (boardSize_height s) * Z.to_nat (boardSize_width s))%nat.
Proof.
  unfold calcChessboardCorners.
  rewrite <- (length_seqZ 0 (boardSize_height s)).
  generalize (seqZ 0 (boardSize_height s)) as rows_. intros rows_.
  revert buf. induction rows_ as [|i rows_ IH]; intros buf; simpl; [lia|].
  rewrite IH, push_each_app, length_app, length_fmap, length_seqZ. lia.
Qed.


Lemma pushCorners_spec (m : Marker) (info : Marker3DInfo)
    (bufs bufs' : list Point2f * list Point3f) :
  pushCorners m info bufs = Ok bufs' ->
  length bufs.1 = length bufs.2 -> length bufs'.1 = length bufs'.2.
Proof.
  unfold pushCorners. intros Hrun Hlen.
  eapply (foldM_invariant (fun b => length b.1 = length b.2)); [|exact Hlen|exact Hrun].
  intros [ib ob] j [ib' ob'] Hb _. simpl in *.
  destruct (vec_index (marker_corners m) j); [|discriminate]. simpl.
  destruct (vec_index (info_points info) j); [|discriminate]. simpl.
  intros [= <- <-]. rewrite !length_app. simpl. lia.
Qed.

Lemma pushCorners_total (m : Marker) (info : Marker3DInfo)
    (bufs : list Point2f * list Point3f) :
  four_corners m -> four_points info ->
  exists bufs', pushCorners m info bufs = Ok bufs'.
Proof.
  intros Hm Hi. unfold pushCorners.
  destruct (foldM_total (fun _ => True)
              (fun '(ib, ob) j =>
                 do c <- vec_index (marker_corners m) j;
                 do o <- vec_index (info_points info) j;
                 Ok (ib ++ [c], ob ++ [o]))
              [0; 1; 2; 3]%nat bufs) as (bufs' & Hrun & _); [|done|eauto].
  intros [ib ob] j _ Hj.
  assert (Hlt : (j < 4)%nat).
  { repeat (apply elem_of_cons in Hj as [->|Hj]; [lia|]). by apply elem_of_nil in Hj. }
  unfold vec_index.
  destruct (lookup_lt_is_Some_2 (marker_corners m) j) as [c ->];
    [unfold four_corners in Hm; lia|].
  destruct (lookup_lt_is_Some_2 (info_points info) j) as [o ->];
    [unfold four_points in Hi; lia|].
  simpl. eauto.
Qed.

Lemma findMarker_Some (map : MarkerMap) (id : Z) (j k : nat) :
  findMarker map id j = Some k ->
  exists info, map !! (k - j)%nat = Some info /\ (j <= k)%nat /\ info_id info = id.
Proof.
  revert j. induction map as [|info map IH]; intros j; simpl; [discriminate|].
  destruct (Z.eqb_spec (info_id info) id) as [Heq|Hne].
  - intros [= <-]. exists info. rewrite Nat.sub_diag. auto.
  - intros (info' & Hk & Hj & Hid)%IH. exists info'.
    replace (k - j)%nat with (S (k - S j)) by lia. simpl. split; [done|]. split; [lia|done].
Qed.

Lemma calcArucoCorners_length (markers : list Marker) (map : MarkerMap)
    (bufs : list Point2f * list Point3f) :
  calcArucoCorners markers map = Ok bufs -> length bufs.1 = length bufs.2.
Proof.
  unfold calcArucoCorners. intros Hrun.
  eapply (foldM_invariant (fun b => length b.1 = length b.2)); [| |exact Hrun]; [|done].
  intros b m b' Hb _ Hf. cbv beta in Hf.
  destruct (findMarker map (marker_id m) 0) as [k|]; [|by injection Hf as <-].
  destruct (vec_index map k) as [info|]; [|discriminate]. simpl in Hf.
  by eapply pushCorners_spec.
Qed.

Lemma calcArucoCorners_total (markers : list Marker) (map : MarkerMap) :
  Forall four_corners markers -> Forall four_points map ->
  exists bufs, calcArucoCorners markers map = Ok bufs.
Proof.
  intros Hm Hmap. unfold calcArucoCorners.
  destruct (foldM_total (fun _ => True)
              (fun bufs m =>
                 match findMarker map (marker_id m) 0 with
                 | Some markerIndex =>
                     do info <- vec_index map markerIndex;
                     pushCorners m info bufs
                 | None => Ok bufs
                 end)
              markers ([], [])) as (bufs & Hrun & _); [|done|eauto].
  intros b m _ Hin. cbv beta.
  destruct (findMarker map (marker_id m) 0) as [k|] eqn:E; [|eauto].
  apply findMarker_Some in E as (info & Hk & _ & _).
  rewrite Nat.sub_0_r in Hk. unfold vec_index. rewrite Hk. simpl.
  destruct (pushCorners_total m info b) as [b' ->]; [| |eauto].
  - eapply (proj1 (Forall_forall _ _) Hm). done.
  - eapply Forall_lookup_1; eauto.
Qed.

Lemma calcArucoCorners_none (map : MarkerMap) :
  calcArucoCorners [] map = Ok ([], []).
Proof. reflexivity. Qed.

(** ** Detection keeps the sets aligned *)


Lemma sets_aligned_alter (ip : list (list Point2f)) (op : list (list Point3f))
    (a : list Point2f) (b : list Point3f) (vi : nat) :
  sets_aligned ip op -> length a = length b ->
  sets_aligned (alter (push_each id a) vi ip) (alter (push_each id b) vi op).
Proof.
  unfold sets_aligned. intros H Hab.
  apply Forall2_same_length_lookup. split.
  - rewrite !length_alter. by eapply Forall2_length.
  - intros x i o. rewrite !list_lookup_alter.
    destruct (decide (vi = x)) as [->|Hne].
    + destruct (ip !! x) as [i0|] eqn:Ei; [|discriminate].
      destruct (op !! x) as [o0|] eqn:Eo; [|discriminate].
      simpl. intros [= <-] [= <-]. rewrite !push_each_app, !length_app, !length_fmap.
      pose proof (Forall2_lookup_lr _ _ _ _ _ _ H Ei Eo). simpl in *. lia.
    + intros Hi Ho. eapply (Forall2_lookup_lr _ _ _ _ _ _ H Hi Ho).
Qed.

Lemma getIntPoints_plane_nil (plane : string) : getIntPoints_plane plane [] = [].
Proof.
  unfold getIntPoints_plane. by repeat (destruct (String.eqb plane _); [done|]).
Qed.


Lemma arucoConfig_inv (s : Settings) (d : detection) (vi : nat)
    (inCal c c' : intrinsicCalibration) (j : nat) :
  aruco_inv inCal vi c -> arucoConfig s d vi c j = Ok c' -> aruco_inv inCal vi c'.
Proof.
  intros (Hwf & Hsame & Hlen & Hframe). unfold arucoConfig.
  destruct (vec_index (configList s) j) as [map|]; [|discriminate]. simpl.
  destruct (calcArucoCorners (detectedMarkers d j) map) as [bufs|] eqn:Hb; [|discriminate].
  simpl. unfold getIntPoints.
  destruct (vec_index (planeList s) j) as [plane|]; [|discriminate]. simpl.
  destruct ((0 <? length (getIntPoints_plane plane bufs.2))%nat
            && negb (Mode_eqb (mode s) PREVIEW)) eqn:E; intros [= <-]; [|done].
  apply andb_true_iff in E as [Hpos%Nat.ltb_lt _].
  split; [|split; [|split]].
  - unfold well_formed. simpl. apply sets_aligned_alter; [done|].
    destruct (getIntPoints_plane_length plane bufs.2) as [Hnil|Hl].
    + rewrite Hnil in Hpos. simpl in Hpos. lia.
    + rewrite Hl. by apply calcArucoCorners_length in Hb.
  - unfold same_intrinsics in *. simpl. rewrite Hsame. done.
  - simpl. by rewrite length_alter.
  - intros x Hx. simpl. rewrite !list_lookup_alter_ne by done. by apply Hframe.
Qed.

Lemma arucoConfig_total (s : Settings) (d : detection) (vi : nat)
    (c : intrinsicCalibration) (j : nat) :
  (j < length (configList s))%nat -> (j < length (planeList s))%nat ->
  Forall (Forall four_points) (configList s) ->
  Forall four_corners (detectedMarkers d j) ->
  exists c', arucoConfig s d vi c j = Ok c'.
Proof.
  intros Hj Hj' Hmaps Hmarkers. unfold arucoConfig, vec_index.
  destruct (lookup_lt_is_Some_2 _ _ Hj) as [map Hmap]. rewrite Hmap. simpl.
  destruct (calcArucoCorners_total (detectedMarkers d j) map Hmarkers) as [bufs Hb].
  { eapply Forall_lookup_1; eauto. }
  rewrite Hb. simpl. unfold getIntPoints, vec_index.
  destruct (lookup_lt_is_Some_2 _ _ Hj') as [plane Hplane]. rewrite Hplane. simpl.
  destruct (_ && _); eauto.
Qed.

Lemma aruco_inv_refl (inCal : intrinsicCalibration) (vi : nat) :
  well_formed inCal -> aruco_inv inCal vi inCal.
Proof. intros H. split; [done|]. split; [apply same_intrinsics_refl|]. split; done. Qed.

Lemma arucoDetect_inv (s : Settings) (d : detection) (inCal inCal' : intrinsicCalibration)
    (vi : Z) :
  well_formed inCal -> arucoDetect s d inCal vi = Ok inCal' ->
  aruco_inv inCal (Z.to_nat vi) inCal'.
Proof.
  intros Hwf. unfold arucoDetect.
  destruct (if Mode_eqb (mode s) PREVIEW then _ else _) as [[]|]; [|discriminate].
  simpl. unfold for_int.
  apply foldM_invariant; [|by apply aruco_inv_refl].
  intros c j c' Hinv _. by apply arucoConfig_inv.
Qed.

Lemma arucoDetect_pointers (s : Settings) (inCal : intrinsicCalibration) (vi : Z) :
  (mode s <> PREVIEW ->
   (0 <= vi < Z.of_nat (length (imagePoints inCal)))%Z /\
   (vi < Z.of_nat (length (objectPoints inCal)))%Z) ->
  (if Mode_eqb (mode s) PREVIEW then Ok tt
   else do _ <- vec_at_int (imagePoints inCal) vi;
        do _ <- vec_at_int (objectPoints inCal) vi; Ok tt) = Ok tt.
Proof.
  intros Hvi.
  destruct (mode s) eqn:Em; simpl; try done;
    (destruct Hvi as [Hi Ho]; [congruence|]);
    unfold vec_at_int, vec_at;
    (destruct (Z.ltb_spec vi 0); [lia|]);
    (destruct (lookup_lt_is_Some_2 (imagePoints inCal) (Z.to_nat vi)) as [? ->]; [lia|]);
    (destruct (lookup_lt_is_Some_2 (objectPoints inCal) (Z.to_nat vi)) as [? ->]; [lia|]);
    done.
Qed.

Lemma arucoDetect_total (s : Settings) (d : detection) (inCal : intrinsicCalibration)
    (vi : Z) :
  aruco_ready s d inCal vi ->
  exists inCal', arucoDetect s d inCal vi = Ok inCal'.
Proof.
  intros (Hvi & Hc & Hp & Hmaps & Hmarkers). unfold arucoDetect.
  rewrite (arucoDetect_pointers s inCal vi Hvi). simpl. unfold for_int.
  destruct (foldM_total (fun _ => True) (arucoConfig s d (Z.to_nat vi))
              (seq 0 (Z.to_nat (nConfigs s))) inCal) as (c & Hrun & _); [|done|eauto].
  intros c j _ Hin%elem_of_seq.
  destruct (arucoConfig_total s d (Z.to_nat vi) c j) as [c' Hc']; auto; try lia.
  eauto.
Qed.

Lemma foldM_id {X S : Type} (f : S -> X -> outcome S) (l : list X) (s : S) :
  (forall a, a ∈ l -> f s a = Ok s) -> foldM f l s = Ok s.
Proof.
  induction l as [|a l IH]; intros H; simpl; [done|].
  rewrite H by by left. simpl. apply IH. intros a' Ha'. apply H. by right.
Qed.

Lemma calcArucoCorners_unknown (markers : list Marker) (map : MarkerMap) :
  no_known_marker markers map -> calcArucoCorners markers map = Ok ([], []).
Proof.
  intros H. unfold calcArucoCorners. apply foldM_id.
  intros m Hm. by rewrite (proj1 (Forall_forall _ _) H m Hm).
Qed.

Lemma arucoDetect_unknown (s : Settings) (d : detection) (inCal : intrinsicCalibration)
    (vi : Z) :
  (mode s <> PREVIEW ->
   (0 <= vi < Z.of_nat (length (imagePoints inCal)))%Z /\
   (vi < Z.of_nat (length (objectPoints inCal)))%Z) ->
  (Z.to_nat (nConfigs s) <= length (configList s))%nat ->
  (Z.to_nat (nConfigs s) <= length (planeList s))%nat ->
  (forall j map, configList s !! j = Some map ->
                 no_known_marker (detectedMarkers d j) map) ->
  arucoDetect s d inCal vi = Ok inCal.
Proof.
  intros Hvi Hc Hp Hnone. unfold arucoDetect.
  rewrite (arucoDetect_pointers s inCal vi Hvi). simpl. unfold for_int. apply foldM_id.
  intros j Hj%elem_of_seq. unfold arucoConfig, vec_index.
  destruct (lookup_lt_is_Some_2 (configList s) j) as [map Hmap]; [lia|].
  rewrite Hmap. simpl. rewrite (calcArucoCorners_unknown _ _ (Hnone _ _ Hmap)). simpl.
  unfold getIntPoints, vec_index.
  destruct (lookup_lt_is_Some_2 (planeList s) j) as [plane ->]; [lia|].
  simpl. by rewrite getIntPoints_plane_nil.
Qed.

Lemma chessboardDetect_well_formed (s : Settings) (d : detection)
    (inCal : intrinsicCalibration) :
  well_formed inCal -> chessboard_contract s d ->
  well_formed (chessboardDetect s d inCal).
Proof.
  intros Hwf Hc. unfold chessboardDetect.
  destruct (found d) eqn:E; [|done].
  unfold well_formed, sets_aligned. simpl.
  apply Forall2_app; [done|]. constructor; [|constructor].
  rewrite calcChessboardCorners_length, Hc by done. simpl. lia.
Qed.

Lemma driverInit_well_formed (s : Settings) :
  well_formed (dInCal (driverInit s)) /\ well_formed (dInCal2 (driverInit s)).
Proof.
  unfold driverInit. simpl.
  destruct (Pattern_eqb (calibrationPattern s) CHESSBOARD); split;
    try constructor; by apply Forall2_replicate.
Qed.



(** ** Signs of IEEE-754 results *)

Section Rounding.
Variables prec emax : Z.

Lemma iter_pos_invariant {X : Type} (P : X -> Prop) (f : X -> X) (n : positive) (x : X) :
  (forall y, P y -> P (f y)) -> P x -> P (SpecFloat.iter_pos f n x).
Proof.
  intros Hf. revert x. induction n as [n IH|n IH|]; intros x Hx; simpl; auto.
Qed.

Lemma shr_1_nonneg (mrs : shr_record) : (0 <= shr_m mrs)%Z -> (0 <= shr_m (shr_1 mrs))%Z.
Proof.
  destruct mrs as [m r s]. simpl. intros Hm.
  destruct m as [|[p|p|]|p]; simpl; lia.
Qed.

Lemma shr_fexp_nonneg (m e : Z) (l : location) :
  (0 <= m)%Z -> (0 <= shr_m (shr_fexp prec emax m e l).1)%Z.
Proof.
  intros Hm. unfold shr_fexp, shr.
  assert (H0 : (0 <= shr_m (shr_record_of_loc m l))%Z)
    by (destruct l as [|[]]; simpl; lia).
  destruct (fexp prec emax (Zdigits2 m + e) - e)%Z; simpl; try done.
  by apply iter_pos_invariant; [apply shr_1_nonneg|].
Qed.

Lemma round_nearest_even_nonneg (m : Z) (l : location) :
  (0 <= m)%Z -> (0 <= round_nearest_even m l)%Z.
Proof.
  intros Hm. destruct l as [|[]]; simpl; try lia. destruct (Z.even m); lia.
Qed.


Lemma binary_round_aux_signed (sx : bool) (mx ex : Z) (lx : location) :
  (0 <= mx)%Z -> signed sx (binary_round_aux prec emax sx mx ex lx).
Proof.
  intros Hm. unfold binary_round_aux.
  pose proof (shr_fexp_nonneg mx ex lx Hm) as H1.
  destruct (shr_fexp prec emax mx ex lx) as [mrs' e']. simpl in H1.
  pose proof (shr_fexp_nonneg _ e' loc_Exact
                (round_nearest_even_nonneg _ (loc_of_shr_record mrs') H1)) as H2.
  destruct (shr_fexp prec emax _ e' loc_Exact) as [mrs'' e'']. simpl in H2.
  destruct (shr_m mrs''); simpl; try done; try lia.
  destruct (_ <=? _)%Z; done.
Qed.

Lemma binary_round_signed (sx : bool) (mx : positive) (ex : Z) :
  signed sx (binary_round prec emax sx mx ex).
Proof.
  unfold binary_round. destruct (shl_align _ _ _) as [mz ez].
  by apply binary_round_aux_signed.
Qed.

End Rounding.

Lemma signed_nonneg (x : spec_float) : signed false x -> nonneg x.
Proof. by destruct x. Qed.

Lemma nonneg_leb (x : spec_float) : nonneg x <-> F64.leb F64.zero x = true.
Proof.
  unfold F64.leb, SFleb, F64.zero. destruct x as [s|s| |s m e]; simpl;
    try destruct s; naive_solver.
Qed.

Lemma mul_self_nonneg (x : spec_float) :
  is_nan x = false -> nonneg (F64.mul x x).
Proof.
  unfold F64.mul, SFmul.
  destruct x as [s|s| |s m e]; simpl; try done; intros _.
  - by destruct s.
  - replace (xorb s s) with false by by destruct s.
    by apply signed_nonneg, binary_round_aux_signed.
Qed.

Lemma add_nonneg (x y : spec_float) :
  nonneg x -> nonneg y -> nonneg (F64.add x y).
Proof.
  unfold F64.add, SFadd. intros Hx Hy.
  destruct x as [sx|sx| |sx mx ex], y as [sy|sy| |sy my ey];
    simpl in Hx, Hy; subst; try done.
  - by destruct sx, sy.
  - simpl. apply signed_nonneg, binary_round_signed.
Qed.

Lemma div_nonneg (x : spec_float) (my : positive) (ey : Z) :
  nonneg x -> nonneg (F64.div x (S754_finite false my ey)).
Proof.
  unfold F64.div, SFdiv.
  destruct x as [sx|sx| |sx mx ex]; simpl; try done.
  - by intros ->.
  - intros ->. unfold SFdiv_core_binary. simpl xorb.
    set (m' := match _ with Z0 => _ | Zpos _ => _ | Zneg _ => _ end).
    assert (Hm' : (0 <= m')%Z).
    { unfold m'. destruct (_ - _ - _)%Z; try lia. apply Z.shiftl_nonneg. lia. }
    pose proof (Z.div_pos m' (Z.pos my) Hm' ltac:(lia)) as Hq.
    unfold Z.div in Hq. destruct (Z.div_eucl m' (Z.pos my)) as [q r].
    by apply signed_nonneg, binary_round_aux_signed.
Qed.

Lemma sqrt_nonneg (x : spec_float) : nonneg x -> nonneg (F64.sqrt x).
Proof.
  unfold F64.sqrt, SFsqrt.
  destruct x as [sx|sx| |sx mx ex]; simpl; try done; intros ->; try done.
  unfold SFsqrt_core_binary.
  set (m' := match _ with Z0 => _ | Zpos _ => _ | Zneg _ => _ end).
  pose proof (Z.sqrtrem_sqrt m') as Hs. pose proof (Z.sqrt_nonneg m') as Hn.
  destruct (Z.sqrtrem m') as [q r]. simpl in Hs. subst q.
  by apply signed_nonneg, binary_round_aux_signed.
Qed.

Lemma double_to_float_nonneg (x : spec_float) : nonneg x -> nonneg (double_to_float x).
Proof.
  destruct x as [sx|sx| |sx mx ex]; simpl; try done.
  intros ->. apply signed_nonneg, binary_round_signed.
Qed.

(** ** Conversion of point counts to [double] *)

Lemma digits2_pos_iter_xO (p d : positive) :
  digits2_pos (Pos.iter xO p d) = (digits2_pos p + d)%positive.
Proof.
  induction d as [|d IH] using Pos.peano_ind.
  - simpl. lia.
  - rewrite Pos.iter_succ. simpl. rewrite IH. lia.
Qed.

Lemma digits2_pos_bound (p : positive) (k : Z) :
  (Z.pos p < 2 ^ k)%Z -> (0 <= k)%Z -> (Z.pos (digits2_pos p) <= k)%Z.
Proof.
  revert k. induction p as [p IH|p IH|]; intros k Hp Hk; simpl.
  - assert (k <> 0)%Z by (intros ->; simpl in Hp; lia).
    replace k with (Z.succ (k - 1)) in Hp by lia.
    rewrite Z.pow_succ_r in Hp by lia.
    specialize (IH (k - 1)%Z ltac:(lia) ltac:(lia)). lia.
  - assert (k <> 0)%Z by (intros ->; simpl in Hp; lia).
    replace k with (Z.succ (k - 1)) in Hp by lia.
    rewrite Z.pow_succ_r in Hp by lia.
    specialize (IH (k - 1)%Z ltac:(lia) ltac:(lia)). lia.
  - assert (k <> 0)%Z by (intros ->; simpl in Hp; lia). lia.
Qed.

Lemma binary_round_aux_canonical (sx : bool) (mz : positive) (ez : Z) :
  Z.pos (digits2_pos mz) = F64.prec -> (-1074 <= ez <= 971)%Z ->
  binary_round_aux F64.prec F64.emax sx (Z.pos mz) ez loc_Exact = S754_finite sx mz ez.
Proof.
  intros Hd He. unfold binary_round_aux, shr_fexp, fexp, emin. simpl Zdigits2.
  rewrite Hd. unfold F64.prec, F64.emax in *.
  replace (Z.max (53 + ez - 53) (3 - 1024 - 53) - ez)%Z with 0%Z by lia.
  simpl. rewrite Hd.
  replace (Z.max (53 + ez - 53) (3 - 1024 - 53) - ez)%Z with 0%Z by lia.
  simpl. destruct (Z.leb_spec ez (1024 - 53)); [done|lia].
Qed.

(** A positive count an [int] holds converts to a positive finite value. *)
Lemma of_int_finite (n : Z) :
  (0 < n < 2 ^ 53)%Z -> exists m e, F64.of_int n = S754_finite false m e.
Proof.
  intros Hn. destruct n as [|p|p]; try lia.
  unfold F64.of_int, binary_normalize, binary_round.
  pose proof (digits2_pos_bound p 53 ltac:(lia) ltac:(lia)) as Hd.
  unfold fexp, emin, F64.prec, F64.emax.
  replace (Z.max (Z.pos (digits2_pos p) + 0 - 53) (3 - 1024 - 53))%Z
    with (Z.pos (digits2_pos p) - 53)%Z by lia.
  unfold shl_align.
  destruct (Z.pos (digits2_pos p) - 53 - 0)%Z as [|d|d] eqn:E; try lia.
  - eexists _, _. apply binary_round_aux_canonical; [unfold F64.prec; lia|lia].
  - eexists _, _. apply binary_round_aux_canonical.
    + rewrite digits2_pos_iter_xO. unfold F64.prec. lia.
    + lia.
Qed.

Lemma div_zero_finite (s : bool) (m : positive) (e : Z) :
  F64.div (S754_zero s) (S754_finite false m e) = S754_zero s.
Proof. by destruct s. Qed.

(** ** The reprojection error *)


Lemma totalCount_cons (op : list Point3f) (sets : list (list Point3f)) :
  totalCount (op :: sets) = (length op + totalCount sets)%nat.
Proof. reflexivity. Qed.

Section ErrorLoop.
Variable reprojNorm :
  list Point3f -> Mat -> Mat -> Mat -> Mat -> list Point2f -> spec_float.
Variable inCal : intrinsicCalibration.

Lemma imageErr_spec (i : nat) (op : list Point3f) :
  objectPoints inCal !! i = Some op ->
  (length (objectPoints inCal) <= length (rvecs inCal))%nat ->
  (length (objectPoints inCal) <= length (tvecs inCal))%nat ->
  (length (objectPoints inCal) <= length (imagePoints inCal))%nat ->
  imageErr reprojNorm inCal i = Ok (residual reprojNorm inCal i op).
Proof.
  intros Hop Hr Ht Hi. pose proof (lookup_lt_Some _ _ _ Hop) as Hlt.
  unfold imageErr, vec_index, residual. rewrite Hop. simpl.
  rewrite (list_lookup_lookup_total_lt (rvecs inCal) i) by lia. simpl.
  rewrite (list_lookup_lookup_total_lt (tvecs inCal) i) by lia. simpl.
  rewrite (list_lookup_lookup_total_lt (imagePoints inCal) i) by lia. done.
Qed.

Lemma errLoop_spec (suf pre : list (list Point3f)) (done_ rest : list spec_float)
    (te : spec_float) (tp : Z) :
  objectPoints inCal = pre ++ suf ->
  (length (objectPoints inCal) <= length (rvecs inCal))%nat ->
  (length (objectPoints inCal) <= length (tvecs inCal))%nat ->
  (length (objectPoints inCal) <= length (imagePoints inCal))%nat ->
  length done_ = length pre -> length rest = length suf ->
  (0 <= tp)%Z -> (tp + Z.of_nat (totalCount suf) < 2 ^ 31)%Z ->
  foldM (errBody reprojNorm inCal) (seq (length pre) (length suf))
        (mkErrState (done_ ++ rest) te tp) =
  Ok (mkErrState (done_ ++ perImageFrom reprojNorm inCal (length pre) suf)
                 (sumSquaresFrom reprojNorm inCal (length pre) suf te)
                 (tp + Z.of_nat (totalCount suf))).
Proof.
  revert pre done_ rest te tp.
  induction suf as [|op suf IH]; intros pre done_ rest te tp Hsets Hr Ht Hi Hd Hrest Htp Hsum.
  - simpl. destruct rest; [|discriminate]. unfold totalCount. simpl.
    by rewrite Z.add_0_r.
  - destruct rest as [|r rest]; [discriminate|]. simpl in Hrest.
    rewrite totalCount_cons in Hsum.
    assert (Hop : objectPoints inCal !! length pre = Some op)
      by (rewrite Hsets; by apply list_lookup_middle).
    simpl. unfold errBody at 1.
    rewrite (imageErr_spec _ _ Hop Hr Ht Hi). simpl.
    unfold vec_index. rewrite Hop. simpl.
    assert (Hn : int_of_size (length op) = Z.of_nat (length op))
      by (apply int_of_size_fits; unfold fits_int; lia).
    rewrite Hn, wrap32_small by lia.
    rewrite <- Hd, insert_app_r_alt, Nat.sub_diag by done. simpl.
    rewrite (cons_middle _ done_ rest), app_assoc.
    assert (Hlen : S (length done_) = length (pre ++ [op]))
      by (rewrite length_app; simpl; lia).
    rewrite Hlen, IH.
    + rewrite <- Hlen, <- app_assoc. simpl.
      rewrite totalCount_cons. do 2 f_equal. lia.
    + by rewrite Hsets, <- app_assoc.
    + done.
    + done.
    + done.
    + rewrite !length_app. simpl. lia.
    + lia.
    + lia.
    + lia.
Qed.

End ErrorLoop.

Lemma totalCount_elem (op : list Point3f) (sets : list (list Point3f)) :
  op ∈ sets -> (length op <= totalCount sets)%nat.
Proof.
  induction sets as [|op' sets IH]; [by intros ?%elem_of_nil|].
  rewrite totalCount_cons. intros [->|Hin]%elem_of_cons; [lia|].
  specialize (IH Hin). lia.
Qed.

Section ErrorProperties.
Variable reprojNorm :
  list Point3f -> Mat -> Mat -> Mat -> Mat -> list Point2f -> spec_float.
Variable inCal : intrinsicCalibration.

Lemma perImageFrom_lookup (sets : list (list Point3f)) (j0 k : nat) :
  perImageFrom reprojNorm inCal j0 sets !! k =
  (fun op => perImage (residual reprojNorm inCal (j0 + k) op) (length op)) <$> sets !! k.
Proof.
  revert j0 k. induction sets as [|op sets IH]; intros j0 k; simpl; [done|].
  destruct k as [|k]; simpl.
  - by rewrite Nat.add_0_r.
  - rewrite IH. by replace (S j0 + k)%nat with (j0 + S k)%nat by lia.
Qed.

Lemma perImage_nonneg (err : spec_float) (n : nat) :
  is_nan err = false -> (0 < n)%nat -> fits_int n -> nonneg (perImage err n).
Proof.
  intros Herr Hn Hfit. unfold perImage, fits_int in *.
  destruct (of_int_finite (Z.of_nat n)) as (m & e & ->); [lia|].
  by apply double_to_float_nonneg, sqrt_nonneg, div_nonneg, mul_self_nonneg.
Qed.

Lemma sumSquaresFrom_nonneg (sets : list (list Point3f)) (j0 : nat) (acc : spec_float) :
  (forall k op, sets !! k = Some op ->
                is_nan (residual reprojNorm inCal (j0 + k) op) = false) ->
  nonneg acc -> nonneg (sumSquaresFrom reprojNorm inCal j0 sets acc).
Proof.
  revert j0 acc. induction sets as [|op sets IH]; intros j0 acc Hres Hacc; simpl; [done|].
  apply IH.
  - intros k op' Hk. replace (S j0 + k)%nat with (j0 + S k)%nat by lia. by apply Hres.
  - apply add_nonneg; [done|]. apply mul_self_nonneg.
    specialize (Hres 0%nat op eq_refl). by rewrite Nat.add_0_r in Hres.
Qed.

Lemma sumSquaresFrom_zero (sets : list (list Point3f)) (j0 : nat) :
  (forall k op, sets !! k = Some op ->
                is_zero (residual reprojNorm inCal (j0 + k) op) = true) ->
  sumSquaresFrom reprojNorm inCal j0 sets F64.zero = F64.zero.
Proof.
  revert j0. induction sets as [|op sets IH]; intros j0 Hres; [done|].
  cbn [sumSquaresFrom].
  specialize (Hres 0%nat op eq_refl) as H0. rewrite Nat.add_0_r in H0.
  destruct (residual reprojNorm inCal j0 op) as [s| | |]; try discriminate.
  replace (F64.add F64.zero (F64.mul (S754_zero s) (S754_zero s))) with F64.zero
    by by destruct s.
  apply IH. intros k op' Hk.
  replace (S j0 + k)%nat with (j0 + S k)%nat by lia. by apply Hres.
Qed.

Lemma computeReprojectionErrors_run :
  reproj_ready inCal ->
  computeReprojectionErrors reprojNorm inCal =
  Ok (set_errors inCal (perImageFrom reprojNorm inCal 0 (objectPoints inCal))
                 (totalAvgErr inCal),
      F64.sqrt (F64.div (sumSquaresFrom reprojNorm inCal 0 (objectPoints inCal) F64.zero)
                        (F64.of_int (Z.of_nat (totalCount (objectPoints inCal)))))).
Proof.
  intros (Hr & Ht & Hi & HfN & HfT).
  unfold computeReprojectionErrors.
  rewrite (int_of_size_fits _ HfN). unfold for_int. rewrite Nat2Z.id.
  pose proof (errLoop_spec reprojNorm inCal (objectPoints inCal) []
                [] (resize (length (objectPoints inCal)) F32.zero (reprojErrs inCal))
                F64.zero 0 eq_refl Hr Ht Hi eq_refl) as Hloop.
  simpl in Hloop. rewrite Hloop; [done| |lia|].
  - by rewrite length_resize.
  - unfold fits_int in HfT. lia.
Qed.

(** C5, as amended. When every image has its pose and its image set and the
    counts are within [int], [computeReprojectionErrors] returns normally;
    the error it stores for an image with norm [err] and [n] points is
    [sqrt(err*err/n)], as a [float]; the average it returns is the square
    root of the sum of all [err*err] over the number of all points. The
    stored error of an image is non-negative when its norm is not NaN and it
    has at least one point; the average is non-negative when no norm is NaN
    and there is at least one point in all; the average is zero when every
    norm is zero and there is at least one point in all. *)
Theorem computeReprojectionErrors_rms :
  reproj_ready inCal ->
  let sets := objectPoints inCal in
  exists errors avg,
    computeReprojectionErrors reprojNorm inCal =
      Ok (set_errors inCal errors (totalAvgErr inCal), avg) /\
    errors = perImageFrom reprojNorm inCal 0 sets /\
    avg = F64.sqrt (F64.div (sumSquaresFrom reprojNorm inCal 0 sets F64.zero)
                            (F64.of_int (Z.of_nat (totalCount sets)))) /\
    (forall i op, sets !! i = Some op ->
       errors !! i = Some (perImage (residual reprojNorm inCal i op) (length op)) /\
       (is_nan (residual reprojNorm inCal i op) = false -> (0 < length op)%nat ->
        F64.leb F64.zero (perImage (residual reprojNorm inCal i op) (length op)) = true)) /\
    ((forall i op, sets !! i = Some op ->
                   is_nan (residual reprojNorm inCal i op) = false) ->
     (0 < totalCount sets)%nat -> F64.leb F64.zero avg = true) /\
    ((forall i op, sets !! i = Some op ->
                   is_zero (residual reprojNorm inCal i op) = true) ->
     (0 < totalCount sets)%nat -> avg = F64.zero).
Proof.
  intros Hready sets.
  pose proof Hready as (Hr & Ht & Hi & HfN & HfT).
  exists (perImageFrom reprojNorm inCal 0 sets),
         (F64.sqrt (F64.div (sumSquaresFrom reprojNorm inCal 0 sets F64.zero)
                            (F64.of_int (Z.of_nat (totalCount sets))))).
  assert (Hfin : (0 < totalCount sets)%nat ->
                 exists m e, F64.of_int (Z.of_nat (totalCount sets)) = S754_finite false m e).
  { intros Hpos. apply of_int_finite. unfold fits_int in HfT. fold sets in HfT. lia. }
  split; [|split; [done|split; [done|split; [|split]]]].
  - by apply computeReprojectionErrors_run.
  - intros i op Hop. rewrite perImageFrom_lookup, Hop. split; [done|].
    intros Hnan Hpos. apply nonneg_leb, perImage_nonneg; [done|done|].
    unfold fits_int in *. fold sets in HfT.
    assert (length op <= totalCount sets)%nat; [|lia].
    apply totalCount_elem. by eapply list_elem_of_lookup_2.
  - intros Hres Hpos. destruct (Hfin Hpos) as (m & e & ->).
    apply nonneg_leb, sqrt_nonneg, div_nonneg. by apply sumSquaresFrom_nonneg.
  - intros Hres Hpos. destruct (Hfin Hpos) as (m & e & ->).
    rewrite sumSquaresFrom_zero by done. reflexivity.
Qed.

End ErrorProperties.

(** ** The Plane Unifier *)


(** C2. For the plane label found at [s.planeList[index]], [getIntPoints]
    maps the points one by one, in order: under XY to
    [((x+1000)/125, (y+1000)/125, 0)], under YZ to
    [(0, (y+1000)/125, (-x+1000)/125)], under XZ to
    [((x+1000)/125, 0, (-y+1000)/125)], in [float] arithmetic. The local
    point (0,0,0) becomes (8,8,0) under XY and (0,8,8) under YZ, and these
    two points are not equal. *)
Theorem getIntPoints_affine (s : Settings) (points : list Point3f) (index : nat)
    (plane : string) :
  planeList s !! index = Some plane ->
  (plane = "XY"%string ->
   getIntPoints s points index =
   Ok ((fun p => mkPoint3f (shifted (px p)) (shifted (py p)) (F32.of_int 0)) <$> points)) /\
  (plane = "YZ"%string ->
   getIntPoints s points index =
   Ok ((fun p => mkPoint3f (F32.of_int 0) (shifted (py p)) (shifted (F32.opp (px p))))
         <$> points)) /\
  (plane = "XZ"%string ->
   getIntPoints s points index =
   Ok ((fun p => mkPoint3f (shifted (px p)) (F32.of_int 0) (shifted (F32.opp (py p))))
         <$> points)) /\
  getIntPoints_plane "XY" [Point3f_of_ints 0 0 0] = [Point3f_of_ints 8 8 0] /\
  getIntPoints_plane "YZ" [Point3f_of_ints 0 0 0] = [Point3f_of_ints 0 8 8] /\
  Point3f_eqb (Point3f_of_ints 8 8 0) (Point3f_of_ints 0 8 8) = false.
Proof.
  intros Hplane. unfold getIntPoints, vec_index. rewrite Hplane. simpl.
  repeat split; try (intros ->; unfold getIntPoints_plane; simpl;
                     by rewrite push_each_app);
    by vm_compute.
Qed.

(** C4, as amended. For a plane label outside XY, YZ and XZ, [getIntPoints]
    reports no error: whatever the input points it returns the empty
    sequence (and [drawArucoMarkers] falls back to corner 3). *)
Theorem getIntPoints_unknown_plane (s : Settings) (points : list Point3f) (index : nat)
    (plane : string) :
  planeList s !! index = Some plane -> ~ known_plane plane ->
  getIntPoints s points index = Ok [] /\ drawArucoMarkers_corner plane = 3%Z.
Proof.
  intros Hplane Hunknown. unfold getIntPoints, vec_index. rewrite Hplane. simpl.
  unfold getIntPoints_plane, drawArucoMarkers_corner, known_plane in *.
  destruct (String.eqb_spec plane "XY"); [tauto|].
  destruct (String.eqb_spec plane "YZ"); [tauto|].
  destruct (String.eqb_spec plane "XZ"); [tauto|]. done.
Qed.

(** ** The solve wrappers *)

Lemma sharedStep_same_intrinsics (st st' : intrinsicCalibration * intrinsicCalibration)
    (i : nat) :
  sharedStep st i = Ok st' -> same_intrinsics st.1 st'.1 /\ same_intrinsics st.2 st'.2.
Proof.
  destruct st as [A B]. unfold sharedStep.
  repeat (match goal with
          | |- context [vec_at ?l ?i] => destruct (vec_at l i); [|discriminate]; simpl
          end).
  destruct (for_int _ _ _); [|discriminate]. simpl. intros [= <-]. done.
Qed.

Lemma getSharedPoints_same_intrinsics (A B A' B' : intrinsicCalibration) :
  getSharedPoints A B = Ok (A', B') -> same_intrinsics A A' /\ same_intrinsics B B'.
Proof.
  unfold getSharedPoints, for_int. intros Hrun.
  eapply (foldM_invariant
            (fun st => same_intrinsics A st.1 /\ same_intrinsics B st.2)
            sharedStep _ (A, B) (A', B')); [| |exact Hrun].
  - intros st i st' [H1 H2] _ Hstep.
    destruct (sharedStep_same_intrinsics _ _ _ Hstep) as [H1' H2'].
    split; eapply same_intrinsics_trans; eauto.
  - split; apply same_intrinsics_refl.
Qed.

Lemma same_intrinsics_fields (c c' : intrinsicCalibration) :
  same_intrinsics c c' ->
  cameraMatrix c' = cameraMatrix c /\ distCoeffs c' = distCoeffs c.
Proof. unfold same_intrinsics. intros ->. done. Qed.

Section SolverProperties.
Variable reprojNorm :
  list Point3f -> Mat -> Mat -> Mat -> Mat -> list Point2f -> spec_float.
Variable calibrateCamera : calibrateArgs -> Mat * Mat * list Mat * list Mat.
Variable stereoCalibrate : stereoArgs -> Mat * Mat * Mat * Mat * spec_float.
Variable stereoRectify :
  rectifyArgs -> Mat * Mat * Mat * Mat * Mat * list (Z * Z * Z * Z).
Variable checkRange : Mat -> bool.


End SolverProperties.

(** ** Examples, witnesses and counterexamples *)

Ltac solve_fits := unfold fits_int; simpl; lia.

Ltac solve_matchable :=
  unfold matchable, well_formed, sets_aligned, collection_fits; simpl;
  repeat split; repeat constructor; solve_fits.

(** The scenario of the specification: of the markers 1, 2, 3 and 2, 3, 4
    the two cameras share 2 and 3, in that order in both outputs. *)
Example getSharedPoints_scenario :
  getSharedPoints exA exB =
  Ok (calibrationOf [[P2 20 20; P2 30 30]] [[P3 2 0 0; P3 3 0 0]],
      calibrationOf [[P2 21 21; P2 31 31]] [[P3 2 0 0; P3 3 0 0]]).
Proof. vm_compute. reflexivity. Qed.

Lemma getSharedPoints_shared_witness :
  matchable exA exB /\
  exists A' B',
    getSharedPoints exA exB = Ok (A', B') /\
    sizes (A', B') = sizes (exA, exB) /\
    forall i oa ob ia ib,
      rows (exA, exB) i = (Some oa, Some ob, Some ia, Some ib) ->
      exists so si si2,
        rows (A', B') i = (Some so, Some so, Some si, Some si2) /\
        length si = length so /\ length si2 = length so /\
        so = filter (fun p => present p ob = true) oa /\
        (forall r, present r so = true <-> present r oa = true /\ present r ob = true) /\
        (forall k p, so !! k = Some p ->
           exists j s q, oa !! j = Some p /\ si !! k = ia !! j /\
                         ob !! s = Some q /\ Point3f_eqb p q = true /\
                         si2 !! k = ib !! s).
Proof.
  assert (H : matchable exA exB) by solve_matchable.
  split; [exact H|]. exact (getSharedPoints_shared exA exB H).
Defined.

Lemma getIntPoints_affine_witness :
  planeList exBox !! 1%nat = Some "YZ"%string /\
  getIntPoints exBox [P3 0 0 0; P3 125 250 0] 1 = Ok [P3 0 8 8; P3 0 10 7].
Proof.
  split; [reflexivity|].
  destruct (getIntPoints_affine exBox [P3 0 0 0; P3 125 250 0] 1 "YZ" eq_refl)
    as (_ & H & _).
  rewrite (H eq_refl). vm_compute. reflexivity.
Defined.

(** The division is the one of [float]: a coordinate that is no multiple of
    125 does not become an integer. *)
Example getIntPoints_not_integral :
  getIntPoints_plane "XY" [P3 1 0 0] <> [P3 8 8 0] /\
  px (unifyXY (P3 1 0 0)) = S754_finite false 8396997 (-20).
Proof. split; [by vm_compute|]. vm_compute. reflexivity. Qed.

(** C3, the claim as stated fails: in a run with one camera, an image whose
    chessboard is not found adds no set to the collection, neither in
    [chessboardDetect] nor in the driver. *)
Lemma detection_miss_counterexample :
  mode exChess = INTRINSIC /\
  imagePoints (chessboardDetect exChess exMiss emptyCalibration) = [] /\
  imagePoints (chessboardDetect exChess exMiss emptyCalibration)
    <> imagePoints emptyCalibration ++ [[]] /\
  (exists st, detectAll exChess [exMiss] = Ok st /\
              imagePoints (dInCal st) = [] /\ objectPoints (dInCal st) = []).
Proof.
  split; [reflexivity|]. split; [reflexivity|]. split; [discriminate|].
  eexists. split; [vm_compute; reflexivity|]. split; reflexivity.
Qed.


(** C4, the claim as stated fails: with the label "AB" [getIntPoints]
    returns, and what it returns is the empty sequence. *)
Lemma getIntPoints_unknown_plane_counterexample :
  planeList exBadPlane !! 0%nat = Some "AB"%string /\
  ~ known_plane "AB" /\
  getIntPoints exBadPlane [P3 0 0 0] 0 = Ok [] /\
  forall e, getIntPoints exBadPlane [P3 0 0 0] 0 <> Throw e.
Proof.
  split; [reflexivity|]. split.
  - intros [H|[H|H]]; discriminate.
  - split; [reflexivity|]. intros e. discriminate.
Qed.

Lemma getIntPoints_unknown_plane_witness :
  getIntPoints exBadPlane [P3 0 0 0; P3 125 0 0] 0 = Ok [] /\
  drawArucoMarkers_corner "AB" = 3%Z.
Proof.
  apply (getIntPoints_unknown_plane exBadPlane [P3 0 0 0; P3 125 0 0] 0 "AB").
  - reflexivity.
  - intros [H|[H|H]]; discriminate.
Defined.

Ltac solve_ready :=
  unfold reproj_ready, fits_int; simpl; repeat split; lia.

(** C5, the claim as stated fails: for a collection whose only image has no
    point (and a zero norm, nothing being off its reprojection) the stored
    error and the average are NaN, neither non-negative nor zero; so is the
    average of a collection without images. *)
Lemma computeReprojectionErrors_counterexample :
  reproj_ready exNoPoints /\
  computeReprojectionErrors (fun _ _ _ _ _ _ => F64.zero) exNoPoints =
    Ok (set_errors exNoPoints [S754_nan] F64.zero, S754_nan) /\
  F64.leb F64.zero S754_nan = false /\
  F64.eqb S754_nan F64.zero = false /\
  computeReprojectionErrors (fun _ _ _ _ _ _ => F64.zero) emptyCalibration =
    Ok (emptyCalibration, S754_nan).
Proof.
  split; [solve_ready|]. split; [vm_compute; reflexivity|].
  split; [reflexivity|]. split; [reflexivity|]. vm_compute. reflexivity.
Qed.

(** Two images with norms 0 and 3, of one and four points: the stored errors
    are 0 and 1.5, their mean is 0.75, and the average returned is
    [sqrt(9/5)], not that mean. *)
Example computeReprojectionErrors_weighted :
  exists c avg,
    computeReprojectionErrors exNorm exSolved = Ok (c, avg) /\
    reprojErrs c = [F32.zero; S754_finite false 12582912 (-23)] /\
    avg = S754_finite false 6042212946145891 (-52) /\
    F64.eqb avg (S754_finite false 6755399441055744 (-53)) = false.
Proof.
  eexists _, _. split; [vm_compute; reflexivity|]. repeat split.
Qed.

Lemma computeReprojectionErrors_rms_witness :
  reproj_ready exSolved /\
  exists errors avg,
    computeReprojectionErrors exNorm exSolved =
      Ok (set_errors exSolved errors (totalAvgErr exSolved), avg) /\
    errors !! 1%nat = Some (perImage (F64.of_int 3) 4) /\
    F64.leb F64.zero avg = true.
Proof.
  assert (H : reproj_ready exSolved) by solve_ready.
  split; [exact H|].
  destruct (computeReprojectionErrors_rms exNorm exSolved H)
    as (errors & avg & Hrun & _ & _ & Hper & Havg & _).
  exists errors, avg. split; [exact Hrun|]. split.
  - apply (Hper 1%nat [P3 0 0 0; P3 1 0 0; P3 0 1 0; P3 1 1 0] eq_refl).
  - apply Havg.
    + intros [|[|i]] op; simpl; intros [=]; subst; reflexivity.
    + unfold totalCount. simpl. lia.
Defined.

(** C6, the claim as stated fails: the scan restarts at position 0 for
    every point of A, so the single point of B's set is matched for both
    points of A's set and B's output holds its image point twice. *)
Lemma getSharedPoints_first_match_counterexample :
  matchable exDup exOnce /\
  getSharedPoints exDup exOnce =
    Ok (exDup, calibrationOf [[P2 7 7; P2 7 7]] [[P3 1 0 0; P3 1 0 0]]) /\
  sharedPairs [P3 1 0 0; P3 1 0 0] [P3 1 0 0] 0 = [(0, 0); (1, 0)]%nat /\
  ~ NoDup ([(0, 0); (1, 0)]%nat).*2.
Proof.
  split; [solve_matchable|]. split; [vm_compute; reflexivity|].
  split; [vm_compute; reflexivity|].
  simpl. intros H. apply NoDup_cons in H as [Hin _]. apply Hin. by left.
Qed.

(** C7, the claim as stated fails: matched with itself, a set that holds an
    object point twice comes back with the first image point in both places
    for the second camera, and a set whose point has a NaN coordinate comes
    back empty. *)
Lemma getSharedPoints_same_counterexample :
  well_formed exDup /\ collection_fits exDup /\
  getSharedPoints exDup exDup =
    Ok (exDup, calibrationOf [[P2 1 1; P2 1 1]] [[P3 1 0 0; P3 1 0 0]]) /\
  getSharedPoints exDup exDup <> Ok (exDup, exDup) /\
  getSharedPoints exNaN exNaN = Ok (calibrationOf [[]] [[]], calibrationOf [[]] [[]]).
Proof.
  split; [repeat constructor|]. split; [split; [solve_fits|repeat constructor; solve_fits]|].
  split; [vm_compute; reflexivity|].
  split; [vm_compute; intros [=]|]. vm_compute. reflexivity.
Qed.

Lemma getSharedPoints_same_witness : getSharedPoints exA exA = Ok (exA, exA).
Proof.
  apply (getSharedPoints_same exA).
  - repeat constructor.
  - split; [solve_fits|repeat constructor; solve_fits].
  - repeat constructor.
    intros [|[|[|j]]] [|[|[|k]]] p q; simpl; intros [= <-] [= <-]; vm_compute;
      intros H; try reflexivity; discriminate.
Defined.

(** An image of the box rig with one marker seen per plane: twelve aligned
    correspondences, the object points unified plane by plane. *)
Example arucoDetect_box :
  exists c, arucoDetect exBox exHit exSized 0 = Ok c /\
            (length <$> imagePoints c) = [12%nat] /\
            (length <$> objectPoints c) = [12%nat] /\
            objectPoints c !! 0%nat ≫= (.!! 5%nat) = Some (P3 0 8 7).
Proof. eexists. split; [vm_compute; reflexivity|]. repeat split. Qed.



(** ** The driver's detection pass *)


Lemma half_parity (i : nat) :
  i = (2 * (i / 2) + (if Nat.odd i then 1 else 0))%nat.
Proof.
  destruct (Nat.Even_or_Odd i) as [[k ->]|[k ->]].
  - rewrite Nat.odd_even, (Nat.mul_comm 2 k), Nat.div_mul by lia. lia.
  - rewrite Nat.odd_odd, (Nat.mul_comm 2 k), Nat.div_add_l by lia.
    change (1 / 2)%nat with 0%nat. lia.
Qed.

Lemma slot_injective (s : Settings) (i i' : nat) :
  slotCamera s i = slotCamera s i' -> slotIndex s i = slotIndex s i' -> i = i'.
Proof.
  unfold slotCamera, slotIndex. destruct (stereo s); [|by intros _ H].
  rewrite !andb_true_l. intros Hodd Hdiv.
  rewrite (half_parity i), (half_parity i'), Hodd, Hdiv. done.
Qed.

Lemma indexBefore_step (s : Settings) (i : nat) :
  (if Nat.even i then (indexBefore s i + 1)%Z
   else if stereo s then indexBefore s i else (indexBefore s i + 1)%Z)
  = Z.of_nat (slotIndex s i) /\
  indexBefore s (S i) = Z.of_nat (slotIndex s i).
Proof.
  unfold indexBefore, slotIndex. destruct (stereo s).
  - rewrite Nat2Z.inj_div. change (Z.of_nat 2) with 2%Z. split.
    + destruct (Nat.even i) eqn:E.
      * apply Nat.even_spec in E as [k ->].
        rewrite Nat2Z.inj_mul. change (Z.of_nat 2) with 2%Z.
        replace (2 * Z.of_nat k - 1)%Z with (1 + (Z.of_nat k - 1) * 2)%Z by lia.
        rewrite Z.div_add by lia. rewrite Z.mul_comm, Z.div_mul by lia.
        change (1 / 2)%Z with 0%Z. lia.
      * assert (Ho : Nat.odd i = true) by (rewrite <- Nat.negb_even, E; done).
        apply Nat.odd_spec in Ho as [k ->].
        rewrite Nat2Z.inj_add, Nat2Z.inj_mul. change (Z.of_nat 2) with 2%Z.
        change (Z.of_nat 1) with 1%Z.
        replace (2 * Z.of_nat k + 1 - 1)%Z with (Z.of_nat k * 2)%Z by lia.
        replace (2 * Z.of_nat k + 1)%Z with (1 + Z.of_nat k * 2)%Z by lia.
        rewrite Z.div_add, Z.div_mul by lia. change (1 / 2)%Z with 0%Z. lia.
    + f_equal. lia.
  - destruct (Nat.even i); lia.
Qed.

Lemma camera_driverAfter (st : driverState) (b b' : bool) (k : nat)
    (c : intrinsicCalibration) :
  camera (driverAfter st b k c) b' = if Bool.eqb b' b then c else camera st b'.
Proof. by destruct b, b'. Qed.

Section DriverAruco.
Variable s : Settings.
Variable images : list detection.
Hypothesis Hpattern : Pattern_eqb (calibrationPattern s) CHESSBOARD = false.
Hypothesis Hconfigs : (Z.to_nat (nConfigs s) <= length (configList s))%nat.
Hypothesis Hplanes : (Z.to_nat (nConfigs s) <= length (planeList s))%nat.
Hypothesis Hmaps : Forall (Forall four_points) (configList s).
Hypothesis Hmarkers :
  Forall (fun d => forall j, Forall four_corners (detectedMarkers d j)) images.

Lemma driverStep_unfold (st : driverState) (i : nat) (d : detection) :
  vectorIndex st = indexBefore s i ->
  (stereo s = false -> currentIsSecond st = false) ->
  driverStep s st i d =
  do c <- arucoDetect s d (camera st (slotCamera s i)) (Z.of_nat (slotIndex s i));
  Ok (driverAfter st (slotCamera s i) (slotIndex s i) c).
Proof.
  intros Hvi Hcur. unfold driverStep. rewrite Hpattern.
  destruct (indexBefore_step s i) as [Hstep _]. rewrite <- Hvi in Hstep.
  unfold slotCamera, driverAfter, camera. fold (stereo s).
  rewrite <- Nat.negb_even.
  destruct (Nat.even i); simpl.
  - rewrite andb_false_r, Hstep. done.
  - destruct (stereo s) eqn:Es; simpl.
    + rewrite Hstep. done.
    + rewrite (Hcur eq_refl), Hstep. done.
Qed.

Lemma driverStep_aruco (st : driverState) (i : nat) (d : detection) :
  driver_inv s images i st -> images !! i = Some d ->
  (slotIndex s i < driverSize s)%nat ->
  exists st', driverStep s st i d = Ok st' /\ driver_inv s images (S i) st'.
Proof.
  intros (Hvi & Hcur & Hcams & Hfree & Hmiss) Hd Hslot.
  rewrite (driverStep_unfold st i d Hvi Hcur).
  set (b := slotCamera s i). set (k := slotIndex s i).
  destruct (Hcams b) as [Hlen Hwf].
  pose proof (Forall2_length _ _ _ Hwf) as Hlen2.
  assert (Hready : aruco_ready s d (camera st b) (Z.of_nat k)).
  { split; [intros _; fold k in Hslot; lia|]. repeat split; auto.
    eapply (proj1 (Forall_forall _ _) Hmarkers). by eapply list_elem_of_lookup_2. }
  destruct (arucoDetect_total s d _ _ Hready) as [c Hrun].
  pose proof (arucoDetect_inv s d _ _ _ Hwf Hrun) as (Hwf' & _ & Hlen' & Hframe).
  rewrite Nat2Z.id in Hframe.
  rewrite Hrun. simpl. eexists. split; [reflexivity|].
  assert (Hother : forall i', i' <> i ->
            slot_empty (camera st (slotCamera s i')) (slotIndex s i') ->
            slot_empty (camera (driverAfter st b k c) (slotCamera s i')) (slotIndex s i')).
  { intros i' Hne Hempty. rewrite camera_driverAfter.
    destruct (Bool.eqb (slotCamera s i') b) eqn:Eb; [|done].
    apply Bool.eqb_prop in Eb.
    assert (Hk : slotIndex s i' <> k).
    { intros Hk. apply Hne. by apply (slot_injective s). }
    destruct (Hframe _ Hk) as [Hi Ho]. rewrite Eb in Hempty.
    unfold slot_empty. by rewrite Hi, Ho. }
  split; [|split; [|split; [|split]]].
  - destruct (indexBefore_step s i) as [_ ->]. unfold driverAfter. by destruct b.
  - intros Es. unfold driverAfter, b, slotCamera. by rewrite Es.
  - intros b'. rewrite camera_driverAfter.
    destruct (Bool.eqb b' b); [|apply Hcams]. split; [congruence|done].
  - intros i' Hi' Hslot'. apply Hother; [lia|]. apply Hfree; [lia|done].
  - intros i' d' Hi' Hd' Hmiss'.
    destruct (decide (i' = i)) as [->|Hne].
    + assert (d' = d) as -> by congruence.
      assert (c = camera st b) as ->.
      { assert (Hrun' : arucoDetect s d (camera st b) (Z.of_nat k) = Ok (camera st b)).
        { apply arucoDetect_unknown; auto. intros _. lia. }
        congruence. }
      rewrite camera_driverAfter.
      destruct (Bool.eqb _ _); (apply (Hfree i); [lia|done]).
    + apply Hother; [done|]. apply (Hmiss i' d'); [lia|done|done].
Qed.

Lemma detectLoop_aruco (suf pre : list detection) (st : driverState) :
  images = pre ++ suf ->
  (forall i, (i < length images)%nat -> (slotIndex s i < driverSize s)%nat) ->
  driver_inv s images (length pre) st ->
  exists st', detectLoop s suf (length pre) st = Ok st' /\
              driver_inv s images (length images) st'.
Proof.
  revert pre st. induction suf as [|d suf IH]; intros pre st Himg Hslots Hinv.
  - simpl. exists st. split; [done|]. rewrite app_nil_r in Himg.
    by replace (length images) with (length pre) by (by rewrite Himg).
  - assert (Hd : images !! length pre = Some d)
      by (rewrite Himg; by apply list_lookup_middle).
    destruct (driverStep_aruco st (length pre) d Hinv Hd) as (st1 & Hstep & Hinv1).
    { apply Hslots. by eapply lookup_lt_Some. }
    simpl. rewrite Hstep. simpl.
    replace (S (length pre)) with (length (pre ++ [d])) in *
      by (rewrite length_app; simpl; lia).
    apply IH; [|done|done]. by rewrite Himg, <- app_assoc.
Qed.

End DriverAruco.

Lemma driverInit_inv (s : Settings) (images : list detection) :
  Pattern_eqb (calibrationPattern s) CHESSBOARD = false ->
  driver_inv s images 0 (driverInit s).
Proof.
  intros Hp. unfold driver_inv, driverInit. rewrite Hp. fold (stereo s). simpl.
  split; [|split; [done|split; [|split]]].
  - unfold indexBefore. by destruct (stereo s).
  - intros b. unfold camera. simpl.
    assert (H : forall c, (if b then c else c) = c :> intrinsicCalibration)
      by by destruct b.
    rewrite H. simpl. rewrite length_replicate. split; [done|].
    by apply Forall2_replicate.
  - intros i' _ Hslot. unfold camera. simpl.
    assert (H : forall c, (if slotCamera s i' then c else c) = c :> intrinsicCalibration)
      by by destruct (slotCamera s i').
    rewrite H. unfold slot_empty. simpl.
    by rewrite !lookup_replicate_2 by exact Hslot.
  - intros i' d Hi'. lia.
Qed.

Lemma slots_in_range (s : Settings) (n i : nat) :
  (Z.of_nat n <= nImages s)%Z ->
  (stereo s = true -> Z.even (nImages s) = true) ->
  (i < n)%nat -> (slotIndex s i < driverSize s)%nat.
Proof.
  intros Hn Heven Hi. unfold slotIndex, driverSize.
  destruct (stereo s); [|lia].
  apply Z.even_spec in Heven as [m Hm]; [|done].
  rewrite Hm, Z.mul_comm, Z.quot_mul by lia.
  apply Nat.Div0.div_lt_upper_bound; lia.
Qed.

Lemma driverStep_chessboard_miss (s : Settings) (st : driverState) (i : nat)
    (d : detection) :
  Pattern_eqb (calibrationPattern s) CHESSBOARD = true -> found d = false ->
  exists st', driverStep s st i d = Ok st' /\
              dInCal st' = dInCal st /\ dInCal2 st' = dInCal2 st.
Proof.
  intros Hp Hf. unfold driverStep, chessboardDetect. rewrite Hp, Hf. simpl.
  eexists. split; [reflexivity|].
  destruct (Nat.even i), (Mode_eqb (mode s) STEREO), (currentIsSecond st); done.
Qed.

(** A stereo ArUco run of two image pairs whose first right image shows no
    marker: both collections keep their two sets, and the set of that image
    is empty. *)
Example detectAll_stereo_miss :
  exists st,
    detectAll (exSettings STEREO ARUCO_BOX ["XY"; "YZ"; "XZ"]%string 4 true)
              [exHit; exMiss; exHit; exHit] = Ok st /\
    (length <$> imagePoints (dInCal st)) = [12; 12]%nat /\
    (length <$> imagePoints (dInCal2 st)) = [0; 12]%nat /\
    (length <$> objectPoints (dInCal2 st)) = [0; 12]%nat.
Proof. eexists. split; [vm_compute; reflexivity|]. repeat split. Qed.

(** ** The invariant of the Point Correspondence Sets *)

Lemma driverStep_well_formed (s : Settings) (st st' : driverState) (i : nat)
    (d : detection) :
  chessboard_contract s d ->
  well_formed (dInCal st) -> well_formed (dInCal2 st) ->
  driverStep s st i d = Ok st' ->
  well_formed (dInCal st') /\ well_formed (dInCal2 st').
Proof.
  intros Hcb Hw1 Hw2. unfold driverStep.
  set (st1 := if Nat.even i then _ else _).
  assert (H1 : dInCal st1 = dInCal st /\ dInCal2 st1 = dInCal2 st)
    by (unfold st1; destruct (Nat.even i), (Mode_eqb (mode s) STEREO); done).
  destruct H1 as [E1 E2]. rewrite E1, E2.
  destruct (Pattern_eqb (calibrationPattern s) CHESSBOARD).
  - simpl. intros [= <-].
    destruct (currentIsSecond st1); simpl; split; auto;
      by apply chessboardDetect_well_formed.
  - destruct (currentIsSecond st1).
    + destruct (arucoDetect _ _ _ _) as [c|] eqn:E; [|discriminate].
      simpl. intros [= <-]. simpl. split; [done|].
      by apply (arucoDetect_inv _ _ _ _ _ Hw2 E).
    + destruct (arucoDetect _ _ _ _) as [c|] eqn:E; [|discriminate].
      simpl. intros [= <-]. simpl. split; [|done].
      by apply (arucoDetect_inv _ _ _ _ _ Hw1 E).
Qed.

Lemma detectLoop_well_formed (s : Settings) (images : list detection) (i : nat)
    (st st' : driverState) :
  Forall (chessboard_contract s) images ->
  well_formed (dInCal st) -> well_formed (dInCal2 st) ->
  detectLoop s images i st = Ok st' ->
  well_formed (dInCal st') /\ well_formed (dInCal2 st').
Proof.
  revert i st. induction images as [|d images IH]; intros i st Hcb Hw1 Hw2; simpl.
  - by intros [= <-].
  - apply Forall_cons in Hcb as [Hd Hcb].
    destruct (driverStep s st i d) as [st1|] eqn:E; [|discriminate]. simpl.
    destruct (driverStep_well_formed _ _ _ _ _ Hd Hw1 Hw2 E) as [Hw1' Hw2'].
    by apply IH.
Qed.

(** ** Failures of [getSharedPoints] *)

Lemma foldM_throw {X S : Type} (P : exn -> Prop) (f : S -> X -> outcome S)
    (l : list X) (s : S) (e : exn) :
  (forall s a e, a ∈ l -> f s a = Throw e -> P e) ->
  foldM f l s = Throw e -> P e.
Proof.
  revert s. induction l as [|a l IH]; intros s Hf; simpl; [discriminate|].
  destruct (f s a) as [s1|e1] eqn:E; simpl.
  - apply IH. intros s2 a2 e2 Ha. apply Hf. by right.
  - intros [= <-]. eapply Hf; [|exact E]. by left.
Qed.

Lemma vec_at_throw {X : Type} (v : list X) (i : nat) (e : exn) :
  vec_at v i = Throw e -> e = out_of_range.
Proof. unfold vec_at. destruct (v !! i); [discriminate|]. by intros [= <-]. Qed.

Lemma scanShared_throw (p : Point3f) (l : list Point3f) (steps shared : nat) (e : exn) :
  scanShared p l steps shared = Throw e -> e = out_of_range.
Proof.
  revert shared. induction steps as [|steps IH]; intros shared; simpl; [discriminate|].
  destruct (vec_at l shared) as [q|e1] eqn:E; simpl.
  - destruct (Point3f_eqb p q); [discriminate|apply IH].
  - intros [= <-]. by eapply vec_at_throw.
Qed.

Lemma sharedBody_throw (oa ob : list Point3f) (ia ib : list Point2f) (bufs : sharedBufs)
    (j : nat) (e : exn) :
  sharedBody oa ob ia ib bufs j = Throw e -> e = out_of_range.
Proof.
  unfold sharedBody.
  destruct (vec_at oa j) as [p|e1] eqn:E1; simpl;
    [|intros [= <-]; by eapply vec_at_throw].
  destruct (scanShared p ob _ 0) as [s|e2] eqn:E2; simpl;
    [|intros [= <-]; by eapply scanShared_throw].
  destruct (_ =? _)%Z; [discriminate|].
  destruct (vec_at ia j) as [a|e3] eqn:E3; simpl;
    [|intros [= <-]; by eapply vec_at_throw].
  destruct (vec_at ib s) as [b|e4] eqn:E4; simpl;
    [discriminate|intros [= <-]; by eapply vec_at_throw].
Qed.

Lemma sharedStep_throw (st : intrinsicCalibration * intrinsicCalibration) (i : nat)
    (e : exn) :
  sharedStep st i = Throw e -> e = out_of_range.
Proof.
  destruct st as [A B]. unfold sharedStep.
  destruct (vec_at (objectPoints A) i) as [oa|e1] eqn:E1; simpl;
    [|intros [= <-]; by eapply vec_at_throw].
  destruct (vec_at (objectPoints B) i) as [ob|e2] eqn:E2; simpl;
    [|intros [= <-]; by eapply vec_at_throw].
  destruct (vec_at (imagePoints A) i) as [ia|e3] eqn:E3; simpl;
    [|intros [= <-]; by eapply vec_at_throw].
  destruct (vec_at (imagePoints B) i) as [ib|e4] eqn:E4; simpl;
    [|intros [= <-]; by eapply vec_at_throw].
  destruct (for_int _ _ _) as [bufs|e5] eqn:E5; simpl; [discriminate|].
  intros [= <-]. unfold for_int in E5.
  eapply (foldM_throw (fun e => e = out_of_range)); [|exact E5].
  intros s a e _. apply sharedBody_throw.
Qed.

(** An iteration that returns found the four sets of its image, and leaves
    the four collections as long as they were. *)
Lemma sharedStep_Ok (st st' : intrinsicCalibration * intrinsicCalibration) (i : nat) :
  sharedStep st i = Ok st' ->
  sizes st' = sizes st /\
  (i < length (objectPoints st.2))%nat /\
  (i < length (imagePoints st.1))%nat /\ (i < length (imagePoints st.2))%nat.
Proof.
  destruct st as [A B]. unfold sharedStep, vec_at. simpl.
  destruct (objectPoints A !! i) as [oa|] eqn:E1; simpl; [|discriminate].
  destruct (objectPoints B !! i) as [ob|] eqn:E2; simpl; [|discriminate].
  destruct (imagePoints A !! i) as [ia|] eqn:E3; simpl; [|discriminate].
  destruct (imagePoints B !! i) as [ib|] eqn:E4; simpl; [|discriminate].
  destruct (for_int _ _ _) as [bufs|e5] eqn:E5; simpl; [|discriminate].
  intros [= <-]. split; [apply (sizes_sharedUpdate (A, B))|].
  apply lookup_lt_Some in E2, E3, E4. auto.
Qed.

Lemma sharedOuter_short (k i : nat) (st : intrinsicCalibration * intrinsicCalibration) :
  (exists x, (i <= x < i + k)%nat /\
             ((length (objectPoints st.2) <= x)%nat \/
              (length (imagePoints st.1) <= x)%nat \/
              (length (imagePoints st.2) <= x)%nat)) ->
  foldM sharedStep (seq i k) st = Throw out_of_range.
Proof.
  revert i st. induction k as [|k IH]; intros i st (x & Hx & Hshort); [lia|].
  simpl. destruct (sharedStep st i) as [st1|e] eqn:E; simpl.
  - destruct (sharedStep_Ok _ _ _ E) as (Hsz & H2 & H3 & H4).
    apply IH. exists x.
    unfold sizes in Hsz. injection Hsz as _ Ho2 Hi1 Hi2.
    rewrite Ho2, Hi1, Hi2.
    split; [|done]. destruct (decide (x = i)) as [->|]; lia.
  - f_equal. by eapply sharedStep_throw.
Qed.

(** Whenever [getSharedPoints] fails, it is with [std::out_of_range]: every
    element access of the function is a checked [at]. *)
Theorem getSharedPoints_throws (A B : intrinsicCalibration) (e : exn) :
  getSharedPoints A B = Throw e -> e = out_of_range.
Proof.
  unfold getSharedPoints, for_int.
  apply (foldM_throw (fun e => e = out_of_range)).
  intros s a e' _. apply sharedStep_throw.
Qed.

Lemma getSharedPoints_throws_witness :
  getSharedPoints exA emptyCalibration = Throw out_of_range /\
  out_of_range = out_of_range.
Proof.
  split; [reflexivity|].
  apply (getSharedPoints_throws exA emptyCalibration). reflexivity.
Defined.

(** When the second camera's collection of object sets, or either collection
    of image sets, is shorter than the first camera's collection of object
    sets, [getSharedPoints] throws [std::out_of_range]. *)
Theorem getSharedPoints_short (A B : intrinsicCalibration) :
  fits_int (length (objectPoints A)) ->
  (length (objectPoints B) < length (objectPoints A))%nat \/
  (length (imagePoints A) < length (objectPoints A))%nat \/
  (length (imagePoints B) < length (objectPoints A))%nat ->
  getSharedPoints A B = Throw out_of_range.
Proof.
  intros Hfit Hshort. unfold getSharedPoints, for_int.
  rewrite (int_of_size_fits _ Hfit), Nat2Z.id.
  apply sharedOuter_short. simpl.
  destruct Hshort as [H|[H|H]].
  - exists (length (objectPoints B)). split; [lia|]. auto.
  - exists (length (imagePoints A)). split; [lia|]. auto.
  - exists (length (imagePoints B)). split; [lia|]. auto.
Qed.

Lemma getSharedPoints_short_witness :
  getSharedPoints exB2 exA = Throw out_of_range.
Proof.
  apply (getSharedPoints_short exB2 exA).
  - unfold fits_int. simpl. lia.
  - left. simpl. lia.
Defined.

(** ** A second camera with more images *)

Lemma matchable_prefix_rows (A B : intrinsicCalibration) (x : nat) :
  matchable_prefix A B -> (x < length (objectPoints A))%nat ->
  exists oa ob ia ib, rows (A, B) x = (Some oa, Some ob, Some ia, Some ib) /\
                      row_ok oa ob ia ib.
Proof.
  intros (Hlen & HwA & HwB & [_ HfA] & [_ HfB]) Hx. unfold rows. simpl.
  destruct (lookup_lt_is_Some_2 (objectPoints A) x Hx) as [oa Hoa].
  destruct (lookup_lt_is_Some_2 (objectPoints B) x ltac:(lia)) as [ob Hob].
  destruct (Forall2_lookup_r _ _ _ _ _ HwA Hoa) as (ia & Hia & Hla).
  destruct (Forall2_lookup_r _ _ _ _ _ HwB Hob) as (ib & Hib & Hlb).
  exists oa, ob, ia, ib. rewrite Hoa, Hob, Hia, Hib. split; [done|].
  repeat split; auto.
  - eapply (Forall_lookup_1 _ _ _ _ HfA Hoa).
  - eapply (Forall_lookup_1 _ _ _ _ HfB Hob).
Qed.

(** When the second camera holds more sets than the first, [getSharedPoints]
    returns normally and leaves the surplus sets of the second camera as
    they were: they are not matched against anything, and keep all their
    points. *)
Theorem getSharedPoints_surplus (A B : intrinsicCalibration) :
  matchable_prefix A B ->
  exists A' B',
    getSharedPoints A B = Ok (A', B') /\
    sizes (A', B') = sizes (A, B) /\
    forall x, (length (objectPoints A) <= x)%nat ->
      imagePoints B' !! x = imagePoints B !! x /\
      objectPoints B' !! x = objectPoints B !! x.
Proof.
  intros Hm. unfold getSharedPoints, for_int.
  assert (HfA : fits_int (length (objectPoints A))) by apply Hm.
  rewrite (int_of_size_fits _ HfA), Nat2Z.id.
  destruct (sharedOuter_spec (length (objectPoints A)) 0 (A, B))
    as ([A' B'] & Hrun & _ & _ & Hsz & Hout & _).
  { intros x Hx. apply matchable_prefix_rows; [done|lia]. }
  exists A', B'. split; [done|]. split; [done|].
  intros x Hx. specialize (Hout x ltac:(lia)).
  unfold rows in Hout. simpl in Hout. injection Hout as _ Ho _ Hi. done.
Qed.

Lemma getSharedPoints_surplus_witness :
  exists A' B',
    getSharedPoints exA exB2 = Ok (A', B') /\
    imagePoints B' !! 1%nat = Some [P2 5 5] /\
    objectPoints B' !! 1%nat = Some [P3 9 9 9].
Proof.
  assert (Hm : matchable_prefix exA exB2).
  { unfold matchable_prefix, well_formed, sets_aligned, collection_fits; simpl.
    repeat split; repeat constructor; unfold fits_int; simpl; lia. }
  destruct (getSharedPoints_surplus exA exB2 Hm) as (A' & B' & Hrun & _ & Hx).
  exists A', B'. split; [done|].
  destruct (Hx 1%nat) as [Hi Ho]; [simpl; lia|].
  rewrite Hi, Ho. done.
Defined.

(** ** Matching the outputs again, and matching in the other direction *)

Lemma distinct_points_cons (p : Point3f) (l : list Point3f) :
  distinct_points (p :: l) <->
  (forall q, q ∈ l -> Point3f_eqb p q = false) /\ distinct_points l.
Proof.
  unfold distinct_points. split.
  - intros Hd. split.
    + intros q [k Hk]%list_elem_of_lookup_1.
      destruct (Point3f_eqb p q) eqn:E; [|done].
      by specialize (Hd 0%nat (S k) p q eq_refl Hk E).
    + intros j k a b Hj Hk E.
      by specialize (Hd (S j) (S k) a b Hj Hk E) as [= ->].
  - intros [Hp Hd] j k a b Hj Hk E.
    destruct j as [|j], k as [|k]; simpl in Hj, Hk.
    + done.
    + injection Hj as <-. rewrite Hp in E; [done|]. by eapply list_elem_of_lookup_2.
    + injection Hk as <-. rewrite Point3f_eqb_sym, Hp in E; [done|].
      by eapply list_elem_of_lookup_2.
    + f_equal. eauto.
Qed.

Lemma distinct_points_filter (P : Point3f -> Prop) `{!forall p, Decision (P p)}
    (l : list Point3f) :
  distinct_points l -> distinct_points (filter P l).
Proof.
  induction l as [|p l IH]; [done|].
  intros [Hp Hd]%distinct_points_cons. rewrite filter_cons.
  destruct (decide (P p)); [|auto].
  apply distinct_points_cons. split; [|auto].
  intros q [_ Hq]%list_elem_of_filter. auto.
Qed.

Lemma present_no_nan (p : Point3f) (l : list Point3f) : present p l = true -> no_nan p.
Proof. intros (q & _ & E)%present_true. by eapply Point3f_eqb_no_nan. Qed.

Lemma sharedAt_same_objects (oa : list Point3f) (ia ib : list Point2f) :
  length ia = length oa -> length ib = length oa ->
  Forall no_nan oa -> distinct_points oa ->
  sharedAt oa oa ia ib = mkSharedBufs oa ia ib.
Proof.
  intros Hla Hlb Hnan Hd. unfold sharedAt, extendShared. simpl.
  pose proof (sharedPairs_self oa [] Hnan Hd) as Hp. simpl in Hp. rewrite Hp.
  rewrite <- !list_fmap_compose. unfold compose. simpl.
  rewrite fmap_lookup_total_seq.
  rewrite <- Hla at 1. rewrite fmap_lookup_total_seq.
  rewrite <- Hlb. by rewrite fmap_lookup_total_seq.
Qed.

(** A pair of collections on which every image's scan keeps everything is
    returned as it is. *)
Lemma getSharedPoints_fixed (A B : intrinsicCalibration) :
  matchable A B ->
  (forall x oa ob ia ib,
     rows (A, B) x = (Some oa, Some ob, Some ia, Some ib) ->
     sharedAt oa ob ia ib = mkSharedBufs oa ia ib /\ ob = oa) ->
  getSharedPoints A B = Ok (A, B).
Proof.
  intros Hm Hfix.
  destruct (getSharedPoints_run A B Hm) as ([A' B'] & Hrun & Hs1 & Hs2 & Hsz & Hrows).
  rewrite Hrun. f_equal.
  unfold sizes in Hsz. simpl in Hsz. injection Hsz as HlA HlB HlA' HlB'.
  destruct Hm as (Hlen & HwA & HwB & HfA & HfB).
  assert (Hm : matchable A B) by (unfold matchable; auto).
  assert (Hrow : forall x, rows (A', B') x = rows (A, B) x).
  { intros x. destruct (decide (x < length (objectPoints A))%nat) as [Hlt|Hge].
    - destruct (matchable_rows A B x Hm Hlt) as (oa & ob & ia & ib & Hx & Hok).
      rewrite (Hrows _ _ _ _ _ Hx), Hx.
      destruct (Hfix _ _ _ _ _ Hx) as [-> ->]. done.
    - unfold rows. simpl.
      pose proof (Forall2_length _ _ _ HwA) as Hl.
      pose proof (Forall2_length _ _ _ HwB) as Hl2.
      rewrite !(proj2 (lookup_ge_None _ _)) by lia. done. }
  assert (HoA : objectPoints A' = objectPoints A).
  { apply list_eq. intros x. specialize (Hrow x). unfold rows in Hrow. simpl in Hrow.
    congruence. }
  assert (HoB : objectPoints B' = objectPoints B).
  { apply list_eq. intros x. specialize (Hrow x). unfold rows in Hrow. simpl in Hrow.
    congruence. }
  assert (HiA : imagePoints A' = imagePoints A).
  { apply list_eq. intros x. specialize (Hrow x). unfold rows in Hrow. simpl in Hrow.
    congruence. }
  assert (HiB : imagePoints B' = imagePoints B).
  { apply list_eq. intros x. specialize (Hrow x). unfold rows in Hrow. simpl in Hrow.
    congruence. }
  unfold same_intrinsics in Hs1, Hs2. simpl in Hs1, Hs2.
  rewrite Hs1, Hs2, HoA, HoB, HiA, HiB, !set_points_same. done.
Qed.

Lemma fits_int_le (n m : nat) : (n <= m)%nat -> fits_int m -> fits_int n.
Proof. unfold fits_int. lia. Qed.

(** The outputs of [getSharedPoints] can be matched again. *)
Lemma getSharedPoints_matchable (A B A' B' : intrinsicCalibration) :
  matchable A B -> getSharedPoints A B = Ok (A', B') -> matchable A' B'.
Proof.
  intros Hm Hrun.
  destruct (getSharedPoints_well_formed A B A' B' Hm Hrun) as [HwA' HwB'].
  destruct (getSharedPoints_run A B Hm) as (st' & Hrun' & _ & _ & Hsz & Hrows).
  rewrite Hrun in Hrun'. injection Hrun' as <-.
  unfold sizes in Hsz. simpl in Hsz. injection Hsz as HlA HlB HlA' HlB'.
  pose proof Hm as (Hlen & HwA & HwB & [HfA HsA] & [HfB HsB]).
  assert (Hsets : forall x so so2,
            objectPoints A' !! x = Some so -> objectPoints B' !! x = Some so2 ->
            fits_int (length so) /\ fits_int (length so2)).
  { intros x so so2 H1 H2.
    assert (Hx : (x < length (objectPoints A))%nat)
      by (rewrite <- HlA; by eapply lookup_lt_Some).
    destruct (matchable_rows A B x Hm Hx) as (oa & ob & ia & ib & Hrow & Hok).
    specialize (Hrows _ _ _ _ _ Hrow). unfold rows in Hrows. cbn [fst snd] in Hrows.
    assert (so = sharedObjectPoints (sharedAt oa ob ia ib)) as -> by congruence.
    assert (so2 = sharedObjectPoints (sharedAt oa ob ia ib)) as -> by congruence.
    rewrite sharedAt_objects.
    assert (fits_int (length (filter (fun p => present p ob = true) oa))).
    { eapply fits_int_le; [apply length_filter|]. apply Hok. }
    done. }
  unfold matchable, collection_fits. rewrite HlA, HlB.
  repeat split; auto.
  - apply Forall_lookup_2. intros x so Hso.
    assert (Hx : (x < length (objectPoints A'))%nat) by by eapply lookup_lt_Some.
    destruct (lookup_lt_is_Some_2 (objectPoints B') x ltac:(lia)) as [so2 H2].
    by destruct (Hsets x so so2).
  - apply Forall_lookup_2. intros x so2 Hso2.
    assert (Hx : (x < length (objectPoints B'))%nat) by by eapply lookup_lt_Some.
    destruct (lookup_lt_is_Some_2 (objectPoints A') x ltac:(lia)) as [so H1].
    by destruct (Hsets x so so2).
Qed.

(** Matching is idempotent when no set of the first camera holds two equal
    object points: applied to its own outputs, [getSharedPoints] returns
    them unchanged. *)
Theorem getSharedPoints_idempotent (A B A' B' : intrinsicCalibration) :
  matchable A B -> Forall distinct_points (objectPoints A) ->
  getSharedPoints A B = Ok (A', B') ->
  getSharedPoints A' B' = Ok (A', B').
Proof.
  intros Hm Hd Hrun.
  pose proof (getSharedPoints_matchable A B A' B' Hm Hrun) as Hm'.
  apply getSharedPoints_fixed; [done|].
  intros x so so2 si si2 Hrow'.
  destruct (getSharedPoints_run A B Hm) as (st' & Hrun' & _ & _ & Hsz & Hrows).
  rewrite Hrun in Hrun'. injection Hrun' as <-.
  unfold sizes in Hsz. simpl in Hsz. injection Hsz as HlA HlB HlA' HlB'.
  assert (Hx : (x < length (objectPoints A))%nat).
  { rewrite <- HlA. unfold rows in Hrow'. simpl in Hrow'.
    injection Hrow' as H1 _ _ _. by eapply lookup_lt_Some. }
  destruct (matchable_rows A B x Hm Hx) as (oa & ob & ia & ib & Hrow & Hok).
  specialize (Hrows _ _ _ _ _ Hrow). rewrite Hrow' in Hrows.
  assert (so = sharedObjectPoints (sharedAt oa ob ia ib)) as -> by congruence.
  assert (so2 = sharedObjectPoints (sharedAt oa ob ia ib)) as -> by congruence.
  assert (si = sharedImagePoints (sharedAt oa ob ia ib)) as -> by congruence.
  assert (si2 = sharedImagePoints2 (sharedAt oa ob ia ib)) as -> by congruence.
  destruct (sharedAt_lengths oa ob ia ib) as [Hl1 Hl2].
  split; [|done].
  apply sharedAt_same_objects; auto.
  - rewrite sharedAt_objects. apply Forall_forall.
    intros p [Hp _]%list_elem_of_filter. by eapply present_no_nan.
  - rewrite sharedAt_objects. apply distinct_points_filter.
    unfold rows in Hrow. simpl in Hrow. injection Hrow as Hoa _ _ _.
    eapply Forall_lookup_1; eauto.
Qed.

Lemma getSharedPoints_idempotent_witness :
  getSharedPoints (calibrationOf [[P2 20 20; P2 30 30]] [[P3 2 0 0; P3 3 0 0]])
                  (calibrationOf [[P2 21 21; P2 31 31]] [[P3 2 0 0; P3 3 0 0]]) =
  Ok (calibrationOf [[P2 20 20; P2 30 30]] [[P3 2 0 0; P3 3 0 0]],
      calibrationOf [[P2 21 21; P2 31 31]] [[P3 2 0 0; P3 3 0 0]]).
Proof.
  apply (getSharedPoints_idempotent exA exB).
  - unfold matchable, well_formed, sets_aligned, collection_fits; simpl.
    repeat split; repeat constructor; unfold fits_int; simpl; lia.
  - repeat constructor. intros j k p q Hj Hk.
    destruct j as [|[|[|j]]]; simpl in Hj; try discriminate;
      destruct k as [|[|[|k]]]; simpl in Hk; try discriminate;
      injection Hj as <-; injection Hk as <-; try done; vm_compute; discriminate.
  - reflexivity.
Defined.

(** Which object points are kept does not depend on which camera comes
    first: for every image, a point is present (under [==]) in the set
    [getSharedPoints A B] leaves exactly when it is present in the set
    [getSharedPoints B A] leaves. *)
Theorem getSharedPoints_symmetric (A B A' B' B'' A'' : intrinsicCalibration) :
  matchable A B ->
  getSharedPoints A B = Ok (A', B') -> getSharedPoints B A = Ok (B'', A'') ->
  forall i so so', objectPoints A' !! i = Some so -> objectPoints B'' !! i = Some so' ->
  forall r, present r so = present r so'.
Proof.
  intros Hm Hrun Hrun' i so so' Hso Hso' r.
  assert (Hm' : matchable B A).
  { destruct Hm as (Hlen & HwA & HwB & HfA & HfB). unfold matchable. auto. }
  destruct (getSharedPoints_run A B Hm) as (st1 & Hrun1 & _ & _ & Hsz1 & Hrows1).
  destruct (getSharedPoints_run B A Hm') as (st2 & Hrun2 & _ & _ & Hsz2 & Hrows2).
  rewrite Hrun in Hrun1. injection Hrun1 as <-.
  rewrite Hrun' in Hrun2. injection Hrun2 as <-.
  unfold sizes in Hsz1. simpl in Hsz1. injection Hsz1 as HlA _ _ _.
  assert (Hx : (i < length (objectPoints A))%nat)
    by (rewrite <- HlA; by eapply lookup_lt_Some).
  destruct (matchable_rows A B i Hm Hx) as (oa & ob & ia & ib & Hrow & Hok).
  assert (Hrow' : rows (B, A) i = (Some ob, Some oa, Some ib, Some ia)).
  { unfold rows in Hrow |- *. simpl in Hrow |- *. by injection Hrow as -> -> -> ->. }
  specialize (Hrows1 _ _ _ _ _ Hrow). specialize (Hrows2 _ _ _ _ _ Hrow').
  unfold rows in Hrows1, Hrows2. cbn [fst snd] in Hrows1, Hrows2.
  assert (so = sharedObjectPoints (sharedAt oa ob ia ib)) as -> by congruence.
  assert (so' = sharedObjectPoints (sharedAt ob oa ib ia)) as -> by congruence.
  rewrite !sharedAt_objects.
  apply eq_true_iff_eq. rewrite !present_filter. tauto.
Qed.

Lemma getSharedPoints_symmetric_witness :
  present (P3 3 0 0) [P3 2 0 0; P3 3 0 0] = present (P3 3 0 0) [P3 2 0 0; P3 3 0 0].
Proof.
  apply (getSharedPoints_symmetric exA exB
           (calibrationOf [[P2 20 20; P2 30 30]] [[P3 2 0 0; P3 3 0 0]])
           (calibrationOf [[P2 21 21; P2 31 31]] [[P3 2 0 0; P3 3 0 0]])
           (calibrationOf [[P2 21 21; P2 31 31]] [[P3 2 0 0; P3 3 0 0]])
           (calibrationOf [[P2 20 20; P2 30 30]] [[P3 2 0 0; P3 3 0 0]])
           ltac:(unfold matchable, well_formed, sets_aligned, collection_fits; simpl;
                 repeat split; repeat constructor; unfold fits_int; simpl; lia)
           eq_refl eq_refl 0%nat); reflexivity.
Defined.

(** ** The chessboard grid *)

Lemma calcChessboardCorners_rows (s : Settings) (buf : list Point3f) :
  calcChessboardCorners s buf =
  buf ++ concat ((fun i => chessboardCorner (squareSize s) i <$> seqZ 0 (boardSize_width s))
                   <$> seqZ 0 (boardSize_height s)).
Proof.
  unfold calcChessboardCorners.
  generalize (seqZ 0 (boardSize_height s)) as rows_. intros rows_.
  revert buf. induction rows_ as [|i rows_ IH]; intros buf; simpl.
  - by rewrite app_nil_r.
  - rewrite IH, push_each_app. by rewrite <- app_assoc.
Qed.

Lemma lookup_concat_uniform {X : Type} (n : nat) (rows_ : list (list X)) (i j : nat) :
  Forall (fun r => length r = n) rows_ -> (j < n)%nat ->
  concat rows_ !! (i * n + j)%nat = rows_ !! i ≫= (.!! j).
Proof.
  intros Hall Hj. revert i. induction Hall as [|r rest Hr Hrest IH]; intros i.
  - done.
  - simpl. destruct i as [|i]; simpl.
    + apply lookup_app_l. lia.
    + rewrite lookup_app_r by lia.
      replace (n + i * n + j - length r)%nat with (i * n + j)%nat by lia. apply IH.
Qed.

(** [calcChessboardCorners] appends the board row by row: what the buffer
    held stays in front, the corner of row [i] and column [j] follows at
    offset [i * width + j], and nothing is appended when a dimension of the
    board is not positive. *)
Theorem calcChessboardCorners_grid (s : Settings) (buf : list Point3f) :
  (forall k, (k < length buf)%nat -> calcChessboardCorners s buf !! k = buf !! k) /\
  (forall i j, (0 <= i < boardSize_height s)%Z -> (0 <= j < boardSize_width s)%Z ->
     calcChessboardCorners s buf !! (length buf + Z.to_nat (i * boardSize_width s + j))%nat
     = Some (chessboardCorner (squareSize s) i j)) /\
  ((boardSize_height s <= 0)%Z \/ (boardSize_width s <= 0)%Z ->
   calcChessboardCorners s buf = buf).
Proof.
  split; [|split].
  - intros k Hk. rewrite calcChessboardCorners_rows. by apply lookup_app_l.
  - intros i j Hi Hj. rewrite calcChessboardCorners_rows.
    rewrite lookup_app_r by lia.
    replace (length buf + Z.to_nat (i * boardSize_width s + j) - length buf)%nat
      with (Z.to_nat i * Z.to_nat (boardSize_width s) + Z.to_nat j)%nat by nia.
    rewrite (lookup_concat_uniform (Z.to_nat (boardSize_width s))).
    + rewrite list_lookup_fmap, lookup_seqZ_lt by lia. simpl.
      rewrite list_lookup_fmap, lookup_seqZ_lt by lia. simpl.
      by rewrite !Z2Nat.id by lia.
    + apply Forall_fmap, Forall_forall. intros x _. simpl.
      by rewrite length_fmap, length_seqZ.
    + lia.
  - intros Hdim.
    assert (Hlen : length (calcChessboardCorners s buf) = length buf).
    { rewrite calcChessboardCorners_length. nia. }
    rewrite calcChessboardCorners_rows in Hlen |- *.
    rewrite length_app in Hlen.
    destruct (concat _) as [|x l]; [by rewrite app_nil_r|simpl in Hlen; lia].
Qed.

Lemma calcChessboardCorners_grid_witness :
  calcChessboardCorners exChess [P3 9 9 9] !! 3%nat = Some (P3 0 1 0) /\
  calcChessboardCorners exChess [P3 9 9 9] !! 0%nat = Some (P3 9 9 9).
Proof.
  destruct (calcChessboardCorners_grid exChess [P3 9 9 9]) as (Hpre & Hgrid & _).
  split.
  - apply (Hgrid 1 0)%Z; simpl; lia.
  - apply (Hpre 0%nat). simpl. lia.
Defined.

(** ** The correspondences of one marker map *)

Lemma findMarker_mapEntry (map : MarkerMap) (id : Z) (j : nat) :
  match findMarker map id j with
  | Some k => (j <= k)%nat /\ map !! (k - j)%nat = mapEntry map id /\
              is_Some (mapEntry map id)
  | None => mapEntry map id = None
  end.
Proof.
  unfold mapEntry. revert j. induction map as [|info map IH]; intros j; simpl; [done|].
  rewrite filter_cons. destruct (Z.eqb_spec (info_id info) id) as [E|E].
  - rewrite decide_True by done. rewrite Nat.sub_diag. simpl. eauto.
  - rewrite decide_False by done. specialize (IH (S j)).
    destruct (findMarker map id (S j)) as [k|]; [|done].
    destruct IH as (Hk & Hlook & Hsome). split; [lia|]. split; [|done].
    replace (k - j)%nat with (S (k - S j)) by lia. done.
Qed.

Lemma knownMarkers_cons (m : Marker) (markers : list Marker) (map : MarkerMap) :
  knownMarkers (m :: markers) map =
  match mapEntry map (marker_id m) with
  | Some info => (m, info) :: knownMarkers markers map
  | None => knownMarkers markers map
  end.
Proof. unfold knownMarkers. simpl. by destruct (mapEntry map (marker_id m)). Qed.

Lemma pushCorners_closed (m : Marker) (info : Marker3DInfo)
    (ib : list Point2f) (ob : list Point3f) :
  four_corners m -> four_points info ->
  pushCorners m info (ib, ob) =
  Ok (ib ++ take 4 (marker_corners m), ob ++ take 4 (info_points info)).
Proof.
  unfold four_corners, four_points, pushCorners. intros Hm Hi.
  destruct (marker_corners m) as [|c0 [|c1 [|c2 [|c3 cs]]]]; simpl in Hm; try lia.
  destruct (info_points info) as [|o0 [|o1 [|o2 [|o3 os]]]]; simpl in Hi; try lia.
  simpl. by rewrite <- !app_assoc.
Qed.

Lemma calcArucoCorners_loop (map : MarkerMap) (markers : list Marker)
    (ib : list Point2f) (ob : list Point3f) :
  Forall four_corners markers -> Forall four_points map ->
  foldM (fun bufs m =>
           match findMarker map (marker_id m) 0 with
           | Some markerIndex =>
               do info <- vec_index map markerIndex;
               pushCorners m info bufs
           | None => Ok bufs
           end)
        markers (ib, ob) =
  Ok (ib ++ (knownMarkers markers map ≫= fun mi => take 4 (marker_corners mi.1)),
      ob ++ (knownMarkers markers map ≫= fun mi => take 4 (info_points mi.2))).
Proof.
  intros Hm Hmap. revert ib ob.
  induction Hm as [|m markers Hm0 Hms IH]; intros ib ob.
  - simpl. by rewrite !app_nil_r.
  - cbn [foldM]. rewrite knownMarkers_cons.
    pose proof (findMarker_mapEntry map (marker_id m) 0) as Hfind.
    destruct (findMarker map (marker_id m) 0) as [k|].
    + destruct Hfind as (_ & Hk & [info Hinfo]). rewrite Nat.sub_0_r in Hk.
      rewrite Hinfo in Hk |- *. unfold vec_index. rewrite Hk. cbn [obind].
      rewrite pushCorners_closed;
        [|done|eapply Forall_lookup_1; eauto].
      cbn [obind]. rewrite IH. simpl. by rewrite <- !app_assoc.
    + rewrite Hfind. cbn [obind]. apply IH.
Qed.

Lemma knownMarkers_elem (markers : list Marker) (map : MarkerMap) (m : Marker)
    (info : Marker3DInfo) :
  (m, info) ∈ knownMarkers markers map <->
  m ∈ markers /\ mapEntry map (marker_id m) = Some info.
Proof.
  unfold knownMarkers. rewrite list_elem_of_omap. split.
  - intros (m' & Hin & Hsome).
    destruct (mapEntry map (marker_id m')) as [info'|] eqn:E; [|discriminate].
    simpl in Hsome. injection Hsome as -> ->. done.
  - intros [Hin E]. exists m. split; [done|]. by rewrite E.
Qed.

Lemma mapEntry_elem (map : MarkerMap) (id : Z) (info : Marker3DInfo) :
  mapEntry map id = Some info -> info ∈ map /\ info_id info = id.
Proof.
  unfold mapEntry. intros Hhead.
  assert (Hin : info ∈ filter (fun info => info_id info = id) map).
  { destruct (filter _ map) as [|x l]; [discriminate|].
    injection Hhead as ->. by left. }
  apply list_elem_of_filter in Hin as [Hid Hin]. done.
Qed.

Lemma bind_take_length {X Y : Type} (n : nat) (f : X -> list Y) (l : list X) :
  Forall (fun x => (n <= length (f x))%nat) l ->
  length (l ≫= fun x => take n (f x)) = (n * length l)%nat.
Proof.
  induction 1 as [|x l Hx Hl IH]; [simpl; lia|].
  rewrite bind_cons, length_app, length_take, IH. simpl. lia.
Qed.

(** [calcArucoCorners] keeps the detected markers whose identity occurs in
    the map, in detection order: each contributes its first four image
    corners and the first four points of the first map entry with its
    identity, so both buffers hold four points per kept marker. *)
Theorem calcArucoCorners_known (markers : list Marker) (map : MarkerMap) :
  Forall four_corners markers -> Forall four_points map ->
  exists imagePointsBuf objectPointsBuf,
    calcArucoCorners markers map = Ok (imagePointsBuf, objectPointsBuf) /\
    imagePointsBuf = (knownMarkers markers map ≫= fun mi => take 4 (marker_corners mi.1)) /\
    objectPointsBuf = (knownMarkers markers map ≫= fun mi => take 4 (info_points mi.2)) /\
    length imagePointsBuf = (4 * length (knownMarkers markers map))%nat /\
    length objectPointsBuf = (4 * length (knownMarkers markers map))%nat /\
    (forall m info, (m, info) ∈ knownMarkers markers map <->
                    m ∈ markers /\ mapEntry map (marker_id m) = Some info).
Proof.
  intros Hm Hmap. eexists _, _. split; [|split; [reflexivity|split; [reflexivity|]]].
  - unfold calcArucoCorners. by rewrite calcArucoCorners_loop.
  - split; [|split; [|apply knownMarkers_elem]].
    + apply (bind_take_length 4 (fun mi : Marker * Marker3DInfo => marker_corners mi.1)).
      apply Forall_forall. intros [m info] [Hin _]%knownMarkers_elem. simpl.
      by apply (proj1 (Forall_forall _ _) Hm).
    + apply (bind_take_length 4 (fun mi : Marker * Marker3DInfo => info_points mi.2)).
      apply Forall_forall. intros [m info] [_ [Hin _]%mapEntry_elem]%knownMarkers_elem.
      simpl. by apply (proj1 (Forall_forall _ _) Hmap).
Qed.

Lemma calcArucoCorners_known_witness :
  calcArucoCorners [exMarker 9; exMarker 7] exMapTwice =
  Ok ([P2 100 100; P2 200 100; P2 200 200; P2 100 200],
      [P3 2 0 0; P3 3 0 0; P3 3 1 0; P3 2 1 0]).
Proof.
  destruct (calcArucoCorners_known [exMarker 9; exMarker 7] exMapTwice)
    as (ib & ob & Hrun & -> & -> & _).
  - repeat constructor.
  - repeat constructor.
  - exact Hrun.
Defined.

(** ** What [arucoDetect] appends *)

Lemma appendAt_nil (c : intrinsicCalibration) (vi : nat) : appendAt c vi [] [] = c.
Proof.
  unfold appendAt.
  rewrite !list_alter_id by (intros; apply app_nil_r). apply set_points_same.
Qed.

Lemma appendAt_appendAt (c : intrinsicCalibration) (vi : nat)
    (ai ai' : list Point2f) (ao ao' : list Point3f) :
  appendAt (appendAt c vi ai ao) vi ai' ao' = appendAt c vi (ai ++ ai') (ao ++ ao').
Proof.
  unfold appendAt, set_points. simpl. rewrite !list_alter_alter_eq.
  f_equal; apply list_alter_ext; auto; intros x _; simpl; by rewrite <- app_assoc.
Qed.

Lemma appendAt_push (c : intrinsicCalibration) (vi : nat)
    (ai : list Point2f) (ao : list Point3f) :
  set_points c (alter (push_each id ai) vi (imagePoints c))
               (alter (push_each id ao) vi (objectPoints c)) = appendAt c vi ai ao.
Proof.
  unfold appendAt.
  f_equal; apply list_alter_ext; auto; intros x _;
    by rewrite push_each_app, list_fmap_id.
Qed.

(** A pass for one marker map appends the same points wherever it runs. *)
Lemma arucoConfig_append (s : Settings) (d : detection) (j vi : nat)
    (c c' : intrinsicCalibration) :
  arucoConfig s d vi c j = Ok c' ->
  exists ai ao, length ai = length ao /\
    forall vi2 c2, arucoConfig s d vi2 c2 j = Ok (appendAt c2 vi2 ai ao).
Proof.
  unfold arucoConfig.
  destruct (vec_index (configList s) j) as [map|]; [|discriminate]. simpl.
  destruct (calcArucoCorners (detectedMarkers d j) map) as [bufs|] eqn:Hb; [|discriminate].
  simpl. unfold getIntPoints.
  destruct (vec_index (planeList s) j) as [plane|]; [|discriminate]. simpl.
  destruct ((0 <? length (getIntPoints_plane plane bufs.2))%nat
            && negb (Mode_eqb (mode s) PREVIEW)) eqn:E; intros _.
  - exists bufs.1, (getIntPoints_plane plane bufs.2). split.
    + apply andb_true_iff in E as [Hpos%Nat.ltb_lt _].
      destruct (getIntPoints_plane_length plane bufs.2) as [Hnil|Hl].
      * rewrite Hnil in Hpos. simpl in Hpos. lia.
      * rewrite Hl. by apply calcArucoCorners_length in Hb.
    + intros vi2 c2. by rewrite appendAt_push.
  - exists [], []. split; [done|]. intros vi2 c2. by rewrite appendAt_nil.
Qed.

Lemma arucoLoop_append (s : Settings) (d : detection) (js : list nat) (vi : nat)
    (c c' : intrinsicCalibration) :
  foldM (arucoConfig s d vi) js c = Ok c' ->
  exists ai ao, length ai = length ao /\
    forall vi2 c2, foldM (arucoConfig s d vi2) js c2 = Ok (appendAt c2 vi2 ai ao).
Proof.
  revert c. induction js as [|j js IH]; intros c; simpl.
  - intros _. exists [], []. split; [done|]. intros vi2 c2. by rewrite appendAt_nil.
  - destruct (arucoConfig s d vi c j) as [c1|] eqn:E1; [|discriminate]. simpl.
    intros Hrest.
    destruct (arucoConfig_append _ _ _ _ _ _ E1) as (a1 & o1 & Hl1 & H1).
    destruct (IH _ Hrest) as (a2 & o2 & Hl2 & H2).
    exists (a1 ++ a2), (o1 ++ o2). split; [rewrite !length_app; lia|].
    intros vi2 c2. rewrite H1. simpl. rewrite H2. by rewrite appendAt_appendAt.
Qed.

(** [arucoDetect] is its loop over the marker maps once the two pointers
    have been taken. *)
Lemma arucoDetect_loop (s : Settings) (d : detection) (inCal : intrinsicCalibration)
    (vi : Z) :
  (mode s <> PREVIEW -> index_in_range inCal vi) ->
  arucoDetect s d inCal vi =
  foldM (arucoConfig s d (Z.to_nat vi)) (seq 0 (Z.to_nat (nConfigs s))) inCal.
Proof.
  intros Hvi. unfold arucoDetect. by rewrite (arucoDetect_pointers s inCal vi Hvi).
Qed.

Lemma arucoDetect_Ok_loop (s : Settings) (d : detection)
    (inCal inCal' : intrinsicCalibration) (vi : Z) :
  arucoDetect s d inCal vi = Ok inCal' ->
  foldM (arucoConfig s d (Z.to_nat vi)) (seq 0 (Z.to_nat (nConfigs s))) inCal = Ok inCal'.
Proof.
  unfold arucoDetect.
  by destruct (if Mode_eqb (mode s) PREVIEW then _ else _) as [[]|].
Qed.

(** When [arucoDetect] returns, it has appended one sequence of image
    points and an equally long sequence of object points to the two sets at
    [vectorIndex] and changed nothing else; the two sequences depend on the
    settings and on the image only: the same are appended to any other
    calibration at any other position that exists. *)
Theorem arucoDetect_appends (s : Settings) (d : detection)
    (inCal inCal' : intrinsicCalibration) (vi : Z) :
  arucoDetect s d inCal vi = Ok inCal' ->
  exists ai ao,
    length ai = length ao /\
    inCal' = appendAt inCal (Z.to_nat vi) ai ao /\
    forall inCal2 vi2,
      (mode s <> PREVIEW -> index_in_range inCal2 vi2) ->
      arucoDetect s d inCal2 vi2 = Ok (appendAt inCal2 (Z.to_nat vi2) ai ao).
Proof.
  intros Hrun%arucoDetect_Ok_loop.
  destruct (arucoLoop_append _ _ _ _ _ _ Hrun) as (ai & ao & Hl & Hall).
  exists ai, ao. split; [done|]. split.
  - rewrite Hall in Hrun. by injection Hrun as <-.
  - intros inCal2 vi2 Hvi. rewrite (arucoDetect_loop s d inCal2 vi2 Hvi).
    apply Hall.
Qed.

Lemma arucoDetect_appends_witness :
  exists ai ao,
    length ai = length ao /\
    arucoDetect exBox exHit exSized 0 = Ok (appendAt exSized 0 ai ao) /\
    arucoDetect exBox exHit exSized2 1 = Ok (appendAt exSized2 1 ai ao).
Proof.
  destruct (arucoDetect_appends exBox exHit exSized _ 0 eq_refl)
    as (ai & ao & Hl & _ & Hall).
  exists ai, ao. split; [done|]. split.
  - apply (Hall exSized 0%Z). intros _. unfold index_in_range. simpl. lia.
  - apply (Hall exSized2 1%Z). intros _. unfold index_in_range. simpl. lia.
Defined.

(** ** [arucoDetect] in preview mode, with unknown planes, and out of range *)



(** When none of the plane labels in use is one of XY, YZ, XZ, [arucoDetect]
    discards what it detects: it returns the calibration unchanged and
    reports no error. *)
Theorem arucoDetect_unknown_planes (s : Settings) (d : detection)
    (inCal : intrinsicCalibration) (vi : Z) :
  aruco_ready s d inCal vi ->
  (forall j plane, (j < Z.to_nat (nConfigs s))%nat -> planeList s !! j = Some plane ->
                   ~ known_plane plane) ->
  arucoDetect s d inCal vi = Ok inCal.
Proof.
  intros (Hvi & Hc & Hp & Hmaps & Hmarkers) Hplanes. unfold arucoDetect.
  rewrite (arucoDetect_pointers s inCal vi Hvi). simpl. unfold for_int. apply foldM_id.
  intros j Hj%elem_of_seq. unfold arucoConfig, vec_index.
  destruct (lookup_lt_is_Some_2 (configList s) j) as [map Hmap]; [lia|].
  rewrite Hmap. simpl.
  destruct (calcArucoCorners_total (detectedMarkers d j) map) as [bufs ->]; [done| |].
  { eapply Forall_lookup_1; eauto. }
  simpl. unfold getIntPoints, vec_index.
  destruct (lookup_lt_is_Some_2 (planeList s) j) as [plane Hplane]; [lia|].
  rewrite Hplane. simpl.
  assert (Hnil : getIntPoints_plane plane bufs.2 = []).
  { specialize (Hplanes j plane ltac:(lia) Hplane). unfold getIntPoints_plane.
    destruct (String.eqb_spec plane "XY") as [->|_];
      [exfalso; apply Hplanes; left; done|].
    destruct (String.eqb_spec plane "YZ") as [->|_];
      [exfalso; apply Hplanes; right; left; done|].
    destruct (String.eqb_spec plane "XZ") as [->|_];
      [exfalso; apply Hplanes; right; right; done|].
    done. }
  by rewrite Hnil.
Qed.

Lemma arucoDetect_unknown_planes_witness :
  arucoDetect (exSettings INTRINSIC ARUCO_BOX ["xy"; "yz"; "xz"]%string 1 true)
              exHit exSized 0 = Ok exSized.
Proof.
  apply (arucoDetect_unknown_planes
           (exSettings INTRINSIC ARUCO_BOX ["xy"; "yz"; "xz"]%string 1 true)
           exHit exSized 0).
  - unfold aruco_ready. simpl. repeat split; try lia.
    + repeat constructor.
    + intros j. repeat constructor.
  - intros j plane Hj Hplane [ -> | [ -> | -> ] ];
      destruct j as [|[|[|j]]]; simpl in Hplane; discriminate.
Defined.

Lemma arucoDetect_out_of_range (s : Settings) (d : detection)
    (inCal : intrinsicCalibration) (vi : Z) :
  mode s <> PREVIEW -> ~ index_in_range inCal vi ->
  arucoDetect s d inCal vi = Throw out_of_range.
Proof.
  intros Hmode Hout. unfold arucoDetect.
  destruct (mode s) eqn:Em; try done; simpl;
    unfold vec_at_int, vec_at;
    (destruct (Z.ltb_spec vi 0); [done|]);
    (destruct (imagePoints inCal !! Z.to_nat vi) as [x|] eqn:Ei; [|done]);
    (destruct (objectPoints inCal !! Z.to_nat vi) as [y|] eqn:Eo; [|done]);
    exfalso; apply Hout; apply lookup_lt_Some in Ei, Eo;
    unfold index_in_range; lia.
Qed.

Lemma arucoDetect_Ok_range (s : Settings) (d : detection)
    (inCal inCal' : intrinsicCalibration) (vi : Z) :
  mode s <> PREVIEW -> arucoDetect s d inCal vi = Ok inCal' -> index_in_range inCal vi.
Proof.
  intros Hmode Hrun.
  destruct (decide (0 <= vi < Z.of_nat (length (imagePoints inCal)))%Z) as [H1|H1];
    [destruct (decide (vi < Z.of_nat (length (objectPoints inCal)))%Z) as [H2|H2]|].
  - done.
  - rewrite arucoDetect_out_of_range in Hrun; [discriminate|done|].
    unfold index_in_range. tauto.
  - rewrite arucoDetect_out_of_range in Hrun; [discriminate|done|].
    unfold index_in_range. tauto.
Qed.

(** Outside preview mode [arucoDetect] checks [vectorIndex] before it looks
    at the image: an index that is negative or past the end of either
    collection makes it throw [std::out_of_range], and whenever it returns
    the index was within both collections. *)
Theorem arucoDetect_index_checked (s : Settings) (d : detection)
    (inCal : intrinsicCalibration) (vi : Z) :
  mode s <> PREVIEW ->
  (~ index_in_range inCal vi -> arucoDetect s d inCal vi = Throw out_of_range) /\
  (forall inCal', arucoDetect s d inCal vi = Ok inCal' -> index_in_range inCal vi).
Proof.
  intros Hmode. split.
  - by apply arucoDetect_out_of_range.
  - intros inCal'. by apply arucoDetect_Ok_range.
Qed.

Lemma arucoDetect_index_checked_witness :
  arucoDetect exBox exHit exSized 1 = Throw out_of_range /\
  arucoDetect exBox exHit exSized (-1) = Throw out_of_range.
Proof.
  split.
  - apply (arucoDetect_index_checked exBox exHit exSized 1); [discriminate|].
    unfold index_in_range. simpl. lia.
  - apply (arucoDetect_index_checked exBox exHit exSized (-1)); [discriminate|].
    unfold index_in_range. simpl. lia.
Defined.

(** ** The driver's bookkeeping *)

Lemma driverStep_slot (s : Settings) (st : driverState) (i : nat) (d : detection) :
  driver_pos s i st ->
  driverStep s st i d =
  do c <- (if Pattern_eqb (calibrationPattern s) CHESSBOARD
           then Ok (chessboardDetect s d (camera st (slotCamera s i)))
           else arucoDetect s d (camera st (slotCamera s i)) (Z.of_nat (slotIndex s i)));
  Ok (driverAfter st (slotCamera s i) (slotIndex s i) c).
Proof.
  intros [Hvi Hcur]. unfold driverStep.
  destruct (indexBefore_step s i) as [Hstep _]. rewrite <- Hvi in Hstep.
  unfold slotCamera, driverAfter, camera. fold (stereo s).
  rewrite <- Nat.negb_even.
  destruct (Pattern_eqb (calibrationPattern s) CHESSBOARD);
    destruct (Nat.even i); simpl.
  - rewrite andb_false_r, Hstep. done.
  - destruct (stereo s) eqn:Es; simpl.
    + rewrite Hstep. done.
    + rewrite (Hcur eq_refl), Hstep. done.
  - rewrite andb_false_r, Hstep. done.
  - destruct (stereo s) eqn:Es; simpl.
    + rewrite Hstep. done.
    + rewrite (Hcur eq_refl), Hstep. done.
Qed.

Lemma driver_pos_after (s : Settings) (st : driverState) (i : nat)
    (c : intrinsicCalibration) :
  driver_pos s (S i) (driverAfter st (slotCamera s i) (slotIndex s i) c).
Proof.
  split.
  - destruct (indexBefore_step s i) as [_ ->]. unfold driverAfter.
    by destruct (slotCamera s i).
  - intros Es. unfold driverAfter, slotCamera. by rewrite Es.
Qed.

Lemma driver_pos_init (s : Settings) : driver_pos s 0 (driverInit s).
Proof.
  split; [|done]. unfold driverInit, indexBefore. simpl. by destruct (stereo s).
Qed.

(** A property of the loop state that every pass preserves holds when the
    images have run out. *)
Lemma detectLoop_inv (s : Settings) (images : list detection)
    (P : nat -> driverState -> Prop) :
  (forall i d st st', images !! i = Some d -> P i st ->
                      driverStep s st i d = Ok st' -> P (S i) st') ->
  forall suf pre st st',
    images = pre ++ suf -> P (length pre) st ->
    detectLoop s suf (length pre) st = Ok st' -> P (length images) st'.
Proof.
  intros Hstep suf. induction suf as [|d suf IH]; intros pre st st' Himg HP; simpl.
  - intros [= <-]. rewrite app_nil_r in Himg. by rewrite Himg.
  - destruct (driverStep s st (length pre) d) as [st1|] eqn:E; [|discriminate]. simpl.
    assert (Hd : images !! length pre = Some d)
      by (rewrite Himg; by apply list_lookup_middle).
    pose proof (Hstep _ _ _ _ Hd HP E) as HP1.
    replace (S (length pre)) with (length (pre ++ [d])) in *
      by (rewrite length_app; simpl; lia).
    apply IH; [|done]. by rewrite Himg, <- app_assoc.
Qed.

(** In a run that is not stereo the second camera's calibration is never
    written: after the detection pass it is as it was allocated. *)
Theorem detectAll_single_camera (s : Settings) (images : list detection)
    (st : driverState) :
  stereo s = false -> detectAll s images = Ok st ->
  dInCal2 st = dInCal2 (driverInit s).
Proof.
  intros Es Hrun.
  apply (detectLoop_inv s images
           (fun i st => driver_pos s i st /\ dInCal2 st = dInCal2 (driverInit s)))
    with (suf := images) (pre := []) (st := driverInit s); auto.
  - intros i d st0 st1 _ [Hpos H2]. rewrite (driverStep_slot _ _ _ _ Hpos).
    destruct (if Pattern_eqb _ _ then _ else _) as [c|]; [|discriminate]. simpl.
    intros [= <-]. split; [apply driver_pos_after|].
    unfold driverAfter, slotCamera. rewrite Es. simpl. done.
  - split; [apply driver_pos_init|done].
Qed.

Lemma detectAll_single_camera_witness :
  exists st, detectAll exBox [exHit] = Ok st /\
             dInCal2 st = calibrationOf [[]] [[]].
Proof.
  assert (Hrun : { st | detectAll exBox [exHit] = Ok st })
    by (eexists; vm_compute; reflexivity).
  destruct Hrun as [st Hrun]. exists st. split; [exact Hrun|].
  apply (detectAll_single_camera exBox [exHit] st); [reflexivity|exact Hrun].
Defined.

(** ** The detection pass of a chessboard run *)

Lemma imagesOf_app (s : Settings) (b : bool) (l1 l2 : list detection) (i : nat) :
  imagesOf s b (l1 ++ l2) i = imagesOf s b l1 i ++ imagesOf s b l2 (i + length l1).
Proof.
  revert i. induction l1 as [|d l1 IH]; intros i; simpl.
  - by rewrite Nat.add_0_r.
  - rewrite IH. replace (S i + length l1)%nat with (i + S (length l1))%nat by lia.
    by destruct (Bool.eqb (slotCamera s i) b).
Qed.

Lemma imagesOf_take_S (s : Settings) (b : bool) (images : list detection) (i : nat)
    (d : detection) :
  images !! i = Some d ->
  imagesOf s b (take (S i) images) 0 =
  imagesOf s b (take i images) 0 ++ (if Bool.eqb (slotCamera s i) b then [d] else []).
Proof.
  intros Hd. rewrite (take_S_r _ _ _ Hd), imagesOf_app. simpl.
  rewrite length_take_le by (apply lookup_lt_Some in Hd; lia).
  by destruct (Bool.eqb (slotCamera s i) b).
Qed.

Lemma detectLoop_chessboard_total (s : Settings) (suf : list detection) (i : nat)
    (st : driverState) :
  Pattern_eqb (calibrationPattern s) CHESSBOARD = true ->
  exists st', detectLoop s suf i st = Ok st'.
Proof.
  intros Hp. revert i st. induction suf as [|d suf IH]; intros i st; simpl; [eauto|].
  unfold driverStep. rewrite Hp. simpl. apply IH.
Qed.

Lemma chess_inv_step (s : Settings) (images : list detection) (i : nat) (d : detection)
    (st st' : driverState) :
  Pattern_eqb (calibrationPattern s) CHESSBOARD = true ->
  images !! i = Some d -> chess_inv s images i st ->
  driverStep s st i d = Ok st' -> chess_inv s images (S i) st'.
Proof.
  intros Hp Hd [Hpos Hcams]. rewrite (driverStep_slot _ _ _ _ Hpos), Hp. simpl.
  intros [= <-]. split; [apply driver_pos_after|].
  intros b. rewrite camera_driverAfter, (imagesOf_take_S s b images i d Hd).
  unfold foundImages. rewrite filter_app, !fmap_app.
  destruct (Bool.eqb b (slotCamera s i)) eqn:Eb.
  - apply Bool.eqb_prop in Eb. subst b. rewrite Bool.eqb_reflx.
    destruct (Hcams (slotCamera s i)) as [Hi Ho].
    unfold chessboardDetect. destruct (found d) eqn:Ef.
    + rewrite filter_cons, decide_True by done. simpl. by rewrite Hi, Ho.
    + rewrite filter_cons, decide_False by congruence. simpl.
      rewrite !app_nil_r. done.
  - assert (Bool.eqb (slotCamera s i) b = false) as ->
      by (destruct (slotCamera s i), b; done).
    rewrite filter_nil. simpl. rewrite !app_nil_r. apply Hcams.
Qed.

(** The detection pass of a chessboard run always completes, and each
    camera's collection then holds one pair of sets per image of that camera
    in which the board was found, in order: the corners of the image, and
    the grid of the board. Images in which the board was not found leave no
    trace, so later sets move up. *)
Theorem detectAll_chessboard (s : Settings) (images : list detection) :
  Pattern_eqb (calibrationPattern s) CHESSBOARD = true ->
  exists st,
    detectAll s images = Ok st /\
    forall b,
      imagePoints (camera st b) = corners <$> foundImages (imagesOf s b images 0) /\
      objectPoints (camera st b) =
        replicate (length (foundImages (imagesOf s b images 0)))
                  (calcChessboardCorners s []).
Proof.
  intros Hp.
  destruct (detectLoop_chessboard_total s images 0 (driverInit s) Hp) as [st Hrun].
  exists st. split; [done|].
  assert (Hinv : chess_inv s images (length images) st).
  { apply (detectLoop_inv s images (chess_inv s images))
      with (suf := images) (pre := []) (st := driverInit s); auto.
    - intros i d st0 st1 Hd Hinv. by apply chess_inv_step.
    - split; [apply driver_pos_init|]. intros b. simpl.
      unfold driverInit, camera. rewrite Hp. simpl. by destruct b. }
  destruct Hinv as [_ Hcams]. intros b. destruct (Hcams b) as [Hi Ho].
  rewrite firstn_all in Hi, Ho. split; [done|]. rewrite Ho.
  generalize (foundImages (imagesOf s b images 0)) as l.
  induction l as [|x l IH]; [done|]. rewrite fmap_cons. simpl. by f_equal.
Qed.

Lemma detectAll_chessboard_witness :
  exists st,
    detectAll exChessStereo [exHit; exMiss; exHit; exHit2] = Ok st /\
    imagePoints (dInCal st) = [corners exHit; corners exHit] /\
    imagePoints (dInCal2 st) = [corners exHit2] /\
    objectPoints (dInCal2 st) = [calcChessboardCorners exChessStereo []].
Proof.
  destruct (detectAll_chessboard exChessStereo [exHit; exMiss; exHit; exHit2] eq_refl)
    as (st & Hrun & Hcams).
  exists st. split; [exact Hrun|].
  split; [exact (proj1 (Hcams false))|].
  split; [exact (proj1 (Hcams true))|exact (proj2 (Hcams true))].
Defined.

(** ** The detection pass of an ArUco run *)

Lemma appendAt_lookup_ne (c : intrinsicCalibration) (vi x : nat)
    (ai : list Point2f) (ao : list Point3f) :
  vi <> x ->
  imagePoints (appendAt c vi ai ao) !! x = imagePoints c !! x /\
  objectPoints (appendAt c vi ai ao) !! x = objectPoints c !! x.
Proof. intros Hne. unfold appendAt. simpl. by rewrite !list_lookup_alter_ne. Qed.

Lemma appendAt_lookup_eq (c : intrinsicCalibration) (vi : nat)
    (ai : list Point2f) (ao : list Point3f) :
  imagePoints (appendAt c vi ai ao) !! vi = (fun set => set ++ ai) <$> imagePoints c !! vi /\
  objectPoints (appendAt c vi ai ao) !! vi = (fun set => set ++ ao) <$> objectPoints c !! vi.
Proof. unfold appendAt. simpl. by rewrite !list_lookup_alter_eq. Qed.

Lemma appendAt_lengths (c : intrinsicCalibration) (vi : nat)
    (ai : list Point2f) (ao : list Point3f) :
  length (imagePoints (appendAt c vi ai ao)) = length (imagePoints c) /\
  length (objectPoints (appendAt c vi ai ao)) = length (objectPoints c).
Proof. unfold appendAt. simpl. by rewrite !length_alter. Qed.

Lemma aruco_sets_inv_init (s : Settings) (images : list detection) :
  Pattern_eqb (calibrationPattern s) CHESSBOARD = false ->
  aruco_sets_inv s images 0 (driverInit s).
Proof.
  intros Hp.
  destruct (driverInit_inv s images Hp) as (_ & _ & Hcams & Hfree & _).
  split; [apply driver_pos_init|]. split; [|split; [done|]].
  - intros b. destruct (Hcams b) as [Hlen Hwf]. split; [done|].
    rewrite <- Hlen. symmetry. by eapply Forall2_length.
  - intros i' d Hi'. lia.
Qed.

Lemma aruco_sets_inv_step (s : Settings) (images : list detection) (i : nat)
    (d : detection) (st st' : driverState) :
  Pattern_eqb (calibrationPattern s) CHESSBOARD = false -> mode s <> PREVIEW ->
  images !! i = Some d -> aruco_sets_inv s images i st ->
  driverStep s st i d = Ok st' -> aruco_sets_inv s images (S i) st'.
Proof.
  intros Hp Hmode Hd (Hpos & Hcams & Hfree & Hdone).
  rewrite (driverStep_slot _ _ _ _ Hpos), Hp.
  set (b := slotCamera s i). set (k := slotIndex s i).
  destruct (arucoDetect s d (camera st b) (Z.of_nat k)) as [c|] eqn:Hrun; [|discriminate].
  simpl. intros [= <-].
  pose proof (arucoDetect_Ok_range _ _ _ _ _ Hmode Hrun) as [Hk _].
  apply arucoDetect_Ok_loop in Hrun.
  destruct (arucoLoop_append _ _ _ _ _ _ Hrun) as (ai & ao & Hl & Hall).
  rewrite Hall in Hrun. injection Hrun as <-.
  rewrite Nat2Z.id. destruct (Hcams b) as [Hlen Hlen2].
  assert (Hslot : (k < driverSize s)%nat) by lia.
  assert (Hother : forall i', i' <> i ->
            imagePoints (camera (driverAfter st b k (appendAt (camera st b) k ai ao))
                                (slotCamera s i')) !! slotIndex s i' =
              imagePoints (camera st (slotCamera s i')) !! slotIndex s i' /\
            objectPoints (camera (driverAfter st b k (appendAt (camera st b) k ai ao))
                                 (slotCamera s i')) !! slotIndex s i' =
              objectPoints (camera st (slotCamera s i')) !! slotIndex s i').
  { intros i' Hne. rewrite camera_driverAfter.
    destruct (Bool.eqb (slotCamera s i') b) eqn:Eb; [|done].
    apply Bool.eqb_prop in Eb. rewrite Eb.
    apply appendAt_lookup_ne. intros Hk'. apply Hne. symmetry in Hk'.
    by apply (slot_injective s). }
  split; [apply driver_pos_after|]. split; [|split].
  - intros b'. rewrite camera_driverAfter.
    destruct (Bool.eqb b' b) eqn:Eb; [|apply Hcams].
    destruct (appendAt_lengths (camera st b) k ai ao) as [-> ->]. done.
  - intros i' Hi' Hslot'. unfold slot_empty.
    destruct (Hother i' ltac:(lia)) as [-> ->]. apply Hfree; [lia|done].
  - intros i' d' Hi' Hd'. unfold holds_detection.
    destruct (decide (i' = i)) as [->|Hne].
    + assert (d' = d) as -> by congruence.
      exists ai, ao. split.
      * rewrite (arucoDetect_loop s d (calibrationOf [[]] [[]]) 0%Z)
          by (intros _; unfold index_in_range; simpl; lia).
        by rewrite Hall.
      * fold b k. rewrite camera_driverAfter, Bool.eqb_reflx.
        destruct (appendAt_lookup_eq (camera st b) k ai ao) as [-> ->].
        destruct (Hfree i ltac:(lia) Hslot) as [Hfi Hfo]. fold b k in Hfi, Hfo.
        rewrite Hfi, Hfo. done.
    + destruct (Hdone i' d' ltac:(lia) Hd') as (ai' & ao' & Hfresh & Hi & Ho).
      exists ai', ao'. destruct (Hother i' Hne) as [-> ->]. done.
Qed.

(** Outside preview mode, when the detection pass of an ArUco run completes,
    the sets of image [i] are at position [i] of the first camera's
    collection ([i/2] in a stereo run, of the second camera for odd [i]) and
    hold exactly what [arucoDetect] yields for that image alone; both
    collections have their allocated length. *)
Theorem detectAll_aruco_sets (s : Settings) (images : list detection) (st : driverState) :
  Pattern_eqb (calibrationPattern s) CHESSBOARD = false -> mode s <> PREVIEW ->
  detectAll s images = Ok st ->
  (forall b, length (imagePoints (camera st b)) = driverSize s /\
             length (objectPoints (camera st b)) = driverSize s) /\
  forall i d, images !! i = Some d ->
    exists ai ao,
      arucoDetect s d (calibrationOf [[]] [[]]) 0 = Ok (calibrationOf [ai] [ao]) /\
      imagePoints (camera st (slotCamera s i)) !! slotIndex s i = Some ai /\
      objectPoints (camera st (slotCamera s i)) !! slotIndex s i = Some ao.
Proof.
  intros Hp Hmode Hrun.
  assert (Hinv : aruco_sets_inv s images (length images) st).
  { apply (detectLoop_inv s images (aruco_sets_inv s images))
      with (suf := images) (pre := []) (st := driverInit s); auto.
    - intros i d st0 st1 Hd Hinv. by apply aruco_sets_inv_step.
    - by apply aruco_sets_inv_init. }
  destruct Hinv as (_ & Hcams & _ & Hdone). split; [done|].
  intros i d Hd. apply (Hdone i d); [|done]. by eapply lookup_lt_Some.
Qed.

Lemma detectAll_aruco_sets_witness :
  exists st ai ao,
    detectAll (exSettings STEREO ARUCO_BOX ["XY"; "YZ"; "XZ"]%string 4 true)
              [exHit; exMiss; exHit; exHit] = Ok st /\
    arucoDetect (exSettings STEREO ARUCO_BOX ["XY"; "YZ"; "XZ"]%string 4 true) exHit
                (calibrationOf [[]] [[]]) 0 = Ok (calibrationOf [ai] [ao]) /\
    imagePoints (dInCal2 st) !! 1%nat = Some ai /\
    objectPoints (dInCal2 st) !! 1%nat = Some ao.
Proof.
  assert (Hrun : { st | detectAll (exSettings STEREO ARUCO_BOX
                                     ["XY"; "YZ"; "XZ"]%string 4 true)
                                  [exHit; exMiss; exHit; exHit] = Ok st })
    by (eexists; vm_compute; reflexivity).
  destruct Hrun as [st Hrun].
  destruct (detectAll_aruco_sets
              (exSettings STEREO ARUCO_BOX ["XY"; "YZ"; "XZ"]%string 4 true)
              [exHit; exMiss; exHit; exHit] st eq_refl ltac:(discriminate) Hrun)
    as [_ Hsets].
  destruct (Hsets 3%nat exHit eq_refl) as (ai & ao & Hfresh & Hi & Ho).
  exists st, ai, ao. split; [exact Hrun|]. split; [exact Hfresh|].
  split; [exact Hi|exact Ho].
Defined.

(** ** The calibration flag *)

Lemma char_value_zero_iff (c : Ascii.ascii) :
  (char_value c - char_value (Ascii.ascii_of_nat 48) =? 0)%Z =
  Ascii.eqb c (Ascii.ascii_of_nat 48).
Proof.
  destruct c as [[] [] [] [] [] [] [] []]; reflexivity.
Qed.

Lemma string_get_lt (str : string) (i : nat) :
  (i < String.length str)%nat -> String.get i str <> None.
Proof.
  revert i. induction str as [|c str IH]; intros i Hlt; simpl in *; [lia|].
  destruct i; [discriminate|]. apply IH. lia.
Qed.

Lemma fixBody_spec (str : string) (flag : Z) (i : nat) :
  (i <= String.length str)%nat ->
  fixBody str flag i =
  Ok (if fixes str i
      then Z.lor flag (Z.shiftl CV_CALIB_FIX_K1
                                (if (3 <=? i)%nat then Z.of_nat i + 3 else Z.of_nat i))
      else flag).
Proof.
  intros Hi. unfold fixBody, string_index, fixes.
  destruct (String.get i str) as [c|] eqn:E; simpl.
  - rewrite char_value_zero_iff. by destruct (Ascii.eqb c _).
  - assert (i = String.length str) as ->.
    { destruct (decide (i = String.length str)) as [|Hne]; [done|].
      exfalso. apply (string_get_lt str i); [lia|done]. }
    rewrite Nat.eqb_refl. simpl. done.
Qed.

Lemma interprate_flag_spec (r : SettingsInput) :
  (4 <= String.length (fixDistCoeffs r))%nat ->
  interprate_flag r =
  Ok (Z.lor (Z.lor (Z.lor (Z.lor (Z.lor (Z.lor (Z.lor (Z.lor 0
        (if fixes (fixDistCoeffs r) 0 then CV_CALIB_FIX_K1 else 0))
        (if fixes (fixDistCoeffs r) 1 then CV_CALIB_FIX_K2 else 0))
        (if fixes (fixDistCoeffs r) 2 then CV_CALIB_FIX_K3 else 0))
        (if fixes (fixDistCoeffs r) 3 then CV_CALIB_FIX_K4 else 0))
        (if fixes (fixDistCoeffs r) 4 then CV_CALIB_FIX_K5 else 0))
        (if fixPrincipalPoint r then CV_CALIB_FIX_PRINCIPAL_POINT else 0))
        (if assumeZeroTangentDist r then CV_CALIB_ZERO_TANGENT_DIST else 0))
        (if float_true (aspectRatio r) then CV_CALIB_FIX_ASPECT_RATIO else 0)).
Proof.
  intros Hlen. unfold interprate_flag. cbn [foldM].
  rewrite !fixBody_spec by lia. cbn [obind].
  rewrite !fixBody_spec by lia. cbn [obind].
  rewrite !fixBody_spec by lia. cbn [obind].
  rewrite !fixBody_spec by lia. cbn [obind].
  rewrite !fixBody_spec by lia. cbn [obind].
  f_equal.
  destruct (fixes _ 0), (fixes _ 1), (fixes _ 2), (fixes _ 3), (fixes _ 4),
    (fixPrincipalPoint r), (assumeZeroTangentDist r), (float_true (aspectRatio r));
    reflexivity.
Qed.

Lemma interprate_flag_of (io : fileIO) (s s' : Settings) (r r' : SettingsInput) :
  interprate io s r = Ok (s', r') -> interprate_flag r = Ok (flag s').
Proof.
  unfold interprate.
  destruct (if Mode_eqb _ PREVIEW then _ else _) as [[il ni] g1].
  destruct (if negb _ then _ else _) as [[[[sq cl] pl] nc] g2].
  destruct (match intrinsicInputFile io _ with Some _ => _ | None => _ end)
    as [[ui ii] g3].
  destruct (interprate_flag r) as [f|]; [|discriminate]. simpl.
  by intros [= <- _].
Qed.

(** When [fixDistCoeffs] holds at least four characters, [interprate]
    returns, and its flag has the bit of [CV_CALIB_FIX_K1] ... [_K5] exactly
    when the first ... fifth character is not ['0'] (the character after a
    text of four is the terminating null, so [K5] is fixed then), the bits of
    the principal point, the tangential distortion and the aspect ratio as
    the three settings say, and no other bit: in particular not the one of
    [CV_CALIB_USE_INTRINSIC_GUESS]. *)
Theorem interprate_flag_bits (io : fileIO) (s : Settings) (r : SettingsInput) :
  (4 <= String.length (fixDistCoeffs r))%nat ->
  exists s' r',
    interprate io s r = Ok (s', r') /\
    forall k,
      Z.testbit (flag s') k =
      (fixes (fixDistCoeffs r) 0 && (k =? Z.log2 CV_CALIB_FIX_K1)%Z)
      || (fixes (fixDistCoeffs r) 1 && (k =? Z.log2 CV_CALIB_FIX_K2)%Z)
      || (fixes (fixDistCoeffs r) 2 && (k =? Z.log2 CV_CALIB_FIX_K3)%Z)
      || (fixes (fixDistCoeffs r) 3 && (k =? Z.log2 CV_CALIB_FIX_K4)%Z)
      || (fixes (fixDistCoeffs r) 4 && (k =? Z.log2 CV_CALIB_FIX_K5)%Z)
      || (fixPrincipalPoint r && (k =? Z.log2 CV_CALIB_FIX_PRINCIPAL_POINT)%Z)
      || (assumeZeroTangentDist r && (k =? Z.log2 CV_CALIB_ZERO_TANGENT_DIST)%Z)
      || (float_true (aspectRatio r) && (k =? Z.log2 CV_CALIB_FIX_ASPECT_RATIO)%Z).
Proof.
  intros Hlen.
  assert (Hrun : exists s' r', interprate io s r = Ok (s', r')).
  { unfold interprate.
    destruct (if Mode_eqb _ PREVIEW then _ else _) as [[il ni] g1].
    destruct (if negb _ then _ else _) as [[[[sq cl] pl] nc] g2].
    destruct (match intrinsicInputFile io _ with Some _ => _ | None => _ end)
      as [[ui ii] g3].
    rewrite (interprate_flag_spec r Hlen). simpl. eauto. }
  destruct Hrun as (s' & r' & Hrun). exists s', r'. split; [done|].
  apply interprate_flag_of in Hrun. rewrite (interprate_flag_spec r Hlen) in Hrun.
  injection Hrun as <-. intros k.
  assert (Hbit : forall (b : bool) (n : Z), (0 <= n)%Z ->
            Z.testbit (if b then 2 ^ n else 0) k = b && (k =? n)%Z).
  { intros b n Hn. destruct b; simpl.
    - rewrite Z.pow2_bits_eqb by done. apply Z.eqb_sym.
    - apply Z.bits_0. }
  rewrite !Z.lor_spec, Z.bits_0. simpl.
  rewrite (Hbit _ 5%Z ltac:(lia)), (Hbit _ 6%Z ltac:(lia)), (Hbit _ 7%Z ltac:(lia)),
    (Hbit _ 11%Z ltac:(lia)), (Hbit _ 12%Z ltac:(lia)), (Hbit _ 2%Z ltac:(lia)),
    (Hbit _ 3%Z ltac:(lia)), (Hbit _ 1%Z ltac:(lia)).
  done.
Qed.

Lemma interprate_flag_bits_witness :
  exists s' r',
    interprate exIO exFresh exInput = Ok (s', r') /\
    flag s' = Z.lor (Z.lor (Z.lor CV_CALIB_FIX_K3 CV_CALIB_FIX_K4) CV_CALIB_FIX_K5)
                    CV_CALIB_ZERO_TANGENT_DIST /\
    Z.testbit (flag s') 0 = false.
Proof.
  destruct (interprate_flag_bits exIO exFresh exInput) as (s' & r' & Hrun & Hbits);
    [simpl; lia|].
  exists s', r'. split; [exact Hrun|]. split.
  - assert (Hv : interprate exIO exFresh exInput = Ok (s', r')) by exact Hrun.
    vm_compute in Hv. injection Hv as <- _. reflexivity.
  - rewrite (Hbits 0%Z). reflexivity.
Defined.

(** ** What a valid input guarantees *)

Ltac interprate_case :=
  match goal with
  | H : context [match imageListFile ?io ?f with _ => _ end] |- _ =>
      destruct (imageListFile io f) as [?|] eqn:?; simpl in H
  | H : context [match configListFile ?io ?f with _ => _ end] |- _ =>
      destruct (configListFile io f) as [[[? ?] ?]|] eqn:?; simpl in H
  | H : context [match intrinsicInputFile ?io ?f with _ => _ end] |- _ =>
      destruct (intrinsicInputFile io f) as [[? ?]|] eqn:?; simpl in H
  | H : context [if ?c then _ else _] |- _ => destruct c eqn:?; simpl in H
  end.

(** When [interprate] leaves [goodInput] set: the mode and the pattern are
    known ones; the board has positive dimensions and the square size of the
    settings file is not at most [10e-6]; outside preview mode the image list
    was read and [nImages] is its length, an even number in stereo mode; in
    preview mode the capture is open; for an ArUco pattern the config list
    was read, [nConfigs] is its number of marker maps, 1 for a single
    pattern and 3 for the box, and the box comes with intrinsic input. *)
Theorem interprate_goodInput (io : fileIO) (s s' : Settings) (r r' : SettingsInput) :
  interprate io s r = Ok (s', r') -> goodInput r' = true ->
  mode s' <> INVALID /\ calibrationPattern s' <> NOT_EXISTING /\
  (0 < boardSize_width s')%Z /\ (0 < boardSize_height s')%Z /\
  F64.leb (float_to_double (squareSize s)) ten_e_minus_6 = false /\
  (mode s' <> PREVIEW ->
     imageListFile io (imageListFilename r) = Some (imageList r') /\
     nImages s' = int_of_size (length (imageList r'))) /\
  (mode s' = STEREO -> Z.rem (nImages s') 2 = 0%Z) /\
  (mode s' = PREVIEW -> captureOpens io (cameraIDInput r) = true) /\
  (calibrationPattern s' <> CHESSBOARD ->
     nConfigs s' = int_of_size (length (configList s')) /\
     (calibrationPattern s' = ARUCO_SINGLE -> nConfigs s' = 1%Z) /\
     (calibrationPattern s' = ARUCO_BOX ->
        nConfigs s' = 3%Z /\ useIntrinsicInput s' = true)).
Proof.
  unfold interprate, readImageList. cbv zeta.
  set (m := if String.eqb (modeInput r) "PREVIEW" then _ else _).
  set (p := if String.eqb (patternInput r) "ARUCO_BOX" then _ else _).
  destruct (interprate_flag r) as [f|];
    [|intros H; exfalso; revert H;
      repeat (match goal with
              | |- context [let '(_, _) := ?x in _] => destruct x
              end); simpl; discriminate].
  intros Hrun Hgood.
  destruct m, p; simpl in Hrun; repeat interprate_case;
    injection Hrun as <- <-; simpl in Hgood |- *; try discriminate;
    repeat split; try done; try lia; intros; try done;
    try (rewrite Z.eqb_eq in *; done).
Qed.

Lemma interprate_goodInput_witness :
  exists s' r',
    interprate exIO exFresh exInput = Ok (s', r') /\
    mode s' <> INVALID /\
    Z.rem (nImages s') 2 = 0%Z /\
    nConfigs s' = 3%Z /\ useIntrinsicInput s' = true.
Proof.
  destruct (interprate exIO exFresh exInput) as [[s' r']|] eqn:Hrun;
    [|vm_compute in Hrun; discriminate].
  assert (Hgood : goodInput r' = true).
  { vm_compute in Hrun. injection Hrun as <- <-. reflexivity. }
  assert (Hmode : mode s' = STEREO).
  { vm_compute in Hrun. injection Hrun as <- <-. reflexivity. }
  assert (Hpat : calibrationPattern s' = ARUCO_BOX).
  { vm_compute in Hrun. injection Hrun as <- <-. reflexivity. }
  destruct (interprate_goodInput exIO exFresh s' exInput r' Hrun Hgood)
    as (H1 & _ & _ & _ & _ & _ & Hstereo & _ & Haruco).
  exists s', r'. split; [reflexivity|]. split; [exact H1|].
  split; [exact (Hstereo Hmode)|].
  destruct Haruco as (_ & _ & Hbox); [rewrite Hpat; discriminate|].
  exact (Hbox Hpat).
Defined.

(** ** From a valid input to the detection pass *)

Lemma rem_2_even (n : Z) : Z.rem n 2 = 0%Z -> Z.even n = true.
Proof.
  intros H. rewrite (Z.quot_rem' n 2), H, Z.add_0_r, Z.even_mul. done.
Qed.

(** The counts a valid input comes with. *)
Lemma interprate_counts (io : fileIO) (s s' : Settings) (r r' : SettingsInput) :
  interprate io s r = Ok (s', r') -> goodInput r' = true ->
  (mode s' <> PREVIEW -> nImages s' = int_of_size (length (imageList r'))) /\
  (mode s' = STEREO -> Z.rem (nImages s') 2 = 0%Z) /\
  (calibrationPattern s' <> CHESSBOARD ->
     nConfigs s' = int_of_size (length (configList s'))).
Proof.
  unfold interprate, readImageList. cbv zeta.
  set (m := if String.eqb (modeInput r) "PREVIEW" then _ else _).
  set (p := if String.eqb (patternInput r) "ARUCO_BOX" then _ else _).
  destruct (interprate_flag r) as [f|];
    [|intros H; exfalso; revert H;
      repeat (match goal with
              | |- context [let '(_, _) := ?x in _] => destruct x
              end); simpl; discriminate].
  intros Hrun Hgood.
  destruct m, p; simpl in Hrun; repeat interprate_case;
    injection Hrun as <- <-; simpl in Hgood |- *; try discriminate;
    repeat split; try done; try lia; intros; try done;
    try (rewrite Z.eqb_eq in *; done).
Qed.

(** Settings that [interprate] accepts for an ArUco run outside preview mode
    make the detection pass complete without an exception, for any images
    that are no more than the image list announces, provided that there is a
    plane label for every marker map (which [interprate] does not check) and
    that markers and map entries hold their four corners. *)
Theorem interprate_detectAll (io : fileIO) (s s' : Settings) (r r' : SettingsInput)
    (images : list detection) :
  interprate io s r = Ok (s', r') -> goodInput r' = true ->
  calibrationPattern s' <> CHESSBOARD -> mode s' <> PREVIEW ->
  fits_int (length (configList s')) -> fits_int (length (imageList r')) ->
  (length images <= length (imageList r'))%nat ->
  (length (configList s') <= length (planeList s'))%nat ->
  Forall (Forall four_points) (configList s') ->
  Forall (fun d => forall j, Forall four_corners (detectedMarkers d j)) images ->
  exists st,
    detectAll s' images = Ok st /\
    forall b, length (imagePoints (camera st b)) = driverSize s' /\
              well_formed (camera st b).
Proof.
  intros Hrun Hgood Hpat Hmode Hfc Hfi Himg Hplanes Hmaps Hmarkers.
  destruct (interprate_counts io s s' r r' Hrun Hgood) as (Hlist & Hstereo & Haruco).
  pose proof (Hlist Hmode) as Hn. pose proof (Haruco Hpat) as Hc.
  rewrite int_of_size_fits in Hn, Hc by done.
  assert (Hp : Pattern_eqb (calibrationPattern s') CHESSBOARD = false)
    by (destruct (calibrationPattern s'); done).
  destruct (detectLoop_aruco s' images Hp) with (suf := images) (pre := @nil detection)
    (st := driverInit s') as (st & Hloop & Hinv); auto.
  - rewrite Hc. lia.
  - rewrite Hc. lia.
  - intros i Hi. apply (slots_in_range s' (length images)); [lia| |done].
    intros Hs. apply rem_2_even, Hstereo.
    unfold stereo in Hs. by destruct (mode s').
  - by apply driverInit_inv.
  - exists st. split; [done|]. apply Hinv.
Qed.

Lemma interprate_detectAll_witness :
  exists s' r' st,
    interprate exIO exFresh exInput = Ok (s', r') /\
    detectAll s' [exHit; exMiss; exHit] = Ok st /\
    length (imagePoints (dInCal2 st)) = 2%nat.
Proof.
  destruct (interprate exIO exFresh exInput) as [[s' r']|] eqn:Hrun;
    [|vm_compute in Hrun; discriminate].
  assert (Hs : s' = mkSettings STEREO ARUCO_BOX 9 6 (F32.of_int 50)
                      [exMap 0; exMap 1; exMap 2] ["XY"; "YZ"; "XZ"]%string 3 4 (0, 0)%Z
                      true (set_intrinsics emptyCalibration [[F64.of_int 500]]
                                           [[F64.of_int 0]]) 6280).
  { vm_compute in Hrun. injection Hrun as <- <-. reflexivity. }
  assert (Hr : imageList r' = ["l0.png"; "r0.png"; "l1.png"; "r1.png"]%string /\
               goodInput r' = true).
  { vm_compute in Hrun. injection Hrun as <- <-. split; reflexivity. }
  destruct Hr as [Hil Hgood].
  destruct (interprate_detectAll exIO exFresh s' exInput r' [exHit; exMiss; exHit]
              Hrun Hgood) as (st & Hdet & Hlen).
  - rewrite Hs. discriminate.
  - rewrite Hs. discriminate.
  - rewrite Hs. unfold fits_int. simpl. lia.
  - rewrite Hil. unfold fits_int. simpl. lia.
  - rewrite Hil. simpl. lia.
  - rewrite Hs. simpl. lia.
  - rewrite Hs. repeat constructor.
  - repeat constructor.
  - exists s', r', st. split; [reflexivity|]. split; [exact Hdet|].
    destruct (Hlen true) as [Hl _]. unfold camera in Hl. rewrite Hl, Hs. reflexivity.
Defined.

(** ** Marker maps on the lattice of the box *)

Lemma same_float_eq (x y : spec_float) : same_float x y = true -> x = y.
Proof.
  destruct x as [s|s| |s m e], y as [s'|s'| |s' m' e']; simpl; try discriminate;
    try done.
  - by intros ->%Bool.eqb_prop.
  - by intros ->%Bool.eqb_prop.
  - intros [[->%Bool.eqb_prop ->%Pos.eqb_eq]%andb_true_iff ->%Z.eqb_eq]%andb_true_iff.
    done.
Qed.

Lemma lattice_exact_range (m : Z) : (-1000 <= m <= 1000)%Z -> lattice_exact m = true.
Proof.
  intros Hm.
  assert (Hall : forallb lattice_exact (seqZ (-1000) 2001) = true)
    by (vm_compute; reflexivity).
  rewrite forallb_forall in Hall. apply Hall.
  apply list_elem_of_In, elem_of_seqZ. lia.
Qed.

(** On marker maps whose corners lie on the lattice of the box (coordinates
    [125*m - 1000] with [-1000 <= m <= 1000], mirrored where the plane is
    flipped), [getIntPoints] computes the integer coordinates exactly, in
    all three planes: no rounding error enters the points that
    [getSharedPoints] compares with [==]. *)
Theorem getIntPoints_lattice (a b : Z) (z : spec_float) :
  (-1000 <= a <= 1000)%Z -> (-1000 <= b <= 1000)%Z ->
  getIntPoints_plane "XY" [mkPoint3f (latticeCoord a) (latticeCoord b) z]
    = [Point3f_of_ints a b 0] /\
  getIntPoints_plane "YZ" [mkPoint3f (mirrorCoord b) (latticeCoord a) z]
    = [Point3f_of_ints 0 a b] /\
  getIntPoints_plane "XZ" [mkPoint3f (latticeCoord a) (mirrorCoord b) z]
    = [Point3f_of_ints a 0 b].
Proof.
  intros Ha Hb.
  destruct (proj1 (andb_true_iff _ _) (lattice_exact_range a Ha))
    as [Ha1%same_float_eq Ha2%same_float_eq].
  destruct (proj1 (andb_true_iff _ _) (lattice_exact_range b Hb))
    as [Hb1%same_float_eq Hb2%same_float_eq].
  unfold shifted in *.
  unfold getIntPoints_plane, Point3f_of_ints. cbn [String.eqb Ascii.eqb Bool.eqb push_each].
  unfold unifyXY, unifyYZ, unifyXZ. cbn [px py pz app].
  rewrite Ha1, Hb1, Hb2. done.
Qed.

Lemma getIntPoints_lattice_witness :
  getIntPoints_plane "XY" [P3 (-1000) 1000 0] = [P3 0 16 0] /\
  getIntPoints_plane "YZ" [P3 (-875) 1000 0] = [P3 0 16 15].
Proof.
  destruct (getIntPoints_lattice 0 16 (F32.of_int 0)) as (Hxy & _ & _); [lia|lia|].
  destruct (getIntPoints_lattice 16 15 (F32.of_int 0)) as (_ & Hyz & _); [lia|lia|].
  split; [exact Hxy|exact Hyz].
Defined.

(** ** Running the error metric again, and the result of a solve *)

Section ErrorAgain.
Variable reprojNorm :
  list Point3f -> Mat -> Mat -> Mat -> Mat -> list Point2f -> spec_float.

Lemma perImageFrom_set_errors (inCal : intrinsicCalibration) (e : list spec_float)
    (a : spec_float) (sets : list (list Point3f)) (i : nat) :
  perImageFrom reprojNorm (set_errors inCal e a) i sets =
  perImageFrom reprojNorm inCal i sets.
Proof.
  revert i. induction sets as [|op sets IH]; intros i; simpl; [done|].
  by rewrite IH.
Qed.

Lemma sumSquaresFrom_set_errors (inCal : intrinsicCalibration) (e : list spec_float)
    (a : spec_float) (sets : list (list Point3f)) (i : nat) (acc : spec_float) :
  sumSquaresFrom reprojNorm (set_errors inCal e a) i sets acc =
  sumSquaresFrom reprojNorm inCal i sets acc.
Proof.
  revert i acc. induction sets as [|op sets IH]; intros i acc; simpl; [done|].
  by rewrite IH.
Qed.

Lemma perImageFrom_length (inCal : intrinsicCalibration) (sets : list (list Point3f))
    (i : nat) :
  length (perImageFrom reprojNorm inCal i sets) = length sets.
Proof. revert i. induction sets as [|op sets IH]; intros i; simpl; [done|]. by rewrite IH. Qed.

(** The errors of a calibration do not depend on the errors it held before:
    [computeReprojectionErrors] overwrites [reprojErrs] with one entry per
    image, whatever its length was, and run again on its own result it
    returns the same calibration and the same average. *)
Theorem computeReprojectionErrors_again (inCal : intrinsicCalibration) :
  reproj_ready inCal ->
  exists c avg,
    computeReprojectionErrors reprojNorm inCal = Ok (c, avg) /\
    length (reprojErrs c) = length (objectPoints inCal) /\
    c = set_errors inCal (reprojErrs c) (totalAvgErr inCal) /\
    computeReprojectionErrors reprojNorm c = Ok (c, avg).
Proof.
  intros Hready. rewrite (computeReprojectionErrors_run reprojNorm inCal Hready).
  eexists _, _. split; [reflexivity|]. split; [|split; [reflexivity|]].
  - simpl. apply perImageFrom_length.
  - rewrite computeReprojectionErrors_run by exact Hready.
    simpl. by rewrite perImageFrom_set_errors, sumSquaresFrom_set_errors.
Qed.

End ErrorAgain.

Lemma computeReprojectionErrors_again_witness :
  exists c avg,
    computeReprojectionErrors exNorm exSolved = Ok (c, avg) /\
    length (reprojErrs c) = 2%nat /\
    computeReprojectionErrors exNorm c = Ok (c, avg).
Proof.
  destruct (computeReprojectionErrors_again exNorm exSolved)
    as (c & avg & Hrun & Hlen & _ & Hagain).
  - unfold reproj_ready, fits_int; simpl; repeat split; lia.
  - exists c, avg. split; [exact Hrun|]. split; [exact Hlen|exact Hagain].
Defined.

Section SolveResult.
Variable reprojNorm :
  list Point3f -> Mat -> Mat -> Mat -> Mat -> list Point2f -> spec_float.
Variable calibrateCamera : calibrateArgs -> Mat * Mat * list Mat * list Mat.
Variable checkRange : Mat -> bool.

(** The result of [runIntrinsicCalibration] when the solver returns a pose
    for every image. *)
Lemma runIntrinsicCalibration_run (s : Settings) (inCal : intrinsicCalibration)
    (cm dc : Mat) (rv tv : list Mat) :
  calibrateCamera (intrinsicCall s inCal) = (cm, dc, rv, tv) ->
  reproj_ready (set_solution inCal cm dc rv tv) ->
  exists inCal',
    runIntrinsicCalibration reprojNorm calibrateCamera checkRange s inCal
      = Ok (checkRange cm && checkRange dc, inCal', intrinsicCall s inCal) /\
    imagePoints inCal' = imagePoints inCal /\
    objectPoints inCal' = objectPoints inCal /\
    cameraMatrix inCal' = cm /\ distCoeffs inCal' = dc /\
    rvecs inCal' = rv /\ tvecs inCal' = tv /\
    computeReprojectionErrors reprojNorm (set_solution inCal cm dc rv tv)
      = Ok (set_errors inCal' (reprojErrs inCal') (totalAvgErr inCal),
            totalAvgErr inCal').
Proof.
  intros Hsolve Hready. unfold runIntrinsicCalibration. rewrite Hsolve.
  rewrite (computeReprojectionErrors_run reprojNorm _ Hready).
  cbn [obind fst snd]. eexists. split; [reflexivity|].
  repeat split.
Qed.

End SolveResult.

(** ** Which solves are made and what is saved *)

Lemma matchable_same_points (A B A' B' : intrinsicCalibration) :
  imagePoints A' = imagePoints A -> objectPoints A' = objectPoints A ->
  imagePoints B' = imagePoints B -> objectPoints B' = objectPoints B ->
  matchable A B -> matchable A' B'.
Proof.
  unfold matchable, well_formed, collection_fits. by intros -> -> -> ->.
Qed.

Lemma same_intrinsics_errors (c c' : intrinsicCalibration) :
  same_intrinsics c c' ->
  reprojErrs c' = reprojErrs c /\ totalAvgErr c' = totalAvgErr c /\
  rvecs c' = rvecs c /\ tvecs c' = tvecs c.
Proof. unfold same_intrinsics. by intros ->. Qed.

Section RunProperties.
Variable reprojNorm :
  list Point3f -> Mat -> Mat -> Mat -> Mat -> list Point2f -> spec_float.
Variable calibrateCamera : calibrateArgs -> Mat * Mat * list Mat * list Mat.
Variable stereoCalibrate : stereoArgs -> Mat * Mat * Mat * Mat * spec_float.
Variable stereoRectify :
  rectifyArgs -> Mat * Mat * Mat * Mat * Mat * list (Z * Z * Z * Z).
Variable checkRange : Mat -> bool.

Lemma intrinsicCall_points (s : Settings) (inCal : intrinsicCalibration) :
  ca_objectPoints (intrinsicCall s inCal) = objectPoints inCal /\
  ca_imagePoints (intrinsicCall s inCal) = imagePoints inCal.
Proof. unfold intrinsicCall. by destruct (useIntrinsicInput s). Qed.

Lemma solved_ready (s : Settings) (inCal : intrinsicCalibration)
    (cm dc : Mat) (rv tv : list Mat) :
  poses_for_all calibrateCamera -> countable inCal ->
  calibrateCamera (intrinsicCall s inCal) = (cm, dc, rv, tv) ->
  reproj_ready (set_solution inCal cm dc rv tv).
Proof.
  intros Hposes (Hwf & Hf1 & Hf2) Hsolve.
  destruct (Hposes (intrinsicCall s inCal)) as [Hrv Htv].
  rewrite Hsolve in Hrv, Htv. simpl in Hrv, Htv.
  rewrite (proj1 (intrinsicCall_points s inCal)) in Hrv, Htv.
  unfold reproj_ready. simpl. rewrite Hrv, Htv.
  rewrite (Forall2_length _ _ _ Hwf). auto.
Qed.

(** What [runStereoCalibration] does with the two calibrations as the prior
    (if any) leaves them. *)
Lemma runStereoCalibration_run (s : Settings) (inCal inCal2 : intrinsicCalibration) :
  Pattern_eqb (calibrationPattern s) CHESSBOARD = true \/ matchable inCal inCal2 ->
  exists A B inCal' inCal2' sterCal call,
    A = (if useIntrinsicInput s
         then set_intrinsics inCal (cameraMatrix (intrinsicInput s))
                                   (distCoeffs (intrinsicInput s))
         else inCal) /\
    B = (if useIntrinsicInput s
         then set_intrinsics inCal2 (cameraMatrix (intrinsicInput s))
                                    (distCoeffs (intrinsicInput s))
         else inCal2) /\
    runStereoCalibration stereoCalibrate stereoRectify s inCal inCal2
      = Ok (inCal', inCal2', sterCal, call) /\
    same_intrinsics A inCal' /\ same_intrinsics B inCal2' /\
    sa_cameraMatrix1 call = cameraMatrix A /\ sa_distCoeffs1 call = distCoeffs A /\
    sa_cameraMatrix2 call = cameraMatrix B /\ sa_distCoeffs2 call = distCoeffs B /\
    sa_objectPoints call = objectPoints inCal' /\
    sa_imagePoints1 call = imagePoints inCal' /\
    sa_imagePoints2 call = imagePoints inCal2' /\
    sa_flags call = CV_CALIB_FIX_INTRINSIC.
Proof.
  intros Hcase. unfold runStereoCalibration.
  set (A := if useIntrinsicInput s then set_intrinsics inCal _ _ else inCal).
  set (B := if useIntrinsicInput s then set_intrinsics inCal2 _ _ else inCal2).
  assert (Hshared : exists A' B',
            (if negb (Pattern_eqb (calibrationPattern s) CHESSBOARD)
             then getSharedPoints A B else Ok (A, B)) = Ok (A', B') /\
            same_intrinsics A A' /\ same_intrinsics B B').
  { destruct (Pattern_eqb (calibrationPattern s) CHESSBOARD) eqn:Ep; simpl.
    - exists A, B. auto using same_intrinsics_refl.
    - destruct Hcase as [|Hm]; [discriminate|].
      assert (Hm' : matchable A B).
      { revert Hm. apply matchable_same_points; unfold A, B;
          by destruct (useIntrinsicInput s). }
      destruct (getSharedPoints_run A B Hm') as ([A' B'] & Hrun & H1 & H2 & _).
      exists A', B'. auto. }
  destruct Hshared as (A' & B' & -> & HsA & HsB).
  destruct (same_intrinsics_fields _ _ HsA) as [HcA HdA].
  destruct (same_intrinsics_fields _ _ HsB) as [HcB HdB].
  simpl.
  destruct (stereoCalibrate _) as [[[[R T] E] F] err].
  destruct (stereoRectify _) as [[[[[R1 R2] P1] P2] Q] rois].
  exists A, B. eexists _, _, _, _. split; [done|]. split; [done|].
  split; [reflexivity|]. simpl. rewrite HcA, HdA, HcB, HdB. repeat split; done.
Qed.

(** Outside stereo mode one solve is made, for the first camera; the images
    are undistorted and the intrinsics saved exactly when both solved
    matrices pass [checkRange], and then with the solved calibration; the
    correspondences are kept, the second calibration is not touched and no
    stereo solve is made. *)
Theorem runCalibrationAndSave_intrinsic (s : Settings) (inCal inCal2 : intrinsicCalibration)
    (cm dc : Mat) (rv tv : list Mat) :
  mode s <> STEREO -> poses_for_all calibrateCamera -> countable inCal ->
  calibrateCamera (intrinsicCall s inCal) = (cm, dc, rv, tv) ->
  exists t,
    runCalibrationAndSave reprojNorm calibrateCamera stereoCalibrate stereoRectify
                          checkRange s inCal inCal2 = Ok t /\
    runInCal2 t = inCal2 /\
    calibrateCalls t = [intrinsicCall s inCal] /\ stereoCalls t = [] /\
    cameraMatrix (runInCal t) = cm /\ distCoeffs (runInCal t) = dc /\
    imagePoints (runInCal t) = imagePoints inCal /\
    objectPoints (runInCal t) = objectPoints inCal /\
    saveEvents t =
      if checkRange cm && checkRange dc
      then [UndistortImages (runInCal t); SaveIntrinsics (runInCal t)] else [].
Proof.
  intros Hmode Hposes Hcount Hsolve.
  pose proof (solved_ready s inCal cm dc rv tv Hposes Hcount Hsolve) as Hready.
  destruct (runIntrinsicCalibration_run reprojNorm calibrateCamera checkRange
              s inCal cm dc rv tv Hsolve Hready)
    as (inCal' & Hrun & Hi & Ho & Hcm & Hdc & _).
  unfold runCalibrationAndSave.
  assert (Mode_eqb (mode s) STEREO = false) as -> by (by destruct (mode s)).
  rewrite Hrun. cbn [obind fst snd]. eexists. split; [reflexivity|].
  cbn [runInCal runInCal2 calibrateCalls stereoCalls saveEvents].
  repeat split; done.
Qed.

(** In stereo mode without intrinsic input each camera is solved on its own,
    from the default seed and with all its correspondences, before any
    matching; the stereo solve then receives the two solved camera models
    with the flag that fixes them. It is made whatever [checkRange] says of
    the solved matrices, and only the extrinsics are saved. *)
Theorem runCalibrationAndSave_stereo (s : Settings) (inCal inCal2 : intrinsicCalibration)
    (cm1 dc1 cm2 dc2 : Mat) (rv1 tv1 rv2 tv2 : list Mat) :
  mode s = STEREO -> useIntrinsicInput s = false ->
  poses_for_all calibrateCamera -> countable inCal -> countable inCal2 ->
  Pattern_eqb (calibrationPattern s) CHESSBOARD = true \/ matchable inCal inCal2 ->
  calibrateCamera (intrinsicCall s inCal) = (cm1, dc1, rv1, tv1) ->
  calibrateCamera (intrinsicCall s inCal2) = (cm2, dc2, rv2, tv2) ->
  exists t call sterCal,
    runCalibrationAndSave reprojNorm calibrateCamera stereoCalibrate stereoRectify
                          checkRange s inCal inCal2 = Ok t /\
    calibrateCalls t = [intrinsicCall s inCal; intrinsicCall s inCal2] /\
    ca_objectPoints (intrinsicCall s inCal) = objectPoints inCal /\
    ca_objectPoints (intrinsicCall s inCal2) = objectPoints inCal2 /\
    ca_cameraMatrix (intrinsicCall s inCal) = eye3 /\
    ca_cameraMatrix (intrinsicCall s inCal2) = eye3 /\
    stereoCalls t = [call] /\
    sa_cameraMatrix1 call = cm1 /\ sa_distCoeffs1 call = dc1 /\
    sa_cameraMatrix2 call = cm2 /\ sa_distCoeffs2 call = dc2 /\
    sa_flags call = CV_CALIB_FIX_INTRINSIC /\
    cameraMatrix (runInCal t) = cm1 /\ cameraMatrix (runInCal2 t) = cm2 /\
    saveEvents t = [SaveExtrinsics sterCal].
Proof.
  intros Hmode Hprior Hposes Hc1 Hc2 Hcase Hs1 Hs2.
  pose proof (solved_ready s inCal cm1 dc1 rv1 tv1 Hposes Hc1 Hs1) as Hr1.
  pose proof (solved_ready s inCal2 cm2 dc2 rv2 tv2 Hposes Hc2 Hs2) as Hr2.
  destruct (runIntrinsicCalibration_run reprojNorm calibrateCamera checkRange
              s inCal cm1 dc1 rv1 tv1 Hs1 Hr1)
    as (c1 & Hrun1 & Hi1 & Ho1 & Hcm1 & Hdc1 & _).
  destruct (runIntrinsicCalibration_run reprojNorm calibrateCamera checkRange
              s inCal2 cm2 dc2 rv2 tv2 Hs2 Hr2)
    as (c2 & Hrun2 & Hi2 & Ho2 & Hcm2 & Hdc2 & _).
  destruct (runStereoCalibration_run s c1 c2)
    as (A & B & c1' & c2' & sterCal & call & -> & -> & Hst & HsA & HsB
        & Hk1 & Hd1 & Hk2 & Hd2 & _ & _ & _ & Hflag).
  { destruct Hcase as [|Hm]; [by left|right].
    revert Hm. by apply matchable_same_points. }
  rewrite Hprior in *.
  destruct (same_intrinsics_fields _ _ HsA) as [HcA _].
  destruct (same_intrinsics_fields _ _ HsB) as [HcB _].
  unfold runCalibrationAndSave. rewrite Hmode, Hprior. cbn [Mode_eqb negb].
  rewrite Hrun1. cbn [obind]. rewrite Hrun2. cbn [obind fst snd].
  rewrite Hst. cbn [obind fst snd].
  exists (mkRunTrace c1' c2' [intrinsicCall s inCal; intrinsicCall s inCal2] [call]
                     [SaveExtrinsics sterCal]), call, sterCal.
  cbn [runInCal runInCal2 calibrateCalls stereoCalls saveEvents].
  unfold intrinsicCall. rewrite Hprior. cbn [ca_objectPoints ca_cameraMatrix
    set_intrinsics objectPoints cameraMatrix].
  repeat split; congruence.
Qed.

(** In stereo mode with intrinsic input no single-camera solve is made and
    no reprojection error is computed: [calibrateCamera] is never called,
    the two calibrations keep their errors and poses, and only the
    extrinsics are saved. *)
Theorem runCalibrationAndSave_prior (s : Settings) (inCal inCal2 : intrinsicCalibration) :
  mode s = STEREO -> useIntrinsicInput s = true ->
  Pattern_eqb (calibrationPattern s) CHESSBOARD = true \/ matchable inCal inCal2 ->
  exists t call sterCal,
    runCalibrationAndSave reprojNorm calibrateCamera stereoCalibrate stereoRectify
                          checkRange s inCal inCal2 = Ok t /\
    calibrateCalls t = [] /\ stereoCalls t = [call] /\
    reprojErrs (runInCal t) = reprojErrs inCal /\
    totalAvgErr (runInCal t) = totalAvgErr inCal /\
    reprojErrs (runInCal2 t) = reprojErrs inCal2 /\
    totalAvgErr (runInCal2 t) = totalAvgErr inCal2 /\
    rvecs (runInCal t) = rvecs inCal /\ rvecs (runInCal2 t) = rvecs inCal2 /\
    saveEvents t = [SaveExtrinsics sterCal].
Proof.
  intros Hmode Hprior Hcase.
  destruct (runStereoCalibration_run s inCal inCal2 Hcase)
    as (A & B & c1' & c2' & sterCal & call & -> & -> & Hst & HsA & HsB & _).
  rewrite Hprior in *.
  destruct (same_intrinsics_errors _ _ HsA) as (He1 & Ha1 & Hrv1 & _).
  destruct (same_intrinsics_errors _ _ HsB) as (He2 & Ha2 & Hrv2 & _).
  unfold runCalibrationAndSave. rewrite Hmode, Hprior. cbn [Mode_eqb negb obind fst snd].
  rewrite Hst. cbn [obind fst snd].
  exists (mkRunTrace c1' c2' [] [call] [SaveExtrinsics sterCal]), call, sterCal.
  cbn [runInCal runInCal2 calibrateCalls stereoCalls saveEvents].
  repeat split; done.
Qed.

End RunProperties.

Lemma exCalibrateCamera_poses : poses_for_all exCalibrateCamera.
Proof. intros a. simpl. by rewrite !length_replicate. Qed.

Lemma runCalibrationAndSave_intrinsic_witness :
  exists t,
    runCalibrationAndSave exNorm exCalibrateCamera exStereoCalibrate exStereoRectify
                          exCheckFails exChess exSolved exB = Ok t /\
    runInCal2 t = exB /\ stereoCalls t = [] /\ saveEvents t = [].
Proof.
  destruct (runCalibrationAndSave_intrinsic exNorm exCalibrateCamera exStereoCalibrate
              exStereoRectify exCheckFails exChess exSolved exB
              eye3 zeros8x1 [[]; []] [[]; []])
    as (t & Hrun & H2 & _ & Hst & _ & _ & _ & _ & Hev).
  - discriminate.
  - exact exCalibrateCamera_poses.
  - unfold countable, well_formed, sets_aligned, fits_int. simpl.
    repeat split; repeat constructor; lia.
  - reflexivity.
  - exists t. split; [exact Hrun|]. split; [exact H2|]. split; [exact Hst|exact Hev].
Defined.

Lemma runCalibrationAndSave_stereo_witness :
  exists t call sterCal,
    runCalibrationAndSave exNorm exCalibrateCamera exStereoCalibrate exStereoRectify
                          exCheckFails exChessStereo exA exB = Ok t /\
    stereoCalls t = [call] /\ sa_cameraMatrix1 call = eye3 /\
    sa_flags call = CV_CALIB_FIX_INTRINSIC /\
    saveEvents t = [SaveExtrinsics sterCal].
Proof.
  destruct (runCalibrationAndSave_stereo exNorm exCalibrateCamera exStereoCalibrate
              exStereoRectify exCheckFails exChessStereo exA exB
              eye3 zeros8x1 eye3 zeros8x1 [[]] [[]] [[]] [[]])
    as (t & call & sterCal & Hrun & _ & _ & _ & _ & _ & Hst & Hk1 & _ & _ & _ & Hflag
        & _ & _ & Hev).
  - reflexivity.
  - reflexivity.
  - exact exCalibrateCamera_poses.
  - unfold countable, well_formed, sets_aligned, fits_int. simpl.
    repeat split; repeat constructor; lia.
  - unfold countable, well_formed, sets_aligned, fits_int. simpl.
    repeat split; repeat constructor; lia.
  - left. reflexivity.
  - reflexivity.
  - reflexivity.
  - exists t, call, sterCal. split; [exact Hrun|]. split; [exact Hst|].
    split; [exact Hk1|]. split; [exact Hflag|exact Hev].
Defined.

Lemma runCalibrationAndSave_prior_witness :
  exists t call sterCal,
    runCalibrationAndSave exNorm exCalibrateCamera exStereoCalibrate exStereoRectify
                          exCheckRange
                          (exSettings STEREO ARUCO_BOX ["XY"; "YZ"; "XZ"]%string 4 true)
                          exA exB = Ok t /\
    calibrateCalls t = [] /\ stereoCalls t = [call] /\
    saveEvents t = [SaveExtrinsics sterCal].
Proof.
  destruct (runCalibrationAndSave_prior exNorm exCalibrateCamera exStereoCalibrate
              exStereoRectify exCheckRange
              (exSettings STEREO ARUCO_BOX ["XY"; "YZ"; "XZ"]%string 4 true) exA exB)
    as (t & call & sterCal & Hrun & Hc & Hst & _ & _ & _ & _ & _ & _ & Hev).
  - reflexivity.
  - reflexivity.
  - right. unfold matchable, well_formed, sets_aligned, collection_fits; simpl.
    repeat split; repeat constructor; unfold fits_int; simpl; lia.
  - exists t, call, sterCal. split; [exact Hrun|]. split; [exact Hc|].
    split; [exact Hst|exact Hev].
Defined.

(** ** Whether the driver calibrates *)

Lemma foundImages_length (images : list detection) :
  (length (foundImages images) <= length images)%nat.
Proof. apply length_filter. Qed.

Lemma imagesOf_length (s : Settings) (b : bool) (images : list detection) (i : nat) :
  (length (imagesOf s b images i) <= length images)%nat.
Proof.
  revert i. induction images as [|d images IH]; intros i; simpl; [lia|].
  destruct (Bool.eqb (slotCamera s i) b); simpl; specialize (IH (S i)); lia.
Qed.

(** When the images have run out, a chessboard run calibrates exactly when
    the board was found in at least one image of the first camera:
    detections of the second camera alone do not count. An ArUco run
    outside preview mode calibrates exactly when at least one set was
    allocated, whether or not any marker was detected. *)
Theorem runsCalibration_iff (s : Settings) (images : list detection) (st : driverState) :
  detectAll s images = Ok st ->
  (Pattern_eqb (calibrationPattern s) CHESSBOARD = true -> fits_int (length images) ->
   (runsCalibration st = true <-> foundImages (imagesOf s false images 0) <> [])) /\
  (Pattern_eqb (calibrationPattern s) CHESSBOARD = false -> mode s <> PREVIEW ->
   fits_int (driverSize s) ->
   (runsCalibration st = true <-> (0 < driverSize s)%nat)).
Proof.
  intros Hrun. unfold runsCalibration. split.
  - intros Hp Hfit.
    assert (Hinv : chess_inv s images (length images) st).
    { apply (detectLoop_inv s images (chess_inv s images))
        with (suf := images) (pre := []) (st := driverInit s); auto.
      - intros i d st0 st1 Hd Hinv. by apply chess_inv_step.
      - split; [apply driver_pos_init|]. intros b. simpl.
        unfold driverInit, camera. rewrite Hp. simpl. by destruct b. }
    destruct Hinv as [_ Hcams]. destruct (Hcams false) as [Hi _].
    rewrite firstn_all in Hi. unfold camera in Hi. rewrite Hi, length_fmap.
    pose proof (foundImages_length (imagesOf s false images 0)) as H1.
    pose proof (imagesOf_length s false images 0) as H2.
    rewrite int_of_size_fits by (eapply fits_int_le; [|exact Hfit]; lia).
    rewrite Z.ltb_lt.
    destruct (foundImages (imagesOf s false images 0)); simpl; split; try done; lia.
  - intros Hp Hmode Hfit.
    assert (Hinv : aruco_sets_inv s images (length images) st).
    { apply (detectLoop_inv s images (aruco_sets_inv s images))
        with (suf := images) (pre := []) (st := driverInit s); auto.
      - intros i d st0 st1 Hd Hinv. by apply aruco_sets_inv_step.
      - by apply aruco_sets_inv_init. }
    destruct Hinv as (_ & Hcams & _). destruct (Hcams false) as [Hl _].
    unfold camera in Hl. rewrite Hl, int_of_size_fits by done.
    rewrite Z.ltb_lt. lia.
Qed.

Lemma runsCalibration_iff_witness :
  (exists st, detectAll exChessStereo [exMiss; exHit; exMiss; exHit] = Ok st /\
              runsCalibration st = false) /\
  (exists st, detectAll exBox [exMiss] = Ok st /\ runsCalibration st = true).
Proof.
  split.
  - assert (Hrun : { st | detectAll exChessStereo [exMiss; exHit; exMiss; exHit] = Ok st })
      by (eexists; vm_compute; reflexivity).
    destruct Hrun as [st Hrun]. exists st. split; [exact Hrun|].
    destruct (runsCalibration_iff exChessStereo [exMiss; exHit; exMiss; exHit] st Hrun)
      as [Hchess _].
    destruct (runsCalibration st) eqn:E; [|reflexivity].
    exfalso. apply (proj1 (Hchess eq_refl ltac:(unfold fits_int; simpl; lia)) eq_refl).
    reflexivity.
  - assert (Hrun : { st | detectAll exBox [exMiss] = Ok st })
      by (eexists; vm_compute; reflexivity).
    destruct Hrun as [st Hrun]. exists st. split; [exact Hrun|].
    destruct (runsCalibration_iff exBox [exMiss] st Hrun) as [_ Haruco].
    apply (Haruco eq_refl ltac:(discriminate) ltac:(unfold fits_int; vm_compute; reflexivity)).
    change (driverSize exBox) with 1%nat. lia.
Defined.

(** ** What [arucoDetect] records when the planes are known *)

Lemma getIntPoints_plane_known (plane : string) (points : list Point3f) :
  known_plane plane -> length (getIntPoints_plane plane points) = length points.
Proof.
  intros [ -> | [ -> | -> ] ]; unfold getIntPoints_plane; cbn [String.eqb Ascii.eqb Bool.eqb];
    rewrite push_each_app; simpl; by rewrite length_fmap.
Qed.

Lemma arucoConfig_known (s : Settings) (d : detection) (vi : nat)
    (c : intrinsicCalibration) (j : nat) (map : MarkerMap) (plane : string) :
  mode s <> PREVIEW ->
  configList s !! j = Some map -> planeList s !! j = Some plane -> known_plane plane ->
  Forall four_points map -> Forall four_corners (detectedMarkers d j) ->
  arucoConfig s d vi c j =
  Ok (appendAt c vi (configPoints s d j).1 (configPoints s d j).2).
Proof.
  intros Hmode Hmap Hplane Hknown Hfp Hfc.
  unfold arucoConfig, configPoints, getIntPoints. rewrite Hmap, Hplane.
  assert (vec_index (configList s) j = Ok map) as ->
    by (unfold vec_index; by rewrite Hmap).
  assert (vec_index (planeList s) j = Ok plane) as ->
    by (unfold vec_index; by rewrite Hplane).
  unfold calcArucoCorners. cbn [obind].
  rewrite (calcArucoCorners_loop map (detectedMarkers d j) [] [] Hfc Hfp).
  cbn [obind fst snd app].
  set (known := knownMarkers (detectedMarkers d j) map).
  set (imgs := known ≫= fun mi => take 4 (marker_corners mi.1)).
  set (objs := known ≫= fun mi => take 4 (info_points mi.2)).
  assert (Hlen : length imgs = length objs).
  { unfold imgs, objs.
    rewrite (bind_take_length 4 (fun mi : Marker * Marker3DInfo => marker_corners mi.1)),
      (bind_take_length 4 (fun mi : Marker * Marker3DInfo => info_points mi.2)); [done| |].
    - apply Forall_forall. intros [m info] [_ [Hin _]%mapEntry_elem]%knownMarkers_elem.
      simpl. by apply (proj1 (Forall_forall _ _) Hfp).
    - apply Forall_forall. intros [m info] [Hin _]%knownMarkers_elem. simpl.
      by apply (proj1 (Forall_forall _ _) Hfc). }
  assert (Mode_eqb (mode s) PREVIEW = false) as -> by (by destruct (mode s)).
  rewrite andb_true_r.
  pose proof (getIntPoints_plane_known plane objs Hknown) as Hl.
  destruct (0 <? length (getIntPoints_plane plane objs))%nat eqn:E.
  - by rewrite appendAt_push.
  - apply Nat.ltb_ge in E.
    assert (Ho : getIntPoints_plane plane objs = [])
      by (apply length_zero_iff_nil; lia).
    assert (Hi : imgs = []) by (apply length_zero_iff_nil; lia).
    by rewrite Ho, Hi, appendAt_nil.
Qed.

Lemma arucoLoop_known (s : Settings) (d : detection) (vi : nat) (k i : nat)
    (c : intrinsicCalibration) :
  mode s <> PREVIEW ->
  (forall j, (i <= j < i + k)%nat ->
     exists map plane, configList s !! j = Some map /\ planeList s !! j = Some plane /\
                       known_plane plane /\ Forall four_points map) ->
  (forall j, Forall four_corners (detectedMarkers d j)) ->
  foldM (arucoConfig s d vi) (seq i k) c =
  Ok (appendAt c vi (seq i k ≫= fun j => (configPoints s d j).1)
                    (seq i k ≫= fun j => (configPoints s d j).2)).
Proof.
  intros Hmode Hcfg Hfc. revert i c Hcfg. induction k as [|k IH]; intros i c Hcfg.
  - simpl. by rewrite appendAt_nil.
  - destruct (Hcfg i ltac:(lia)) as (map & plane & Hmap & Hplane & Hknown & Hfp).
    cbn [seq foldM].
    rewrite (arucoConfig_known s d vi c i map plane Hmode Hmap Hplane Hknown Hfp (Hfc i)).
    cbn [obind]. rewrite IH by (intros j Hj; apply Hcfg; lia).
    by rewrite appendAt_appendAt, !bind_cons.
Qed.

(** Outside preview mode and with known plane labels, [arucoDetect] appends
    to the sets at [vectorIndex], marker map after marker map in the order
    of the config list, the four image corners of each detected marker that
    belongs to the map and the four map points of that marker unified for
    the plane of the map: four correspondences per marker, nothing else. *)
Theorem arucoDetect_known (s : Settings) (d : detection) (inCal : intrinsicCalibration)
    (vi : Z) :
  aruco_ready s d inCal vi -> mode s <> PREVIEW ->
  (forall j plane, (j < Z.to_nat (nConfigs s))%nat -> planeList s !! j = Some plane ->
                   known_plane plane) ->
  arucoDetect s d inCal vi =
  Ok (appendAt inCal (Z.to_nat vi)
        (seq 0 (Z.to_nat (nConfigs s)) ≫= fun j => (configPoints s d j).1)
        (seq 0 (Z.to_nat (nConfigs s)) ≫= fun j => (configPoints s d j).2)).
Proof.
  intros (Hvi & Hc & Hp & Hmaps & Hmarkers) Hmode Hplanes.
  rewrite (arucoDetect_loop s d inCal vi) by (intros H; by apply Hvi).
  apply arucoLoop_known; [done| |done].
  intros j Hj.
  destruct (lookup_lt_is_Some_2 (configList s) j) as [map Hmap]; [lia|].
  destruct (lookup_lt_is_Some_2 (planeList s) j) as [plane Hplane]; [lia|].
  exists map, plane. split; [done|]. split; [done|]. split.
  - apply (Hplanes j); [lia|done].
  - eapply Forall_lookup_1; eauto.
Qed.

Lemma arucoDetect_known_witness :
  arucoDetect exBox exHit exSized 0 =
  Ok (calibrationOf
        [[P2 100 100; P2 200 100; P2 200 200; P2 100 200;
          P2 100 100; P2 200 100; P2 200 200; P2 100 200;
          P2 100 100; P2 200 100; P2 200 200; P2 100 200]]
        [getIntPoints_plane "XY" [P3 0 0 0; P3 125 0 0; P3 125 125 0; P3 0 125 0] ++
         getIntPoints_plane "YZ" [P3 0 0 0; P3 125 0 0; P3 125 125 0; P3 0 125 0] ++
         getIntPoints_plane "XZ" [P3 0 0 0; P3 125 0 0; P3 125 125 0; P3 0 125 0]]).
Proof.
  rewrite (arucoDetect_known exBox exHit exSized 0).
  - reflexivity.
  - unfold aruco_ready. simpl. repeat split; try lia.
    + repeat constructor.
    + intros j. repeat constructor.
  - discriminate.
  - intros j plane Hj Hplane.
    destruct j as [|[|[|j]]]; simpl in Hplane; try discriminate;
      injection Hplane as <-; unfold known_plane; auto.
Defined.

(** ** The seed of the intrinsic solve *)

Lemma computeReprojectionErrors_frame
    (reprojNorm : list Point3f -> Mat -> Mat -> Mat -> Mat -> list Point2f -> spec_float)
    (inCal c : intrinsicCalibration) (avg : spec_float) :
  computeReprojectionErrors reprojNorm inCal = Ok (c, avg) ->
  cameraMatrix c = cameraMatrix inCal /\ distCoeffs c = distCoeffs inCal /\
  rvecs c = rvecs inCal /\ tvecs c = tvecs inCal /\
  imagePoints c = imagePoints inCal /\ objectPoints c = objectPoints inCal.
Proof.
  unfold computeReprojectionErrors.
  destruct (for_int _ _ _) as [st|e]; [|discriminate]. cbn [obind].
  intros [= <- _]. done.
Qed.

(** C9. [runIntrinsicCalibration] hands [calibrateCamera] one call and keeps
    what it answers: whenever the function returns, the camera matrix, the
    distortion coefficients and the poses of the calibration are the
    solver's answer to that call, the flag returned is [checkRange] of the
    two solved matrices, and the correspondences are untouched; it does
    return when the solver gives a pose for every image. The call is made on
    the collection's points; with a prior it is seeded with the prior's
    camera matrix and distortion coefficients and its flags are the
    configured ones with the use-intrinsic-guess bit set; without a prior it
    is seeded with the 3x3 identity and the 8x1 zero vector and its flags
    are the configured ones. *)
Theorem runIntrinsicCalibration_seed
    (reprojNorm : list Point3f -> Mat -> Mat -> Mat -> Mat -> list Point2f -> spec_float)
    (calibrateCamera : calibrateArgs -> Mat * Mat * list Mat * list Mat)
    (checkRange : Mat -> bool)
    (s : Settings) (inCal : intrinsicCalibration) :
  let call := intrinsicCall s inCal in
  let solved := calibrateCamera call in
  (forall ok inCal' call',
     runIntrinsicCalibration reprojNorm calibrateCamera checkRange s inCal
       = Ok (ok, inCal', call') ->
     call' = call /\
     (cameraMatrix inCal', distCoeffs inCal', rvecs inCal', tvecs inCal') = solved /\
     ok = checkRange solved.1.1.1 && checkRange solved.1.1.2 /\
     imagePoints inCal' = imagePoints inCal /\
     objectPoints inCal' = objectPoints inCal) /\
  (reproj_ready (set_solution inCal solved.1.1.1 solved.1.1.2 solved.1.2 solved.2) ->
   exists inCal',
     runIntrinsicCalibration reprojNorm calibrateCamera checkRange s inCal
       = Ok (checkRange solved.1.1.1 && checkRange solved.1.1.2, inCal', call)) /\
  ca_objectPoints call = objectPoints inCal /\
  ca_imagePoints call = imagePoints inCal /\
  ca_imageSize call = imageSize s /\
  (useIntrinsicInput s = true ->
     ca_cameraMatrix call = cameraMatrix (intrinsicInput s) /\
     ca_distCoeffs call = distCoeffs (intrinsicInput s) /\
     ca_flags call = Z.lor (flag s) CV_CALIB_USE_INTRINSIC_GUESS /\
     Z.testbit (ca_flags call) 0 = true) /\
  (useIntrinsicInput s = false ->
     ca_cameraMatrix call =
       [[F64.of_int 1; F64.of_int 0; F64.of_int 0];
        [F64.of_int 0; F64.of_int 1; F64.of_int 0];
        [F64.of_int 0; F64.of_int 0; F64.of_int 1]] /\
     ca_distCoeffs call = replicate 8 [F64.of_int 0] /\
     ca_flags call = flag s).
Proof.
  intros call solved.
  assert (Hsolved : calibrateCamera call = (solved.1.1.1, solved.1.1.2, solved.1.2, solved.2))
    by (unfold solved; by destruct (calibrateCamera call) as [[[cm dc] rv] tv]).
  split; [|split; [|split; [|split; [|split; [|split]]]]].
  - intros ok inCal' call' Hrun.
    destruct (computeReprojectionErrors reprojNorm
                (set_solution inCal solved.1.1.1 solved.1.1.2 solved.1.2 solved.2))
      as [[c avg]|e] eqn:E.
    + pose proof (computeReprojectionErrors_frame reprojNorm _ _ _ E) as Hframe.
      unfold runIntrinsicCalibration in Hrun. fold call in Hrun.
      rewrite Hsolved in Hrun. cbn [cameraMatrix distCoeffs set_solution] in Hrun.
      rewrite E in Hrun. cbn [obind fst snd] in Hrun.
      injection Hrun as <- <- <-.
      destruct Hframe as (Hcm & Hdc & Hrv & Htv & Hip & Hop).
      split; [done|]. split.
      * fold solved. rewrite (surjective_pairing solved), (surjective_pairing solved.1),
          (surjective_pairing solved.1.1). simpl in *. by rewrite Hcm, Hdc, Hrv, Htv.
      * split; [done|]. simpl in *. by rewrite Hip, Hop.
    + unfold runIntrinsicCalibration in Hrun. fold call in Hrun.
      rewrite Hsolved in Hrun. cbn [cameraMatrix distCoeffs set_solution] in Hrun.
      rewrite E in Hrun. discriminate Hrun.
  - intros Hready.
    destruct (runIntrinsicCalibration_run reprojNorm calibrateCamera checkRange
                s inCal _ _ _ _ Hsolved Hready) as (inCal' & Hrun & _).
    by exists inCal'.
  - unfold call, intrinsicCall. by destruct (useIntrinsicInput s).
  - unfold call, intrinsicCall. by destruct (useIntrinsicInput s).
  - unfold call, intrinsicCall. by destruct (useIntrinsicInput s).
  - intros Hprior. unfold call, intrinsicCall. rewrite Hprior.
    cbn [ca_cameraMatrix ca_distCoeffs ca_flags set_intrinsics cameraMatrix distCoeffs].
    repeat split. rewrite Z.lor_spec. apply orb_true_r.
  - intros Hprior. unfold call, intrinsicCall. rewrite Hprior. simpl. done.
Qed.

Lemma runIntrinsicCalibration_seed_witness :
  (exists c,
     runIntrinsicCalibration exNorm exCalibrateCamera exCheckRange exBox exSolved
       = Ok (true, c, intrinsicCall exBox exSolved) /\
     cameraMatrix c = [[F64.of_int 500]] /\ length (rvecs c) = 2%nat) /\
  ca_cameraMatrix (intrinsicCall exBox exSolved) = [[F64.of_int 500]] /\
  Z.testbit (ca_flags (intrinsicCall exBox exSolved)) 0 = true /\
  ca_cameraMatrix (intrinsicCall exChess exSolved) =
    [[F64.of_int 1; F64.of_int 0; F64.of_int 0];
     [F64.of_int 0; F64.of_int 1; F64.of_int 0];
     [F64.of_int 0; F64.of_int 0; F64.of_int 1]] /\
  ca_distCoeffs (intrinsicCall exChess exSolved) = replicate 8 [F64.of_int 0].
Proof.
  destruct (runIntrinsicCalibration_seed exNorm exCalibrateCamera exCheckRange
              exBox exSolved) as (Htie & Hrun & _ & _ & _ & Hprior & _).
  destruct (runIntrinsicCalibration_seed exNorm exCalibrateCamera exCheckRange
              exChess exSolved) as (_ & _ & _ & _ & _ & _ & Hnone).
  destruct (Hprior eq_refl) as (Hcm & _ & _ & Hbit).
  destruct (Hnone eq_refl) as (Heye & Hzero & _).
  split; [|split; [exact Hcm|split; [exact Hbit|split; [exact Heye|exact Hzero]]]].
  destruct Hrun as [c Hc].
  { unfold reproj_ready, fits_int. simpl. repeat split; lia. }
  exists c. split; [exact Hc|].
  destruct (Htie _ _ _ Hc) as (_ & Hsol & _).
  injection Hsol as Hc1 _ Hc3 _. split; [exact Hc1|]. by rewrite Hc3.
Defined.

(** ** Which positions [getSharedPoints] matches *)

Lemma sharedPairs_increasing (oPoints2 suf : list Point3f) (j0 k k' : nat)
    (js js' : nat * nat) :
  (k < k')%nat ->
  sharedPairs suf oPoints2 j0 !! k = Some js ->
  sharedPairs suf oPoints2 j0 !! k' = Some js' ->
  (js.1 < js'.1)%nat.
Proof.
  revert j0 k k'. induction suf as [|p suf IH]; intros j0 k k' Hk; simpl; [done|].
  destruct (firstShared p oPoints2) as [s|]; [|by apply IH].
  destruct k' as [|k']; [lia|]. destruct k as [|k]; simpl.
  - intros [= <-] Hin. destruct js' as [j' s'].
    apply list_elem_of_lookup_2, sharedPairs_elem in Hin as (_ & Hj & _). simpl. lia.
  - apply IH. lia.
Qed.

Lemma first_equal_firstShared (p : Point3f) (l : list Point3f) (s : nat) (q : Point3f) :
  l !! s = Some q -> Point3f_eqb p q = true ->
  (forall s' q', (s' < s)%nat -> l !! s' = Some q' -> Point3f_eqb p q' = false) ->
  firstShared p l = Some s.
Proof.
  revert s. induction l as [|r l IH]; intros s Hq Heq Hmin; [done|]. simpl.
  destruct s as [|s]; simpl in Hq.
  - injection Hq as ->. by rewrite Heq.
  - rewrite (Hmin 0%nat r) by (simpl; done || lia).
    rewrite (IH s); [done|done|done|].
    intros s' q' Hs' Hq'. apply (Hmin (S s')); [lia|done].
Qed.

(** C6, as amended. For every image index the outputs are read off a list
    of pairs [(j, s)] of a position of A's set and a position of B's set: the
    object point and A's image point come from position [j], B's image point
    from position [s]. The list holds, in A's order, exactly the pairs in
    which [s] is the first position of B's set that holds a point equal to
    the one at [j], the scan of B's set starting at position 0 for each point
    of A: every point of A with an equal point in B is matched, and matched
    with that first position. A position of B is matched for two points of A
    only when those are equal: when no two points of A's set are equal, the
    matched positions of B are pairwise distinct. *)
Theorem getSharedPoints_first_match (A B : intrinsicCalibration) :
  matchable A B ->
  exists A' B',
    getSharedPoints A B = Ok (A', B') /\
    forall i oa ob ia ib,
      rows (A, B) i = (Some oa, Some ob, Some ia, Some ib) ->
      exists pairs : list (nat * nat),
        objectPoints A' !! i = Some ((fun js => oa !!! js.1) <$> pairs) /\
        objectPoints B' !! i = Some ((fun js => oa !!! js.1) <$> pairs) /\
        imagePoints A' !! i = Some ((fun js => ia !!! js.1) <$> pairs) /\
        imagePoints B' !! i = Some ((fun js => ib !!! js.2) <$> pairs) /\
        (forall j s, (j, s) ∈ pairs <->
           exists p q, oa !! j = Some p /\ ob !! s = Some q /\
                       Point3f_eqb p q = true /\
                       forall s' q', (s' < s)%nat -> ob !! s' = Some q' ->
                                     Point3f_eqb p q' = false) /\
        (forall k k' js js', (k < k')%nat -> pairs !! k = Some js ->
           pairs !! k' = Some js' -> (js.1 < js'.1)%nat) /\
        (forall j p, oa !! j = Some p -> present p ob = true ->
           exists s, (j, s) ∈ pairs) /\
        (forall j j' s p p', (j, s) ∈ pairs -> (j', s) ∈ pairs ->
           oa !! j = Some p -> oa !! j' = Some p' -> Point3f_eqb p p' = true) /\
        (distinct_points oa -> NoDup pairs.*2).
Proof.
  intros Hm.
  destruct (getSharedPoints_run A B Hm) as ([A' B'] & Hrun & _ & _ & _ & Hrows).
  exists A', B'. split; [done|].
  intros i oa ob ia ib Hrow. exists (sharedPairs oa ob 0).
  specialize (Hrows _ _ _ _ _ Hrow). unfold rows in Hrows. simpl in Hrows.
  injection Hrows as HoA HoB HiA HiB.
  assert (Helem : forall j s, (j, s) ∈ sharedPairs oa ob 0 <->
            exists p, oa !! j = Some p /\ firstShared p ob = Some s).
  { intros j s. rewrite sharedPairs_elem. rewrite Nat.sub_0_r.
    split; [intros (p & _ & Hp & Hs); eauto|intros (p & Hp & Hs); exists p; auto with lia]. }
  split; [done|]. split; [done|]. split; [done|]. split; [done|].
  split; [|split; [|split; [|split]]].
  - intros j s. rewrite Helem. split.
    + intros (p & Hp & Hs).
      destruct (firstShared_Some _ _ _ Hs) as (q & Hq & Heq & Hmin).
      exists p, q. auto.
    + intros (p & q & Hp & Hq & Heq & Hmin). exists p. split; [done|].
      by eapply first_equal_firstShared.
  - intros k k' js js'. apply sharedPairs_increasing.
  - intros j p Hp Hpres. apply firstShared_present in Hpres as [s Hs].
    exists s. apply Helem. eauto.
  - intros j j' s p p' (p0 & Hp0 & Hs)%Helem (p1 & Hp1 & Hs')%Helem Hp Hp'.
    assert (p0 = p) as -> by congruence. assert (p1 = p') as -> by congruence.
    destruct (firstShared_Some _ _ _ Hs) as (q & Hq & Heq & _).
    destruct (firstShared_Some _ _ _ Hs') as (q' & Hq' & Heq' & _).
    assert (q' = q) as -> by congruence.
    eapply Point3f_eqb_trans; [exact Heq|]. by rewrite Point3f_eqb_sym.
  - intros Hd. apply (sharedPairs_NoDup ob oa []). done.
Qed.

Lemma getSharedPoints_first_match_witness :
  matchable exA exB /\
  exists A' B',
    getSharedPoints exA exB = Ok (A', B') /\
    exists pairs : list (nat * nat),
      imagePoints A' !! 0%nat = Some ((fun js => [P2 10 10; P2 20 20; P2 30 30] !!! js.1) <$> pairs) /\
      imagePoints B' !! 0%nat = Some ((fun js => [P2 21 21; P2 31 31; P2 41 41] !!! js.2) <$> pairs) /\
      (1, 0)%nat ∈ pairs /\ (2, 1)%nat ∈ pairs /\ (forall s, (0%nat, s) ∉ pairs).
Proof.
  assert (H : matchable exA exB) by solve_matchable.
  split; [exact H|].
  destruct (getSharedPoints_first_match exA exB H) as (A' & B' & Hrun & Hrows).
  exists A', B'. split; [exact Hrun|].
  destruct (Hrows 0%nat _ _ _ _ eq_refl)
    as (pairs & _ & _ & HiA & HiB & Hiff & _).
  exists pairs. split; [exact HiA|]. split; [exact HiB|].
  split; [|split].
  - apply Hiff. exists (P3 2 0 0), (P3 2 0 0).
    split; [reflexivity|]. split; [reflexivity|]. split; [vm_compute; reflexivity|].
    intros s' q' Hs'. lia.
  - apply Hiff. exists (P3 3 0 0), (P3 3 0 0).
    split; [reflexivity|]. split; [reflexivity|]. split; [vm_compute; reflexivity|].
    intros [|[|s']] q' Hs'; [|lia|lia]. intros [= <-]. vm_compute. reflexivity.
  - intros s Hin. apply Hiff in Hin as (p & q & Hp & Hq & Heq & _).
    injection Hp as <-.
    destruct s as [|[|[|s]]]; simpl in Hq; try discriminate;
      injection Hq as <-; vm_compute in Heq; discriminate.
Defined.

(** ** Images in which the pattern is not found *)

Lemma imagesOf_single_camera (s : Settings) (images : list detection) (i : nat) :
  stereo s = false -> imagesOf s false images i = images.
Proof.
  intros Hs. revert i. induction images as [|d images IH]; intros i; [done|].
  simpl. unfold slotCamera. rewrite Hs. simpl. by rewrite IH.
Qed.

Lemma detectAll_chess_inv (s : Settings) (images : list detection) :
  Pattern_eqb (calibrationPattern s) CHESSBOARD = true ->
  exists st, detectAll s images = Ok st /\ chess_inv s images (length images) st.
Proof.
  intros Hp.
  destruct (detectLoop_chessboard_total s images 0 (driverInit s) Hp) as [st Hrun].
  exists st. split; [done|].
  apply (detectLoop_inv s images (chess_inv s images))
    with (suf := images) (pre := []) (st := driverInit s); auto.
  - intros i d st0 st1 Hd Hinv. by apply chess_inv_step.
  - split; [apply driver_pos_init|]. intros b. simpl.
    unfold driverInit, camera. rewrite Hp. simpl. by destruct b.
Qed.

(** C3, as amended. In the two cases that follow, an image in which the
    pattern is not found is no error and the run continues. In a chessboard
    run with one camera the image is left out: its pass leaves both
    collections as they are, and the detection pass over any images
    completes with one set per image in which the board was found. An ArUco
    run, given what [arucoDetect] relies on (a marker map and a plane label
    for each of the [nConfigs] maps, markers and map entries of four
    corners) and no more images than announced, an even number of them in
    stereo mode, completes its detection pass with both collections at their
    allocated length, and every image in which no marker of any map was
    found has an empty set at its position in its camera's collection. *)
Theorem detection_miss (s : Settings) (images : list detection) :
  (forall st i d,
     Pattern_eqb (calibrationPattern s) CHESSBOARD = true -> stereo s = false ->
     found d = false ->
     exists st', driverStep s st i d = Ok st' /\
                 dInCal st' = dInCal st /\ dInCal2 st' = dInCal2 st) /\
  (Pattern_eqb (calibrationPattern s) CHESSBOARD = true -> stereo s = false ->
   exists st, detectAll s images = Ok st /\
              imagePoints (dInCal st) = corners <$> foundImages images /\
              length (objectPoints (dInCal st)) = length (foundImages images)) /\
  (Pattern_eqb (calibrationPattern s) CHESSBOARD = false ->
   (Z.to_nat (nConfigs s) <= length (configList s))%nat ->
   (Z.to_nat (nConfigs s) <= length (planeList s))%nat ->
   Forall (Forall four_points) (configList s) ->
   Forall (fun d => forall j, Forall four_corners (detectedMarkers d j)) images ->
   (Z.of_nat (length images) <= nImages s)%Z ->
   (stereo s = true -> Z.even (nImages s) = true) ->
   exists st,
     detectAll s images = Ok st /\
     (forall b, length (imagePoints (camera st b)) = driverSize s /\
                length (objectPoints (camera st b)) = driverSize s) /\
     forall i d, images !! i = Some d -> aruco_miss s d ->
       slot_empty (camera st (slotCamera s i)) (slotIndex s i)).
Proof.
  split; [|split].
  - intros st i d Hpat _ Hf. by apply driverStep_chessboard_miss.
  - intros Hpat Hone.
    destruct (detectAll_chess_inv s images Hpat) as (st & Hrun & _ & Hcams).
    exists st. split; [done|]. destruct (Hcams false) as [Hi Ho].
    rewrite firstn_all, (imagesOf_single_camera s images 0 Hone) in Hi, Ho.
    split; [exact Hi|]. simpl in Ho. by rewrite Ho, length_fmap.
  - intros Hpat Hc Hp Hmaps Hmarkers Hcount Heven. unfold detectAll.
    destruct (detectLoop_aruco s images Hpat Hc Hp Hmaps Hmarkers images []
                (driverInit s) eq_refl)
      as (st & Hrun & _ & _ & Hcams & _ & Hmiss).
    + intros i Hi. by eapply slots_in_range.
    + by apply driverInit_inv.
    + exists st. split; [exact Hrun|]. split.
      * intros b. destruct (Hcams b) as [Hlen Hwf]. split; [done|].
        rewrite <- Hlen. symmetry. by eapply Forall2_length.
      * intros i d Hd Hm. apply (Hmiss i d); [by eapply lookup_lt_Some|done|done].
Qed.

Lemma detection_miss_witness :
  (exists st', driverStep exChess (driverInit exChess) 0 exMiss = Ok st' /\
               dInCal st' = dInCal (driverInit exChess) /\
               dInCal2 st' = dInCal2 (driverInit exChess)) /\
  (exists st, detectAll exChess [exMiss; exHit] = Ok st /\
              imagePoints (dInCal st) = [corners exHit]) /\
  exists st,
    detectAll exBox [exMiss] = Ok st /\
    (forall b, length (imagePoints (camera st b)) = 1%nat /\
               length (objectPoints (camera st b)) = 1%nat) /\
    slot_empty (dInCal st) 0.
Proof.
  assert (H1 : (Z.to_nat (nConfigs exBox) <= length (configList exBox))%nat)
    by (simpl; lia).
  assert (H2 : (Z.to_nat (nConfigs exBox) <= length (planeList exBox))%nat)
    by (simpl; lia).
  assert (H3 : Forall (Forall four_points) (configList exBox))
    by repeat constructor.
  assert (H4 : Forall (fun d => forall j, Forall four_corners (detectedMarkers d j))
                      [exMiss])
    by (repeat constructor).
  assert (H5 : (Z.of_nat (length [exMiss]) <= nImages exBox)%Z) by (simpl; lia).
  assert (H6 : stereo exBox = true -> Z.even (nImages exBox) = true)
    by (intros H; discriminate H).
  destruct (detection_miss exChess [exMiss; exHit]) as (Hstep & Hchess & _).
  destruct (detection_miss exBox [exMiss]) as (_ & _ & Haruco).
  split; [apply Hstep; reflexivity|]. split.
  - destruct (Hchess eq_refl eq_refl) as (st & Hrun & Hi & _).
    exists st. split; [exact Hrun|exact Hi].
  - destruct (Haruco eq_refl H1 H2 H3 H4 H5 H6) as (st & Hrun & Hlen & Hempty).
    exists st. split; [exact Hrun|]. split; [exact Hlen|].
    apply (Hempty 0%nat exMiss eq_refl). intros j map _. constructor.
Defined.

(** ** Index by index: what the sets pair *)

Lemma getIntPoints_plane_unifyPoint (plane : string) (points : list Point3f) :
  getIntPoints_plane plane points =
  match unifyPoint plane with Some u => u <$> points | None => [] end.
Proof.
  unfold getIntPoints_plane, unifyPoint.
  repeat (destruct (String.eqb plane _); [by rewrite push_each_app|]). done.
Qed.

Lemma markerPairs_split (u : Point3f -> Point3f) (known : list (Marker * Marker3DInfo)) :
  Forall (fun mi => four_corners mi.1 /\ four_points mi.2) known ->
  (known ≫= markerPairs u).*1 = (known ≫= fun mi => take 4 (marker_corners mi.1)) /\
  (known ≫= markerPairs u).*2 =
    u <$> (known ≫= fun mi => take 4 (info_points mi.2)).
Proof.
  induction 1 as [|mi known [Hc Hp] _ [IH1 IH2]]; [done|].
  rewrite !bind_cons, !fmap_app, IH1, IH2.
  unfold markerPairs, four_corners, four_points in *.
  assert (Hlen : length (take 4 (marker_corners mi.1)) =
                 length (u <$> take 4 (info_points mi.2)))
    by (rewrite length_fmap, !length_take; lia).
  rewrite fst_zip, snd_zip by lia. done.
Qed.

Lemma knownMarkers_four (markers : list Marker) (map : MarkerMap) :
  Forall four_corners markers -> Forall four_points map ->
  Forall (fun mi => four_corners mi.1 /\ four_points mi.2) (knownMarkers markers map).
Proof.
  intros Hfc Hfp. apply Forall_forall.
  intros [m info] [Hm [Hin _]%mapEntry_elem]%knownMarkers_elem. simpl. split.
  - by apply (proj1 (Forall_forall _ _) Hfc).
  - by apply (proj1 (Forall_forall _ _) Hfp).
Qed.

Lemma bind_take_lookup {X Y : Type} (f : X -> list Y) (l : list X) (n c : nat) (x : X) :
  Forall (fun x => (4 <= length (f x))%nat) l ->
  l !! n = Some x -> (c < 4)%nat ->
  (l ≫= fun x => take 4 (f x)) !! (4 * n + c)%nat = f x !! c.
Proof.
  intros Hl. revert n. induction Hl as [|y l Hy _ IH]; intros n Hn Hc; [done|].
  rewrite bind_cons. destruct n as [|n]; simpl in Hn.
  - injection Hn as ->. rewrite lookup_app_l by (rewrite length_take; lia).
    rewrite Nat.mul_0_r, Nat.add_0_l. by rewrite lookup_take_lt.
  - rewrite lookup_app_r by (rewrite length_take; lia).
    rewrite length_take.
    replace (4 * S n + c - 4 `min` length (f y))%nat with (4 * n + c)%nat by lia.
    by apply IH.
Qed.

Lemma arucoConfig_pairs (s : Settings) (d : detection) (vi : nat)
    (c : intrinsicCalibration) (j : nat) (map : MarkerMap) (plane : string) :
  mode s <> PREVIEW ->
  configList s !! j = Some map -> planeList s !! j = Some plane ->
  Forall four_points map -> Forall four_corners (detectedMarkers d j) ->
  arucoConfig s d vi c j =
  Ok (appendAt c vi (configPairs s d j).*1 (configPairs s d j).*2).
Proof.
  intros Hmode Hmap Hplane Hfp Hfc.
  unfold arucoConfig, configPairs, getIntPoints. rewrite Hmap, Hplane.
  assert (vec_index (configList s) j = Ok map) as ->
    by (unfold vec_index; by rewrite Hmap).
  assert (vec_index (planeList s) j = Ok plane) as ->
    by (unfold vec_index; by rewrite Hplane).
  unfold calcArucoCorners. cbn [obind].
  rewrite (calcArucoCorners_loop map (detectedMarkers d j) [] [] Hfc Hfp).
  cbn [obind fst snd app].
  assert (Mode_eqb (mode s) PREVIEW = false) as -> by (by destruct (mode s)).
  rewrite andb_true_r, getIntPoints_plane_unifyPoint.
  set (known := knownMarkers (detectedMarkers d j) map).
  destruct (unifyPoint plane) as [u|]; [|by rewrite appendAt_nil].
  destruct (markerPairs_split u known (knownMarkers_four _ _ Hfc Hfp)) as [-> ->].
  set (imgs := known ≫= fun mi => take 4 (marker_corners mi.1)).
  set (objs := known ≫= fun mi => take 4 (info_points mi.2)).
  assert (Hlen : length imgs = length objs).
  { pose proof (knownMarkers_four _ _ Hfc Hfp) as Hk. fold known in Hk.
    unfold imgs, objs.
    rewrite (bind_take_length 4 (fun mi : Marker * Marker3DInfo => marker_corners mi.1)),
      (bind_take_length 4 (fun mi : Marker * Marker3DInfo => info_points mi.2)); [done| |].
    - eapply Forall_impl; [exact Hk|]. by intros mi [_ H].
    - eapply Forall_impl; [exact Hk|]. by intros mi [H _]. }
  destruct (0 <? length (u <$> objs))%nat eqn:E.
  - by rewrite appendAt_push.
  - apply Nat.ltb_ge in E. rewrite length_fmap in E.
    assert (Ho : objs = []) by (apply length_zero_iff_nil; lia).
    assert (Hi : imgs = []) by (apply length_zero_iff_nil; lia).
    by rewrite Ho, Hi, appendAt_nil.
Qed.

Lemma arucoLoop_pairs (s : Settings) (d : detection) (vi : nat) (k i : nat)
    (c : intrinsicCalibration) :
  mode s <> PREVIEW ->
  (forall j, (i <= j < i + k)%nat ->
     exists map plane, configList s !! j = Some map /\ planeList s !! j = Some plane /\
                       Forall four_points map) ->
  (forall j, Forall four_corners (detectedMarkers d j)) ->
  foldM (arucoConfig s d vi) (seq i k) c =
  Ok (appendAt c vi (seq i k ≫= configPairs s d).*1 (seq i k ≫= configPairs s d).*2).
Proof.
  intros Hmode Hcfg Hfc. revert i c Hcfg. induction k as [|k IH]; intros i c Hcfg.
  - simpl. by rewrite appendAt_nil.
  - destruct (Hcfg i ltac:(lia)) as (map & plane & Hmap & Hplane & Hfp).
    cbn [seq foldM].
    rewrite (arucoConfig_pairs s d vi c i map plane Hmode Hmap Hplane Hfp (Hfc i)).
    cbn [obind]. rewrite IH by (intros j Hj; apply Hcfg; lia).
    by rewrite appendAt_appendAt, !bind_cons, !fmap_app.
Qed.

Lemma calcChessboardCorners_lookup (s : Settings) (i j : Z) :
  (0 <= i < boardSize_height s)%Z -> (0 <= j < boardSize_width s)%Z ->
  calcChessboardCorners s [] !! Z.to_nat (i * boardSize_width s + j)
  = Some (chessboardCorner (squareSize s) i j).
Proof.
  intros Hi Hj. rewrite calcChessboardCorners_rows. simpl.
  replace (Z.to_nat (i * boardSize_width s + j))
    with (Z.to_nat i * Z.to_nat (boardSize_width s) + Z.to_nat j)%nat by nia.
  rewrite (lookup_concat_uniform (Z.to_nat (boardSize_width s))).
  - rewrite list_lookup_fmap, lookup_seqZ_lt by lia. simpl.
    rewrite list_lookup_fmap, lookup_seqZ_lt by lia. simpl.
    by rewrite !Z2Nat.id by lia.
  - apply Forall_fmap, Forall_forall. intros x _. simpl.
    by rewrite length_fmap, length_seqZ.
  - lia.
Qed.

(** C8. Each operation that creates or changes Point Correspondence Sets
    leaves every image's 2D and 3D sequences of equal length, with the same
    index in both for the two points of one correspondence.
    [chessboardDetect] leaves the sets it is given as they are and, for a
    board that is found (with all its corners), appends the corners as
    detected and the grid of the board, whose point of row [i] and column [j]
    is at index [i * width + j]. [calcArucoCorners] fills its two buffers
    with four points per detected marker of the map: at index [4 n + c],
    corner [c] of the [n]-th such marker and point [c] of the map entry of
    that identity. [arucoDetect], given what it relies on, appends to the
    sets at [vectorIndex] the two components of one sequence of pairs: for
    each marker map in turn and each of its detected markers, the four
    corners, each with the unified map point of the same index, and nothing
    for a map whose plane label is unknown. [getSharedPoints] on two
    matchable collections returns sets of equal length in which the points at
    an index are, for the first camera, the 2D and the 3D point of one index
    of its input set, and for the second, the 2D point of an index of its
    input set whose 3D point equals the one kept. The driver's detection
    pass, made of these, ends with aligned sets in both collections. *)
Theorem correspondence_sets_aligned (s : Settings) :
  (forall d inCal,
     well_formed inCal -> chessboard_contract s d ->
     well_formed (chessboardDetect s d inCal) /\
     (found d = false -> chessboardDetect s d inCal = inCal) /\
     (found d = true ->
      exists grid,
        imagePoints (chessboardDetect s d inCal) = imagePoints inCal ++ [corners d] /\
        objectPoints (chessboardDetect s d inCal) = objectPoints inCal ++ [grid] /\
        length grid = length (corners d) /\
        forall i j, (0 <= i < boardSize_height s)%Z -> (0 <= j < boardSize_width s)%Z ->
          grid !! Z.to_nat (i * boardSize_width s + j)
          = Some (chessboardCorner (squareSize s) i j))) /\
  (forall markers map,
     (forall bufs, calcArucoCorners markers map = Ok bufs ->
                   length bufs.1 = length bufs.2) /\
     (Forall four_corners markers -> Forall four_points map ->
      exists imagePointsBuf objectPointsBuf,
        calcArucoCorners markers map = Ok (imagePointsBuf, objectPointsBuf) /\
        length imagePointsBuf = (4 * length (knownMarkers markers map))%nat /\
        length objectPointsBuf = (4 * length (knownMarkers markers map))%nat /\
        forall n m info c,
          knownMarkers markers map !! n = Some (m, info) -> (c < 4)%nat ->
          m ∈ markers /\ info ∈ map /\ info_id info = marker_id m /\
          imagePointsBuf !! (4 * n + c)%nat = marker_corners m !! c /\
          objectPointsBuf !! (4 * n + c)%nat = info_points info !! c)) /\
  (forall d inCal vi,
     well_formed inCal -> aruco_ready s d inCal vi ->
     exists inCal',
       arucoDetect s d inCal vi = Ok inCal' /\ well_formed inCal' /\
       (mode s <> PREVIEW ->
        inCal' = appendAt inCal (Z.to_nat vi)
                   (seq 0 (Z.to_nat (nConfigs s)) ≫= configPairs s d).*1
                   (seq 0 (Z.to_nat (nConfigs s)) ≫= configPairs s d).*2)) /\
  (forall A B,
     matchable A B ->
     exists A' B',
       getSharedPoints A B = Ok (A', B') /\ well_formed A' /\ well_formed B' /\
       forall i oa ob ia ib,
         rows (A, B) i = (Some oa, Some ob, Some ia, Some ib) ->
         exists so si si2,
           rows (A', B') i = (Some so, Some so, Some si, Some si2) /\
           length si = length so /\ length si2 = length so /\
           forall k p, so !! k = Some p ->
             exists j t q,
               oa !! j = Some p /\ si !! k = ia !! j /\
               ob !! t = Some q /\ Point3f_eqb p q = true /\ si2 !! k = ib !! t) /\
  (forall images st,
     Forall (chessboard_contract s) images -> detectAll s images = Ok st ->
     well_formed (dInCal st) /\ well_formed (dInCal2 st)).
Proof.
  split; [|split; [|split; [|split]]].
  - intros d inCal Hwf Hcb. split; [by apply chessboardDetect_well_formed|].
    unfold chessboardDetect. split; [by intros ->|]. intros Hf. rewrite Hf.
    exists (calcChessboardCorners s []). split; [done|]. split; [done|]. split.
    + rewrite calcChessboardCorners_length, (Hcb Hf). simpl. lia.
    + apply calcChessboardCorners_lookup.
  - intros markers map. split; [apply calcArucoCorners_length|].
    intros Hfc Hfp. pose proof (knownMarkers_four _ _ Hfc Hfp) as Hk.
    eexists _, _. split.
    { unfold calcArucoCorners. by rewrite calcArucoCorners_loop. }
    simpl. split; [|split].
    + apply (bind_take_length 4 (fun mi : Marker * Marker3DInfo => marker_corners mi.1)).
      eapply Forall_impl; [exact Hk|]. by intros mi [H _].
    + apply (bind_take_length 4 (fun mi : Marker * Marker3DInfo => info_points mi.2)).
      eapply Forall_impl; [exact Hk|]. by intros mi [_ H].
    + intros n m info c Hn Hc.
      pose proof (list_elem_of_lookup_2 _ _ _ Hn) as Hin.
      apply knownMarkers_elem in Hin as [Hm [Hinfo Hid]%mapEntry_elem].
      split; [done|]. split; [done|]. split; [done|]. split.
      * rewrite (bind_take_lookup (fun mi : Marker * Marker3DInfo => marker_corners mi.1)
                   _ n c (m, info)); [done| |done|done].
        eapply Forall_impl; [exact Hk|]. by intros mi [H _].
      * rewrite (bind_take_lookup (fun mi : Marker * Marker3DInfo => info_points mi.2)
                   _ n c (m, info)); [done| |done|done].
        eapply Forall_impl; [exact Hk|]. by intros mi [_ H].
  - intros d inCal vi Hwf Hready.
    destruct (arucoDetect_total s d inCal vi Hready) as [inCal' Hrun].
    exists inCal'. split; [done|].
    split; [by apply (arucoDetect_inv s d inCal inCal' vi)|].
    intros Hmode. destruct Hready as (Hvi & Hc & Hp & Hmaps & Hmarkers).
    rewrite (arucoDetect_loop s d inCal vi) in Hrun by (intros H; by apply Hvi).
    rewrite (arucoLoop_pairs s d (Z.to_nat vi) (Z.to_nat (nConfigs s)) 0 inCal Hmode)
      in Hrun; [congruence| |done].
    intros j Hj.
    destruct (lookup_lt_is_Some_2 (configList s) j) as [map Hmap]; [lia|].
    destruct (lookup_lt_is_Some_2 (planeList s) j) as [plane Hplane]; [lia|].
    exists map, plane. split; [done|]. split; [done|]. eapply Forall_lookup_1; eauto.
  - intros A B Hm.
    destruct (getSharedPoints_run A B Hm) as ([A' B'] & Hrun & _ & _ & _ & Hrows).
    exists A', B'. split; [done|].
    destruct (getSharedPoints_well_formed A B A' B' Hm Hrun) as [HwA HwB].
    split; [done|]. split; [done|].
    intros i oa ob ia ib Hrow.
    pose proof (matchable_row_ok _ _ _ _ _ _ _ Hm Hrow) as Hok.
    exists (sharedObjectPoints (sharedAt oa ob ia ib)),
           (sharedImagePoints (sharedAt oa ob ia ib)),
           (sharedImagePoints2 (sharedAt oa ob ia ib)).
    split; [by apply Hrows|].
    destruct (sharedAt_lengths oa ob ia ib) as [Hl1 Hl2].
    split; [done|]. split; [done|].
    intros k p Hk.
    destruct (sharedAt_lookup oa ob ia ib k p Hok Hk)
      as (j & t & q & _ & Hj & Hsi & _ & Hq & Heq & Hsi2).
    exists j, t, q. auto.
  - intros images st Himages Hrun. destruct (driverInit_well_formed s) as [H1 H2].
    by apply (detectLoop_well_formed s images 0 (driverInit s) st).
Qed.

Lemma correspondence_sets_aligned_witness :
  (well_formed (chessboardDetect exBox exHit emptyCalibration) /\
   exists grid,
     imagePoints (chessboardDetect exBox exHit emptyCalibration) = [corners exHit] /\
     objectPoints (chessboardDetect exBox exHit emptyCalibration) = [grid] /\
     grid !! 3%nat = Some (chessboardCorner (squareSize exBox) 1 1)) /\
  (exists imagePointsBuf objectPointsBuf,
     calcArucoCorners [exMarker 7; exMarker 0] (exMap 0)
       = Ok (imagePointsBuf, objectPointsBuf) /\
     imagePointsBuf !! 2%nat = Some (P2 200 200) /\
     objectPointsBuf !! 2%nat = Some (P3 125 125 0)) /\
  (exists inCal',
     arucoDetect exBox exHit exSized 0 = Ok inCal' /\ well_formed inCal' /\
     inCal' = appendAt exSized 0 (seq 0 3 ≫= configPairs exBox exHit).*1
                                 (seq 0 3 ≫= configPairs exBox exHit).*2) /\
  (exists A' B', getSharedPoints exA exB = Ok (A', B') /\
                 well_formed A' /\ well_formed B') /\
  (exists st, detectAll exBox [exHit] = Ok st /\
              well_formed (dInCal st) /\ well_formed (dInCal2 st)).
Proof.
  destruct (correspondence_sets_aligned exBox) as (Hchess & Hcorners & Haruco & Hshared & Hpass).
  assert (H0 : Forall (chessboard_contract exBox) [exHit])
    by (repeat constructor; intros _; reflexivity).
  assert (H1 : well_formed exSized) by repeat constructor.
  assert (H2 : chessboard_contract exBox exHit) by (intros _; reflexivity).
  assert (H3 : aruco_ready exBox exHit exSized 0).
  { unfold aruco_ready. split; [intros _; simpl; lia|].
    split; [simpl; lia|]. split; [simpl; lia|]. split.
    - repeat constructor; unfold four_points; simpl; lia.
    - intros j. repeat constructor. }
  assert (H4 : matchable exA exB) by solve_matchable.
  split; [|split; [|split; [|split]]].
  - destruct (Hchess exHit emptyCalibration) as (Hwf & _ & Hfound);
      [constructor|exact H2|].
    split; [exact Hwf|].
    destruct (Hfound eq_refl) as (grid & Hi & Ho & _ & Hgrid).
    exists grid. split; [exact Hi|]. split; [exact Ho|].
    apply (Hgrid 1 1)%Z; simpl; lia.
  - destruct (Hcorners [exMarker 7; exMarker 0] (exMap 0)) as [_ Hfill].
    destruct Hfill as (ib & ob & Hrun & _ & _ & Hat).
    + repeat constructor.
    + repeat constructor.
    + exists ib, ob. split; [exact Hrun|].
      destruct (Hat 0%nat (exMarker 0) (mkMarker3DInfo 0 [P3 0 0 0; P3 125 0 0; P3 125 125 0; P3 0 125 0])
                    2%nat eq_refl) as (_ & _ & _ & Hi & Ho); [lia|].
      split; [exact Hi|exact Ho].
  - destruct (Haruco exHit exSized 0%Z H1 H3) as (inCal' & Hrun & Hwf & Hpairs).
    exists inCal'. split; [exact Hrun|]. split; [exact Hwf|].
    apply Hpairs. discriminate.
  - destruct (Hshared exA exB H4) as (A' & B' & Hrun & HwA & HwB & _).
    exists A', B'. split; [exact Hrun|]. split; [exact HwA|exact HwB].
  - destruct (detectAll exBox [exHit]) as [st|e] eqn:E.
    + exists st. split; [reflexivity|]. by apply (Hpass [exHit]).
    + vm_compute in E. discriminate E.
Defined.
